(** * Community Skills Validator (skills/community-skills/validate-skill.js)

    A shallow embedding of the class [CommunitySkillsValidator] and the
    properties its specification states about it.

    Conventions of the embedding.
    - A JavaScript string is a [string]: a sequence of 8-bit code units,
      read as the code points U+0000..U+00FF.  [toLowerCase] and [trim]
      are the restrictions of [String.prototype.toLowerCase] and
      [String.prototype.trim] to that range.
    - A JavaScript integer is a [Z]; [undefined] and [null] in a field are
      [None].
    - [async] methods are computations in the monad [M]: they thread the
      [World] (clock, cache file, audit log, network, object store) and
      either return a value or throw an error message.
    - Objects that are mutated after they are created live in the object
      store of the world and are passed around by reference. *)

From Stdlib Require Import ZArith QArith Ascii Lia.
From Stdlib Require String.
From stdpp Require Import base list strings pretty.

Local Open Scope Z_scope.

(** String concatenation unfolds under [simpl] once the left operand
    shows its first character. *)
Local Arguments String.append !s1 s2 / : simpl nomatch.

(** ** Strings *)

Module Js.

(** Code units that [trim] removes: TAB, LF, VT, FF, CR, SP and NBSP. *)
Definition isWhiteSpace (c : ascii) : bool :=
  let n := Z.of_N (N_of_ascii c) in
  ((9 <=? n) && (n <=? 13)) || (n =? 32) || (n =? 160).

(** [toLowerCase] on one code unit: A..Z, and the Latin-1 capitals
    U+00C0..U+00DE without the multiplication sign U+00D7. *)
Definition lowerChar (c : ascii) : ascii :=
  let n := Z.of_N (N_of_ascii c) in
  if ((65 <=? n) && (n <=? 90))
     || ((192 <=? n) && (n <=? 222) && negb (n =? 215))
  then ascii_of_N (Z.to_N (n + 32))
  else c.

Fixpoint toLowerCase (s : string) : string :=
  match s with
  | EmptyString => EmptyString
  | String c s' => String (lowerChar c) (toLowerCase s')
  end.

Fixpoint trimStart (s : string) : string :=
  match s with
  | EmptyString => EmptyString
  | String c s' => if isWhiteSpace c then trimStart s' else s
  end.

Definition isEmpty (s : string) : bool :=
  match s with EmptyString => true | _ => false end.

Fixpoint trimEnd (s : string) : string :=
  match s with
  | EmptyString => EmptyString
  | String c s' =>
      let t := trimEnd s' in
      if isWhiteSpace c && isEmpty t then EmptyString else String c t
  end.

Definition trim (s : string) : string := trimEnd (trimStart s).

(** [s.startsWith(p)]. *)
Fixpoint startsWith (s p : string) {struct p} : bool :=
  match p, s with
  | EmptyString, _ => true
  | String a p', String b s' => if Ascii.eqb a b then startsWith s' p' else false
  | String _ _, EmptyString => false
  end.

(** [s.includes(sub)]: [sub] occurs in [s] at some position. *)
Fixpoint includes (s sub : string) : bool :=
  startsWith s sub ||
  match s with
  | EmptyString => false
  | String _ s' => includes s' sub
  end.

(** [s.split(c)] for a one-character separator. *)
Fixpoint split (c : ascii) (s : string) : list string :=
  match s with
  | EmptyString => [EmptyString]
  | String a s' =>
      if Ascii.eqb a c then EmptyString :: split c s'
      else match split c s' with
           | piece :: pieces => String a piece :: pieces
           | [] => [String a EmptyString]
           end
  end.

(** [s.replace(/\.git$/, '')]: the pattern is anchored at the end of the
    string, so at most one occurrence, the last four characters, goes. *)
Fixpoint replaceGitSuffix (s : string) : string :=
  if String.eqb s ".git" then EmptyString
  else match s with
       | EmptyString => EmptyString
       | String c s' => String c (replaceGitSuffix s')
       end.

End Js.

(** ** The link pattern of [parseSkillsFromReadme]

    [/\[([^\]]+)\]\(https:\/\/github\.com\/([^\/]+)\/([^)]+)\)/]

    Each group is a greedy run of characters other than the delimiter that
    follows it, so from a given start the match is forced: a shorter run
    would have to be followed by the delimiter, which the run excludes.
    [matchAt] is that forced match; [lineMatch] tries the start positions
    from the left, as [String.prototype.match] does. *)

Module Pattern.

(** The characters of [s] before the first [c], and what follows that [c];
    [None] when [c] does not occur. *)
Fixpoint runUntil (c : ascii) (s : string) : option (string * string) :=
  match s with
  | EmptyString => None
  | String a s' =>
      if Ascii.eqb a c then Some (EmptyString, s')
      else match runUntil c s' with
           | Some (run, rest) => Some (String a run, rest)
           | None => None
           end
  end.

(** [s] without the prefix [p], when it starts with it. *)
Fixpoint dropPrefix (p s : string) : option string :=
  match p, s with
  | EmptyString, _ => Some s
  | String a p', String b s' => if Ascii.eqb a b then dropPrefix p' s' else None
  | String _ _, EmptyString => None
  end.

Definition linkOpen : string := "(https://github.com/".

(** The three captured groups: label, owner, repo segment. *)
Definition Groups : Type := string * string * string.

Definition matchAt (s : string) : option Groups :=
  match s with
  | String "[" s1 =>
      match runUntil "]" s1 with
      | Some (label, s2) =>
          if Js.isEmpty label then None else
          match dropPrefix linkOpen s2 with
          | Some s3 =>
              match runUntil "/" s3 with
              | Some (owner, s4) =>
                  if Js.isEmpty owner then None else
                  match runUntil ")" s4 with
                  | Some (repo, _) =>
                      if Js.isEmpty repo then None else Some (label, owner, repo)
                  | None => None
                  end
              | None => None
              end
          | None => None
          end
      | None => None
      end
  | _ => None
  end.

Fixpoint lineMatch (line : string) : option Groups :=
  match matchAt line with
  | Some g => Some g
  | None =>
      match line with
      | EmptyString => None
      | String _ rest => lineMatch rest
      end
  end.

End Pattern.

(** ** Skill entries *)

Module RepoInfo.

(** The repository metadata object as [calculateSafetyScore] reads it.
    [updated_at] holds the time value of [new Date(repoInfo.updated_at)]
    in milliseconds, [None] when that date is invalid (field absent or not
    a date); [license] holds the licence name when the field is an object. *)
Record t : Type := mk {
  stargazers_count : option Z;
  forks_count : option Z;
  updated_at : option Z;
  description : option string;
  license : option string
}.

(** The object literal [{}]. *)
Definition empty : t := mk None None None None None.

End RepoInfo.

(** What [JSON.parse] may hand to [calculateSafetyScore]: a falsy value
    ([null]) or an object.  A truthy value that is not an object has none
    of the properties the function reads, like the object whose fields are
    all [None]. *)
Inductive Metadata : Type :=
| Falsy
| Obj (info : RepoInfo.t).

Module Skill.

(** The object pushed by [parseSkillsFromReadme]; [repoInfo] and
    [safetyScore] are the properties [validateSkill] assigns later, [None]
    while the object does not have them. *)
Record t : Type := mk {
  name : string;
  owner : string;
  repo : string;
  url : string;
  parsedFrom : string;
  repoInfo : option Metadata;
  safetyScore : option Z
}.

End Skill.

(** The body of the loop of [parseSkillsFromReadme] for one line. *)
Definition entryOfLine (line : string) : option Skill.t :=
  match Pattern.lineMatch line with
  | Some (name, owner, repo) =>
      Some {| Skill.name := Js.trim (Js.toLowerCase name);
              Skill.owner := owner;
              Skill.repo := Js.replaceGitSuffix repo;
              Skill.url := "https://github.com/" +:+ owner +:+ "/" +:+ repo;
              Skill.parsedFrom := Js.trim line;
              Skill.repoInfo := None;
              Skill.safetyScore := None |}
  | None => None
  end.

(** [parseSkillsFromReadme(content)]: the [for] loop pushes onto [skills]. *)
Definition parseSkillsFromReadme (content : string) : list Skill.t :=
  let lines := Js.split "010" content in
  fold_left
    (fun skills line =>
       match entryOfLine line with
       | Some skill => skills ++ [skill]
       | None => skills
       end)
    lines [].

(** ** Safety score *)

(** [x >= k] for a field that may be [undefined]: the comparison with
    [undefined] is false. *)
Definition geNum (x : option Z) (k : Z) : bool :=
  match x with
  | Some v => k <=? v
  | None => false
  end.

(** Truthiness of a numeric field: [undefined] and [0] are falsy. *)
Definition truthyNum (x : option Z) : bool :=
  match x with
  | Some v => negb (v =? 0)
  | None => false
  end.

(** [(Date.now() - lastUpdate.getTime()) / (1000 * 60 * 60 * 24)], as an
    exact quotient; [None] is [NaN].  The numerator is a whole number of
    milliseconds, so the rounded quotient of the source is on the same
    side of 30, 90 and 180 as the exact one. *)
Definition daysSince (now : Z) (lastUpdate : option Z) : option Q :=
  match lastUpdate with
  | Some t => Some (inject_Z (now - t) / inject_Z (1000 * 60 * 60 * 24))%Q
  | None => None
  end.

(** [d <= k]; false when [d] is [NaN]. *)
Definition leDays (d : option Q) (k : Q) : bool :=
  match d with
  | Some q => Qle_bool q k
  | None => false
  end.

(** [repoInfo.description && repoInfo.description.length > 10]. *)
Definition longDescription (d : option string) : bool :=
  match d with
  | Some text => (10 <? Z.of_nat (String.length text))
  | None => false
  end.

(** Truthiness of a field that holds an object or [null]. *)
Definition isPresent {A : Type} (x : option A) : bool :=
  match x with
  | Some _ => true
  | None => false
  end.

(** [calculateSafetyScore(repoInfo)], with [now] the value of
    [Date.now()] at the call. *)
Definition calculateSafetyScore (now : Z) (repoInfo : Metadata) : Z :=
  match repoInfo with
  | Falsy => 0
  | Obj info =>
      if negb (truthyNum (RepoInfo.stargazers_count info)) then 0 else
      let score := 0 in
      let score :=
        if geNum (RepoInfo.stargazers_count info) 100 then score + 3
        else if geNum (RepoInfo.stargazers_count info) 20 then score + 2
        else if geNum (RepoInfo.stargazers_count info) 5 then score + 1
        else score in
      let score :=
        if geNum (RepoInfo.forks_count info) 10 then score + 2
        else if geNum (RepoInfo.forks_count info) 2 then score + 1
        else score in
      let daysSinceUpdate := daysSince now (RepoInfo.updated_at info) in
      let score :=
        if leDays daysSinceUpdate 30 then score + 3
        else if leDays daysSinceUpdate 90 then score + 2
        else if leDays daysSinceUpdate 180 then score + 1
        else score in
      let score :=
        if longDescription (RepoInfo.description info) then score + 1 else score in
      let score :=
        if isPresent (RepoInfo.license info) then score + 1 else score in
      score
  end.

Definition msPerDay : Z := 1000 * 60 * 60 * 24.

Definition highQualityRepo (now : Z) : RepoInfo.t :=
  {| RepoInfo.stargazers_count := Some 150;
     RepoInfo.forks_count := Some 25;
     RepoInfo.updated_at := Some (now - 10 * msPerDay);
     RepoInfo.description :=
       Some "A well-maintained OpenClaw skill for weather forecasting";
     RepoInfo.license := Some "MIT" |}.

Definition lowQualityRepo (now : Z) : RepoInfo.t :=
  {| RepoInfo.stargazers_count := Some 1;
     RepoInfo.forks_count := Some 0;
     RepoInfo.updated_at := Some (now - 200 * msPerDay);
     RepoInfo.description := Some "Test";
     RepoInfo.license := None |}.

(** ** The world of the validator *)

(** A thrown [Error] is kept as its message. *)
Inductive Outcome (A : Type) : Type :=
| Return (a : A)
| Throw (message : string).
Arguments Return {A} a.
Arguments Throw {A} message.

(** A reference to an object of the store. *)
Definition loc : Type := nat.

Module Cache.

(** [{ timestamp, skills }]: on disk the skills are the serialized objects,
    in memory references to the objects [JSON.parse] created. *)
Record t (E : Type) : Type := mk {
  timestamp : Z;
  skills : list E
}.
Arguments mk {E} timestamp skills.
Arguments timestamp {E} _.
Arguments skills {E} _.

End Cache.

(** The file [approved-skills.json]. *)
Inductive CacheFile : Type :=
| NoFile
| Corrupt
| Stored (cache : Cache.t Skill.t).

(** One line of [audit.log]. *)
Record AuditRecord : Type := mkAudit {
  audit_timestamp : Z;
  audit_skillName : string;
  audit_result : string;
  audit_reason : string;
  audit_userConfirmed : bool
}.

(** What the remote end does with one GET. *)
Inductive HttpOutcome : Type :=
| ConnectionError (message : string)
| Response (statusCode : Z) (data : string).

Record HttpReply : Type := mkReply {
  latency : Z;
  outcome : HttpOutcome
}.

(** What [fs.writeFile] does with the cache file.  It opens the file with
    flag [w], which empties it, and then writes: the write goes through,
    or it is refused when the file is opened and the file stays as it
    was, or it fails once the file is open and leaves a file cut short,
    which no longer parses. *)
Inductive WriteOutcome : Type :=
| Written
| RefusedAtOpen
| FailedAfterOpen.

(** All the methods read and write: the clock ([Date.now()], in
    milliseconds), the two files and what a write to them does, the
    answer of the remote end to a GET of each url, the urls requested so
    far, and the object store.  The world handed to a call carries the
    time of the call; within a call the clock moves while a request is
    pending. *)
Record World : Type := mkWorld {
  clock : Z;
  cacheFile : CacheFile;
  cacheWrite : WriteOutcome;
  auditLog : list AuditRecord;
  auditWritable : bool;
  network : string → HttpReply;
  requests : list string;
  heap : list Skill.t
}.

Definition withHeap (h : list Skill.t) (w : World) : World :=
  mkWorld (clock w) (cacheFile w) (cacheWrite w) (auditLog w)
          (auditWritable w) (network w) (requests w) h.

Definition withCacheFile (f : CacheFile) (w : World) : World :=
  mkWorld (clock w) f (cacheWrite w) (auditLog w)
          (auditWritable w) (network w) (requests w) (heap w).

Definition withAuditLog (log : list AuditRecord) (w : World) : World :=
  mkWorld (clock w) (cacheFile w) (cacheWrite w) log
          (auditWritable w) (network w) (requests w) (heap w).

(** A write to the cache file goes through. *)
Definition cacheWritable (w : World) : bool :=
  match cacheWrite w with
  | Written => true
  | RefusedAtOpen | FailedAfterOpen => false
  end.

(** The world after [fs.writeFile] was called with the text of [cache]. *)
Definition afterCacheWrite (cache : Cache.t Skill.t) (w : World) : World :=
  match cacheWrite w with
  | Written => withCacheFile (Stored cache) w
  | RefusedAtOpen => w
  | FailedAfterOpen => withCacheFile Corrupt w
  end.

(** One request went out to [url] and took [d] milliseconds. *)
Definition afterRequest (url : string) (d : Z) (w : World) : World :=
  mkWorld (clock w + d) (cacheFile w) (cacheWrite w) (auditLog w)
          (auditWritable w) (network w) (requests w ++ [url]) (heap w).

(** ** The monad of the [async] methods *)

Definition M (A : Type) : Type := World → Outcome A * World.

Definition ret {A : Type} (a : A) : M A := λ w, (Return a, w).

Definition throw {A : Type} (message : string) : M A := λ w, (Throw message, w).

Definition bind {A B : Type} (m : M A) (k : A → M B) : M B :=
  λ w, match m w with
       | (Return a, w') => k a w'
       | (Throw e, w') => (Throw e, w')
       end.

(** [try { body } catch (error) { handler }], [error.message] being what
    the handler receives. *)
Definition tryCatch {A : Type} (body : M A) (handler : string → M A) : M A :=
  λ w, match body w with
       | (Return a, w') => (Return a, w')
       | (Throw e, w') => handler e w'
       end.

(** A synchronous step that may throw. *)
Definition lift {A : Type} (o : Outcome A) : M A := λ w, (o, w).

Notation "'let*' x ':=' m 'in' k" := (bind m (λ x, k))
  (at level 10, x name, m at level 100, k at level 200).
Notation "'do*' m 'in' k" := (bind m (λ _, k))
  (at level 10, m at level 100, k at level 200).

(** [Date.now()]: the clock of the world.  Within a call, time passes
    while a request is pending ([afterRequest]); a later call is a call
    on a world with a later clock. *)
Definition Date_now : M Z := λ w, (Return (clock w), w).

(** Object creation: the new objects go to the end of the store. *)
Definition allocAll (objects : list Skill.t) : M (list loc) :=
  λ w, (Return (seq (length (heap w)) (length objects)),
        withHeap (heap w ++ objects) w).

(** The objects the references [ls] point to. *)
Definition objectsAt (h : list Skill.t) (ls : list loc) : option (list Skill.t) :=
  mapM (λ l, h !! l) ls.

(** Reading through a reference.  A reference always comes from
    [allocAll], so the store has it; the other branch is never taken. *)
Definition readObj (l : loc) : M Skill.t :=
  λ w, match heap w !! l with
       | Some o => (Return o, w)
       | None => (Throw "TypeError", w)
       end.

(** Assignment to a property of the object behind [l]. *)
Definition updateObj (l : loc) (f : Skill.t → Skill.t) : M unit :=
  λ w, match heap w !! l with
       | Some o => (Return tt, withHeap (<[l := f o]> (heap w)) w)
       | None => (Throw "TypeError", w)
       end.

Definition setRepoInfo (repoInfo : Metadata) (s : Skill.t) : Skill.t :=
  Skill.mk (Skill.name s) (Skill.owner s) (Skill.repo s) (Skill.url s)
           (Skill.parsedFrom s) (Some repoInfo) (Skill.safetyScore s).

Definition setSafetyScore (safetyScore : Z) (s : Skill.t) : Skill.t :=
  Skill.mk (Skill.name s) (Skill.owner s) (Skill.repo s) (Skill.url s)
           (Skill.parsedFrom s) (Skill.repoInfo s) (Some safetyScore).

(** ** The class *)

Module Validator.

(** The fields of [this] the methods read; the two file paths are the
    files of the world. *)
Record t : Type := mk {
  cacheTimeout : Z;
  awesomeSkillsUrl : string
}.

End Validator.

Definition constructor : Validator.t :=
  {| Validator.cacheTimeout := 60 * 60 * 1000;
     Validator.awesomeSkillsUrl :=
       "https://api.github.com/repos/VoltAgent/awesome-openclaw-skills/contents/README.md" |}.

(** The result object of [validateSkill]: [{approved: false, reason,
    skill: null}] or [{approved: true, skill, safetyScore}]. *)
Inductive ValidationResult : Type :=
| Rejected (reason : string)
| Approved (skill : loc) (safetyScore : Z).

Definition approved (r : ValidationResult) : bool :=
  match r with
  | Rejected _ => false
  | Approved _ _ => true
  end.

(** The arrow function given to [approvedSkills.find]. *)
Definition matchesName (normalizedName : string) (s : Skill.t) : bool :=
  String.eqb (Skill.name s) normalizedName
  || String.eqb (Js.toLowerCase (Skill.repo s)) normalizedName
  || Js.includes (Js.toLowerCase (Skill.repo s)) normalizedName.

(** [Array.prototype.find] over an array of references: the first element
    whose object satisfies [p]. *)
Fixpoint findSkill (p : Skill.t → bool) (h : list Skill.t) (ls : list loc) : option loc :=
  match ls with
  | [] => None
  | l :: ls' =>
      match h !! l with
      | Some o => if p o then Some l else findSkill p h ls'
      | None => findSkill p h ls'
      end
  end.

(** [array.find(p)] as a step: it reads the objects from the store. *)
Definition find (p : Skill.t → bool) (array : list loc) : M (option loc) :=
  λ w, (Return (findSkill p (heap w) array), w).

Section Methods.

(** The library functions the methods call on a response body:
    [decodeReadme data] is
    [Buffer.from(JSON.parse(data).content, 'base64').toString('utf-8')],
    [parseRepoInfo data] is [JSON.parse(data)]; both throw on a body they
    cannot read. *)
Variable decodeReadme : string → Outcome string.
Variable parseRepoInfo : string → Outcome Metadata.

Variable this : Validator.t.

(** [httpRequest(url)]: resolves with the body on a 2xx status, rejects
    otherwise and on a connection error. *)
Definition httpRequest (url : string) : M string :=
  λ w, let reply := network w url in
       let w' := afterRequest url (latency reply) w in
       match outcome reply with
       | ConnectionError message => (Throw message, w')
       | Response statusCode data =>
           if (200 <=? statusCode) && (statusCode <? 300)
           then (Return data, w')
           else (Throw ("HTTP " +:+ pretty statusCode +:+ ": " +:+ data), w')
       end.

(** [loadCache()]: the parsed file, [None] for [null]. *)
Definition loadCache : M (option (Cache.t loc)) :=
  λ w, match cacheFile w with
       | Stored c =>
           match allocAll (Cache.skills c) w with
           | (Return ls, w') => (Return (Some (Cache.mk (Cache.timestamp c) ls)), w')
           | (Throw e, w') => (Return None, w')
           end
       | NoFile | Corrupt => (Return None, w)
       end.

(** [saveCache(skills)]: a failed write is caught and only logged to the
    console; what it did to the file stays. *)
Definition saveCache (skills : list loc) : M unit :=
  λ w, match objectsAt (heap w) skills with
       | Some objects =>
           (Return tt, afterCacheWrite (Cache.mk (clock w) objects) w)
       | None => (Return tt, w)
       end.

(** [logAttempt(skillName, result, reason, userConfirmed)]. *)
Definition logAttempt (skillName result reason : string) (userConfirmed : bool) : M unit :=
  λ w, if auditWritable w
       then (Return tt,
             withAuditLog
               (auditLog w ++ [mkAudit (clock w) skillName result reason userConfirmed]) w)
       else (Return tt, w).

(** Lines 30 to 43: the part of the [try] block of [fetchApprovedSkills]
    that runs when no fresh cache answered. *)
Definition fetchRemote : M (list loc) :=
  let* readmeContent := httpRequest (Validator.awesomeSkillsUrl this) in
  let* content := lift (decodeReadme readmeContent) in
  let* skills := allocAll (parseSkillsFromReadme content) in
  do* saveCache skills in
  ret skills.

Definition fetchApprovedSkills : M (list loc) :=
  tryCatch
    (let* cache := loadCache in
     match cache with
     | Some c =>
         let* now := Date_now in
         if now - Cache.timestamp c <? Validator.cacheTimeout this
         then ret (Cache.skills c)
         else fetchRemote
     | None => fetchRemote
     end)
    (λ error,
       let* cache := loadCache in
       match cache with
       | Some c => ret (Cache.skills c)
       | None => throw "Cannot validate skills - no approved list available"
       end).

Definition fetchRepoInfo (owner repo : string) : M Metadata :=
  tryCatch
    (let url := "https://api.github.com/repos/" +:+ owner +:+ "/" +:+ repo in
     let* data := httpRequest url in
     lift (parseRepoInfo data))
    (λ error, ret (Obj RepoInfo.empty)).

Definition validateSkill (skillName : string) : M ValidationResult :=
  let normalizedName := Js.trim (Js.toLowerCase skillName) in
  tryCatch
    (let* approvedSkills := fetchApprovedSkills in
     let* skill := find (matchesName normalizedName) approvedSkills in
     match skill with
     | None =>
         do* logAttempt skillName "REJECTED" "Not found in awesome-openclaw-skills" false in
         ret (Rejected "Not found in awesome-openclaw-skills repository")
     | Some skill =>
         let* s := readObj skill in
         let* repoInfo := fetchRepoInfo (Skill.owner s) (Skill.repo s) in
         do* updateObj skill (setRepoInfo repoInfo) in
         let* now := Date_now in
         let safetyScore := calculateSafetyScore now repoInfo in
         do* updateObj skill (setSafetyScore safetyScore) in
         ret (Approved skill safetyScore)
     end)
    (λ error,
       do* logAttempt skillName "ERROR" error false in
       throw error).

End Methods.

(** ** The link pattern, declaratively *)

(** [c] is one of the characters of [s]. *)
Fixpoint occurs (c : ascii) (s : string) : Prop :=
  match s with
  | EmptyString => False
  | String a s' => a = c ∨ occurs c s'
  end.

(** [line] reads [pre[label](https://github.com/owner/repo)post], the
    label free of ["]"], the owner free of ["/"], the repo segment free of
    [")"], none of them empty. *)
Definition Link (pre label owner repo post line : string) : Prop :=
  line = pre +:+ "[" +:+ label +:+ "](https://github.com/" +:+ owner
             +:+ "/" +:+ repo +:+ ")" +:+ post
  ∧ label ≠ "" ∧ ¬ occurs "]" label
  ∧ owner ≠ "" ∧ ¬ occurs "/" owner
  ∧ repo ≠ "" ∧ ¬ occurs ")" repo.

(** The link of [line] that starts furthest to the left. *)
Definition FirstLink (pre label owner repo post line : string) : Prop :=
  Link pre label owner repo post line
  ∧ ∀ pre' label' owner' repo' post',
      Link pre' label' owner' repo' post' line →
      (String.length pre ≤ String.length pre')%nat.

Definition HasLink (line : string) : Prop :=
  ∃ pre label owner repo post, Link pre label owner repo post line.

(** [s] ends in [".git"]. *)
Definition endsInGit (s : string) : Prop := ∃ r, s = r +:+ ".git".

(** The text of a link, from its opening bracket on. *)
Definition linkText (label owner repo post : string) : string :=
  String "[" (label +:+ String "]" (Pattern.linkOpen +:+ owner
    +:+ String "/" (repo +:+ String ")" post))).


(** The url the specification describes: rebuilt from the owner and the
    repo of the entry, the repo being the one without [".git"]. *)
Definition canonicalUrl (e : Skill.t) : string :=
  "https://github.com/" +:+ Skill.owner e +:+ "/" +:+ Skill.repo e.

(** [lines.join(c)]. *)
Fixpoint join (c : ascii) (pieces : list string) : string :=
  match pieces with
  | [] => ""
  | [piece] => piece
  | piece :: rest => piece +:+ String c (join c rest)
  end.

(** The third line of the sample document of the test suite. *)
Definition gitLine : string :=
  "- [crypto-prices](https://github.com/crypto-dev/price-tracker.git) - Track cryptocurrency prices".

Definition gitEntry : Skill.t :=
  {| Skill.name := "crypto-prices";
     Skill.owner := "crypto-dev";
     Skill.repo := "price-tracker";
     Skill.url := "https://github.com/crypto-dev/price-tracker.git";
     Skill.parsedFrom := gitLine;
     Skill.repoInfo := None;
     Skill.safetyScore := None |}.

(** The sample document of the test suite. *)
Definition sampleReadme : string :=
  String "010" ("# Awesome OpenClaw Skills" +:+ String "010" (String "010" (
  "## Community Skills" +:+ String "010" (String "010" (
  "- [weather-forecast](https://github.com/weather-dev/openclaw-weather) - Get weather forecasts" +:+ String "010" (
  "- [task-manager](https://github.com/productivity/openclaw-tasks) - Manage your tasks" +:+ String "010" (
  gitLine +:+ String "010" ""))))))).

(** ** The scoring table of the specification

    One function per row of the table, and their sum. *)

Definition starsBucket (stars : option Z) : Z :=
  match stars with
  | Some n =>
      if decide (100 ≤ n) then 3
      else if decide (20 ≤ n) then 2
      else if decide (5 ≤ n) then 1
      else 0
  | None => 0
  end.

Definition forksBucket (forks : option Z) : Z :=
  match forks with
  | Some n =>
      if decide (10 ≤ n) then 2
      else if decide (2 ≤ n) then 1
      else 0
  | None => 0
  end.

Definition recencyBucket (days : option Q) : Z :=
  match days with
  | Some d =>
      if Qle_bool d 30 then 3
      else if Qle_bool d 90 then 2
      else if Qle_bool d 180 then 1
      else 0
  | None => 0
  end.

Definition descriptionBucket (description : option string) : Z :=
  match description with
  | Some text => if decide (10 < String.length text)%nat then 1 else 0
  | None => 0
  end.

Definition licenseBucket (license : option string) : Z :=
  match license with
  | Some _ => 1
  | None => 0
  end.

Definition additiveScore (now : Z) (info : RepoInfo.t) : Z :=
  starsBucket (RepoInfo.stargazers_count info)
  + forksBucket (RepoInfo.forks_count info)
  + recencyBucket (daysSince now (RepoInfo.updated_at info))
  + descriptionBucket (RepoInfo.description info)
  + licenseBucket (RepoInfo.license info).

(** A repository with every signal but the stars: no star yet, 25 forks,
    updated ten days ago, described and licensed. *)
Definition unstarredRepo (now : Z) : RepoInfo.t :=
  {| RepoInfo.stargazers_count := Some 0;
     RepoInfo.forks_count := Some 25;
     RepoInfo.updated_at := Some (now - 10 * msPerDay);
     RepoInfo.description :=
       Some "A well-maintained OpenClaw skill for weather forecasting";
     RepoInfo.license := Some "MIT" |}.

(** The same repository with the star count missing from the object. *)
Definition starlessRepo (now : Z) : RepoInfo.t :=
  {| RepoInfo.stargazers_count := None;
     RepoInfo.forks_count := Some 25;
     RepoInfo.updated_at := Some (now - 10 * msPerDay);
     RepoInfo.description :=
       Some "A well-maintained OpenClaw skill for weather forecasting";
     RepoInfo.license := Some "MIT" |}.

(** [StrongerSignal now a b]: the metadata objects [a] and [b] differ in
    one trust signal only, and [b] has the stronger one: more stars (a
    star count is not negative), more forks, or fewer days since the last
    update. *)
Inductive StrongerSignal (now : Z) : RepoInfo.t → RepoInfo.t → Prop :=
| more_stars (s1 s2 : Z) forks updated description license :
    0 ≤ s1 → s1 ≤ s2 →
    StrongerSignal now
      (RepoInfo.mk (Some s1) forks updated description license)
      (RepoInfo.mk (Some s2) forks updated description license)
| more_forks stars (f1 f2 : Z) updated description license :
    f1 ≤ f2 →
    StrongerSignal now
      (RepoInfo.mk stars (Some f1) updated description license)
      (RepoInfo.mk stars (Some f2) updated description license)
| more_recent stars forks (t1 t2 : Z) (d1 d2 : Q) description license :
    daysSince now (Some t1) = Some d1 →
    daysSince now (Some t2) = Some d2 →
    (d2 <= d1)%Q →
    StrongerSignal now
      (RepoInfo.mk stars forks (Some t1) description license)
      (RepoInfo.mk stars forks (Some t2) description license).

(** The time of the examples, in milliseconds since the epoch. *)
Definition exampleNow : Z := 1700000000000.

(** ** Words of the specification about the validator *)

(** The three tests of the lookup: the name is the query, the repo is the
    query up to case, the repo holds the query up to case. *)
Definition Matches (query : string) (s : Skill.t) : Prop :=
  Skill.name s = query
  ∨ Js.toLowerCase (Skill.repo s) = query
  ∨ ∃ before after, Js.toLowerCase (Skill.repo s) = before +:+ query +:+ after.

(** The lookup as the specification words it, tier by tier: the first
    entry with the name, else the first entry with the repo up to case,
    else the first entry whose repo holds the query. *)
Definition tieredLookup (query : string) (entries : list Skill.t) : option Skill.t :=
  match List.find (λ e, String.eqb (Skill.name e) query) entries with
  | Some e => Some e
  | None =>
      match List.find (λ e, String.eqb (Js.toLowerCase (Skill.repo e)) query) entries with
      | Some e => Some e
      | None => List.find (λ e, Js.includes (Skill.repo e) query) entries
      end
  end.

Section Failures.

Variable decodeReadme : string → Outcome string.
Variable parseRepoInfo : string → Outcome Metadata.
Variable this : Validator.t.

(** The remote fetch of the list fails in [w]: no connection, a status
    outside 2xx, or a body that does not decode. *)
Definition listFetchFails (w : World) : Prop :=
  match outcome (network w (Validator.awesomeSkillsUrl this)) with
  | ConnectionError _ => True
  | Response statusCode data =>
      ¬ (200 ≤ statusCode < 300) ∨ ∃ message, decodeReadme data = Throw message
  end.

(** The metadata fetch for [owner/repo] fails in [w]. *)
Definition repoFetchFails (owner repo : string) (w : World) : Prop :=
  match outcome (network w ("https://api.github.com/repos/" +:+ owner +:+ "/" +:+ repo)) with
  | ConnectionError _ => True
  | Response statusCode data =>
      ¬ (200 ≤ statusCode < 300) ∨ ∃ message, parseRepoInfo data = Throw message
  end.

End Failures.

(** ** Worlds for the examples *)

(** A decoder for the examples: the body is the document itself, and an
    empty body does not parse. *)
Definition demoDecodeReadme (data : string) : Outcome string :=
  if Js.isEmpty data then Throw "Unexpected end of JSON input" else Return data.

(** A metadata parser for the examples: three bodies it can read. *)
Definition demoParseRepoInfo (data : string) : Outcome Metadata :=
  if String.eqb data "{}" then Return (Obj RepoInfo.empty)
  else if String.eqb data "null" then Return Falsy
  else if String.eqb data "{stargazers_count:150,forks_count:25}"
  then Return (Obj (RepoInfo.mk (Some 150) (Some 25) None None None))
  else Throw "Unexpected token in JSON".

(** The remote end when all is well: the list is the sample document, one
    repository has metadata, every other address answers 404. *)
Definition demoNetwork (url : string) : HttpReply :=
  if String.eqb url (Validator.awesomeSkillsUrl constructor)
  then mkReply 120 (Response 200 sampleReadme)
  else if String.eqb url "https://api.github.com/repos/weather-dev/openclaw-weather"
  then mkReply 80 (Response 200 "{stargazers_count:150,forks_count:25}")
  else mkReply 50 (Response 404 "Not Found").

(** No connection at all. *)
Definition offlineNetwork (url : string) : HttpReply :=
  mkReply 30 (ConnectionError "getaddrinfo ENOTFOUND api.github.com").

(** First run: no cache file yet, the network is up. *)
Definition firstRunWorld : World :=
  mkWorld exampleNow NoFile Written [] true demoNetwork [] [].

Definition alphaEntry : Skill.t :=
  Skill.mk "alpha" "tools-dev" "weather-tools"
           "https://github.com/tools-dev/weather-tools"
           "- [alpha](https://github.com/tools-dev/weather-tools)" None None.

Definition weatherEntry : Skill.t :=
  Skill.mk "weather" "weather-dev" "forecast"
           "https://github.com/weather-dev/forecast"
           "- [weather](https://github.com/weather-dev/forecast)" None None.

(** A cache of two entries written ten minutes ago; the network is up. *)
Definition cachedWorld : World :=
  mkWorld exampleNow
          (Stored (Cache.mk (exampleNow - 600000) [alphaEntry; weatherEntry]))
          Written [] true demoNetwork [] [].

(** The same cache, two hours old, and no connection. *)
Definition staleOfflineWorld : World :=
  mkWorld exampleNow
          (Stored (Cache.mk (exampleNow - 7200000) [alphaEntry; weatherEntry]))
          Written [] true offlineNetwork [] [].

(** No cache and no connection. *)
Definition offlineWorld : World :=
  mkWorld exampleNow NoFile Written [] true offlineNetwork [] [].

(** ** States one call goes through *)

(** The world once [loadCache] has parsed the file: the objects of the
    cache are new in the store. *)
Definition afterLoad (w : World) : World :=
  match cacheFile w with
  | Stored c => withHeap (heap w ++ Cache.skills c) w
  | NoFile | Corrupt => w
  end.

(** The cache of [w] is fresh for the validator [this]. *)
Definition isFresh (this : Validator.t) (w : World) : bool :=
  match cacheFile w with
  | Stored c => clock w - Cache.timestamp c <? Validator.cacheTimeout this
  | NoFile | Corrupt => false
  end.

(** The world once the list was asked for and the answer is in. *)
Definition afterListRequest (this : Validator.t) (w : World) : World :=
  afterRequest (Validator.awesomeSkillsUrl this)
    (latency (network w (Validator.awesomeSkillsUrl this))) (afterLoad w).

(** [o'] is [o] up to the two properties [validateSkill] assigns. *)
Definition sameEntry (o o' : Skill.t) : Prop :=
  Skill.name o' = Skill.name o
  ∧ Skill.owner o' = Skill.owner o
  ∧ Skill.repo o' = Skill.repo o
  ∧ Skill.url o' = Skill.url o
  ∧ Skill.parsedFrom o' = Skill.parsedFrom o.

(** The entry of the first link of the sample document. *)
Definition forecastEntry : Skill.t :=
  Skill.mk "weather-forecast" "weather-dev" "openclaw-weather"
           "https://github.com/weather-dev/openclaw-weather"
           "- [weather-forecast](https://github.com/weather-dev/openclaw-weather) - Get weather forecasts"
           None None.

(** The metadata [demoNetwork] serves for that entry. *)
Definition forecastInfo : Metadata :=
  Obj (RepoInfo.mk (Some 150) (Some 25) None None None).

(** ** The extractor in the words of the specification

    What the specification asks of the extractor, said without the
    functions of the embedding: lines, white space, lower case and the
    [".git"] suffix are described by what they are, and
    [parseSkillsFromReadme] is compared with the description. *)

(** The pattern of the specification, [[label](https://host/owner/repo)]:
    any host. *)
Definition SpecLink (pre label host owner repo post line : string) : Prop :=
  line = pre +:+ "[" +:+ label +:+ "](https://" +:+ host +:+ "/" +:+ owner
             +:+ "/" +:+ repo +:+ ")" +:+ post
  ∧ label ≠ "" ∧ ¬ occurs "]" label
  ∧ host ≠ "" ∧ ¬ occurs "/" host
  ∧ owner ≠ "" ∧ ¬ occurs "/" owner
  ∧ repo ≠ "" ∧ ¬ occurs ")" repo.

(** A line with a link to another host. *)
Definition gitlabLine : string :=
  "- [deploy-helper](https://gitlab.com/ops-team/deploy-helper) - Deploy from chat".

(** The number of a character. *)
Definition code (c : ascii) : Z := Z.of_N (N_of_ascii c).

(** The white space of ECMAScript below U+0100: TAB, LF, VT, FF, CR, SP
    and NBSP. *)
Definition WhiteSpaceChar (c : ascii) : Prop :=
  code c = 9 ∨ code c = 10 ∨ code c = 11 ∨ code c = 12 ∨ code c = 13
  ∨ code c = 32 ∨ code c = 160.

(** The capital letters below U+0100: A to Z, and U+00C0 to U+00DE
    without the multiplication sign. *)
Definition Capital (c : ascii) : Prop :=
  65 ≤ code c ≤ 90 ∨ 192 ≤ code c ≤ 214 ∨ 216 ≤ code c ≤ 222.

(** [c'] is [c] in lower case: the small letter of a capital comes 32
    places after it, any other character stays. *)
Definition LowerOf (c c' : ascii) : Prop :=
  (Capital c ∧ code c' = code c + 32) ∨ (¬ Capital c ∧ c' = c).

(** [t] is [s] in lower case. *)
Inductive Lowercased : string → string → Prop :=
| lowercased_nil : Lowercased "" ""
| lowercased_cons c c' s s' :
    LowerOf c c' → Lowercased s s' → Lowercased (String c s) (String c' s').

Fixpoint AllWhiteSpace (s : string) : Prop :=
  match s with
  | EmptyString => True
  | String c s' => WhiteSpaceChar c ∧ AllWhiteSpace s'
  end.

(** [t] is [s] without the white space at its two ends. *)
Definition Trimmed (s t : string) : Prop :=
  ∃ before after,
    s = before +:+ t +:+ after
    ∧ AllWhiteSpace before ∧ AllWhiteSpace after
    ∧ (∀ c rest, t = String c rest → ¬ WhiteSpaceChar c)
    ∧ (∀ rest c, t = rest +:+ String c "" → ¬ WhiteSpaceChar c).

(** [name = lowercase(trim(label))]. *)
Definition NameOf (label name : string) : Prop :=
  ∃ t, Trimmed label t ∧ Lowercased t name.

(** [repo] is the path segment without a trailing [".git"]. *)
Definition RepoOf (segment repo : string) : Prop :=
  segment = repo +:+ ".git" ∨ (¬ endsInGit segment ∧ repo = segment).

(** [e] is the entry the specification asks for the line: name, owner and
    repo come from the leftmost link of the line. *)
Definition EntryOf (line : string) (e : Skill.t) : Prop :=
  ∃ pre label owner repo post,
    FirstLink pre label owner repo post line
    ∧ NameOf label (Skill.name e)
    ∧ Skill.owner e = owner
    ∧ RepoOf repo (Skill.repo e).

(** [lines] are the lines of the document: joined by line feeds they
    give it back, and none of them holds a line feed. *)
Definition LinesOf (content : string) (lines : list string) : Prop :=
  lines ≠ []
  ∧ join "010" lines = content
  ∧ ∀ line, line ∈ lines → ¬ occurs "010" line.

(** One entry per line with a link, in the order of the lines; a line
    without a link gives nothing; equal lines give equal entries, each
    of them kept. *)
Inductive Extracted : list string → list Skill.t → Prop :=
| extracted_nil : Extracted [] []
| extracted_skip line lines entries :
    ¬ HasLink line →
    Extracted lines entries →
    Extracted (line :: lines) entries
| extracted_take line lines e entries :
    EntryOf line e →
    Extracted lines entries →
    Extracted (line :: lines) (e :: entries).

(** Two entries with the same name, owner and repo. *)
Definition sameFields (e e' : Skill.t) : Prop :=
  Skill.name e = Skill.name e'
  ∧ Skill.owner e = Skill.owner e'
  ∧ Skill.repo e = Skill.repo e'.

(** A document with capitals and padding in its labels, a link that is
    not https, and the same line twice. *)
Definition mixedCaseLines : list string :=
  [ "# Skills";
    "- [ Weather-Forecast ](https://github.com/Weather-Dev/OpenClaw-Weather.git) - forecasts";
    "see [the docs](http://github.com/docs/readme)";
    "- [ Weather-Forecast ](https://github.com/Weather-Dev/OpenClaw-Weather.git) - forecasts" ].

Definition mixedCaseReadme : string := join "010" mixedCaseLines.

Definition mixedCaseEntry : Skill.t :=
  Skill.mk "weather-forecast" "Weather-Dev" "OpenClaw-Weather"
           "https://github.com/Weather-Dev/OpenClaw-Weather.git"
           "- [ Weather-Forecast ](https://github.com/Weather-Dev/OpenClaw-Weather.git) - forecasts"
           None None.

(** ** The prompt and the command line *)

(** The four icons of [promptInstallation], by their names. *)
Inductive SafetyIcon : Type :=
| ShieldIcon
| LockIcon
| WarningIcon
| SirenIcon.

(** [safetyLevel] of [promptInstallation]. *)
Definition safetyLevel (safetyScore : Z) : string :=
  if 7 <=? safetyScore then "Excellent"
  else if 5 <=? safetyScore then "Good"
  else if 3 <=? safetyScore then "Fair"
  else "Low".

(** [safetyIcon] of [promptInstallation]. *)
Definition safetyIcon (safetyScore : Z) : SafetyIcon :=
  if 7 <=? safetyScore then ShieldIcon
  else if 5 <=? safetyScore then LockIcon
  else if 3 <=? safetyScore then WarningIcon
  else SirenIcon.

(** The callback of [rl.question]: what the typed line resolves to. *)
Definition confirmed (answer : string) : bool :=
  String.eqb (Js.trim (Js.toLowerCase answer)) "y"
  || String.eqb (Js.trim (Js.toLowerCase answer)) "yes".

(** What [skill.repoInfo.updated_at] is when [promptInstallation] prints
    it.  The metadata of the model keeps of that property its time value
    only, so the printing is told which kind of value it reads. *)
Inductive UpdatedAt : Type :=
| Nullish   (* [undefined] or [null]: [?.] gives [undefined], 'Unknown' is printed *)
| Text      (* a string: [split('T')] returns *)
| NoSplit.  (* any other value: it has no [split], the call is a TypeError *)

(** Standard input during the prompt. *)
Inductive Keyboard : Type :=
| Typed (answer : string)  (* a line comes in *)
| EndOfInput               (* the input ends before any line *)
| Silent.                  (* the input stays open and no line ever comes *)

(** The promise [promptInstallation] returns.  The callback of
    [rl.question] is its only resolver, and it runs only when a line
    comes in; when the input ends readline closes the interface and
    drops the question. *)
Inductive PromptResult : Type :=
| Resolved (confirmed : bool)
| PendingClosed  (* never resolved, the interface closed by the end of input *)
| PendingOpen.   (* not resolved, the interface still listening *)

(** Whether the line printed at lines 171 to 173 throws: it is printed when
    [skill.repoInfo] is truthy, and then calls
    [skill.repoInfo.updated_at?.split('T')]. *)
Definition splitThrows (updatedAt : UpdatedAt) (repoInfo : option Metadata) : bool :=
  match repoInfo, updatedAt with
  | Some (Obj _), NoSplit => true
  | _, _ => false
  end.

(** [promptInstallation(skill, safetyScore)].  What it prints goes to the
    console, which is no part of the world; printing reads the skill, and
    the metadata line may throw before the question is asked. *)
Definition promptInstallation (skill : loc) (safetyScore : Z)
    (updatedAt : UpdatedAt) (keyboard : Keyboard) : M PromptResult :=
  let* s := readObj skill in
  if splitThrows updatedAt (Skill.repoInfo s)
  then throw "skill.repoInfo.updated_at?.split is not a function"
  else ret (match keyboard with
            | Typed answer => Resolved (confirmed answer)
            | EndOfInput => PendingClosed
            | Silent => PendingOpen
            end).

(** How the process of [main] ends. *)
Inductive ProcessEnd : Type :=
| Exit (code : Z)  (* [process.exit(code)] *)
| Drained          (* [main] still pending and nothing left to wait for: node ends *)
| Waiting.         (* [main] pending on the open input: the process does not end *)


(** [main()], with [argv2] the value of [process.argv[2]] ([None] when
    it is [undefined]), [updatedAt] and [keyboard] as for
    [promptInstallation]. *)
Definition main (decodeReadme : string → Outcome string)
    (parseRepoInfo : string → Outcome Metadata)
    (argv2 : option string) (updatedAt : UpdatedAt) (keyboard : Keyboard)
  : World → ProcessEnd * World :=
  λ w,
    match argv2 with
    | None => (Exit 1, w)
    | Some skillName =>
        if Js.isEmpty skillName then (Exit 1, w) else
        match validateSkill decodeReadme parseRepoInfo constructor skillName w with
        | (Return (Rejected reason), w1) => (Exit 1, w1)
        | (Return (Approved skill safetyScore), w1) =>
            match promptInstallation skill safetyScore updatedAt keyboard w1 with
            | (Return (Resolved userConfirmed), w2) =>
                if userConfirmed
                then (Exit 0, (logAttempt skillName "APPROVED"
                                 "User confirmed installation" true w2).2)
                else (Exit 1, (logAttempt skillName "DECLINED"
                                 "User declined installation" false w2).2)
            | (Return PendingClosed, w2) => (Drained, w2)
            | (Return PendingOpen, w2) => (Waiting, w2)
            | (Throw error, w2) => (Exit 1, w2)
            end
        | (Throw error, w1) => (Exit 1, w1)
        end
    end.


(** ** Words for the properties of the methods *)

(** Every character of [s] is white space. *)
Fixpoint blank (s : string) : Prop :=
  match s with
  | EmptyString => True
  | String c s' => Js.isWhiteSpace c = true ∧ blank s'
  end.

(** The world at a later reading of the clock, all else equal. *)
Definition withClock (t : Z) (w : World) : World :=
  mkWorld t (cacheFile w) (cacheWrite w) (auditLog w)
          (auditWritable w) (network w) (requests w) (heap w).

Section Runs.

Variable decodeReadme : string → Outcome string.
Variable this : Validator.t.

(** The remote fetch of the list succeeds in [w] and yields the document
    [content]. *)
Definition listFetchYields (w : World) (content : string) : Prop :=
  ∃ statusCode data,
    outcome (network w (Validator.awesomeSkillsUrl this)) = Response statusCode data
    ∧ 200 ≤ statusCode < 300
    ∧ decodeReadme data = Return content.

(** The four ways a call of [fetchApprovedSkills] runs, with the answer
    and the world it leaves. *)
Inductive FetchRun (w : World) : Outcome (list loc) → World → Prop :=
| cache_hit c :
    cacheFile w = Stored c →
    clock w - Cache.timestamp c < Validator.cacheTimeout this →
    FetchRun w
      (Return (seq (length (heap w)) (length (Cache.skills c))))
      (withHeap (heap w ++ Cache.skills c) w)
| remote_success content :
    isFresh this w = false →
    listFetchYields w content →
    FetchRun w
      (Return (seq (length (heap (afterLoad w)))
                   (length (parseSkillsFromReadme content))))
      (afterCacheWrite
         (Cache.mk (clock (afterListRequest this w))
            (parseSkillsFromReadme content))
         (withHeap (heap (afterLoad w) ++ parseSkillsFromReadme content)
            (afterListRequest this w)))
| stale_fallback c :
    isFresh this w = false →
    listFetchFails decodeReadme this w →
    cacheFile w = Stored c →
    FetchRun w
      (Return (seq (length (heap (afterLoad w))) (length (Cache.skills c))))
      (withHeap (heap (afterLoad w) ++ Cache.skills c) (afterListRequest this w))
| total_failure :
    listFetchFails decodeReadme this w →
    (∀ c, cacheFile w ≠ Stored c) →
    FetchRun w
      (Throw "Cannot validate skills - no approved list available")
      (afterListRequest this w).

End Runs.

(** The record [logAttempt] writes at the clock of [w]. *)
Definition auditAt (w : World) (skillName result reason : string)
    (userConfirmed : bool) : AuditRecord :=
  mkAudit (clock w) skillName result reason userConfirmed.

(** First run on a disk that takes no write: neither the cache nor the
    audit log can be written. *)
Definition readOnlyWorld : World :=
  mkWorld exampleNow NoFile RefusedAtOpen [] false demoNetwork [] [].

(** A cache two hours old on a disk that is full: the file can be opened
    but the write fails. *)
Definition diskFullWorld : World :=
  mkWorld exampleNow
          (Stored (Cache.mk (exampleNow - 7200000) [alphaEntry; weatherEntry]))
          FailedAfterOpen [] true demoNetwork [] [].
(** ** Facts about strings *)

Section StringFacts.

Lemma append_nil_r (s : string) : s +:+ "" = s.
Proof. induction s as [|c s IH]; simpl; [reflexivity | now rewrite IH]. Qed.

Lemma append_assoc (a b c : string) : (a +:+ b) +:+ c = a +:+ (b +:+ c).
Proof. induction a as [|x a IH]; simpl; [reflexivity | now rewrite IH]. Qed.

Lemma length_append (a b : string) :
  String.length (a +:+ b) = (String.length a + String.length b)%nat.
Proof. induction a as [|x a IH]; simpl; [reflexivity | now rewrite IH]. Qed.

Lemma isEmpty_true (s : string) : Js.isEmpty s = true ↔ s = "".
Proof. destruct s; simpl; split; congruence. Qed.

Lemma isEmpty_false (s : string) : Js.isEmpty s = false ↔ s ≠ "".
Proof. destruct s; simpl; split; congruence. Qed.

Lemma isEmpty_toLowerCase (s : string) :
  Js.isEmpty (Js.toLowerCase s) = Js.isEmpty s.
Proof. now destruct s. Qed.

Lemma isWhiteSpace_lowerChar (c : ascii) :
  Js.isWhiteSpace (Js.lowerChar c) = Js.isWhiteSpace c.
Proof.
  destruct c as [b0 b1 b2 b3 b4 b5 b6 b7].
  destruct b0, b1, b2, b3, b4, b5, b6, b7; vm_compute; reflexivity.
Qed.

Lemma trimStart_toLowerCase (s : string) :
  Js.trimStart (Js.toLowerCase s) = Js.toLowerCase (Js.trimStart s).
Proof.
  induction s as [|c s IH]; simpl; [reflexivity |].
  rewrite isWhiteSpace_lowerChar.
  destruct (Js.isWhiteSpace c); [exact IH | reflexivity].
Qed.

Lemma trimEnd_toLowerCase (s : string) :
  Js.trimEnd (Js.toLowerCase s) = Js.toLowerCase (Js.trimEnd s).
Proof.
  induction s as [|c s IH]; simpl; [reflexivity |].
  rewrite isWhiteSpace_lowerChar, IH, isEmpty_toLowerCase.
  destruct (Js.isWhiteSpace c && Js.isEmpty (Js.trimEnd s)); reflexivity.
Qed.

(** Lowercasing and trimming commute. *)
Lemma trim_toLowerCase (s : string) :
  Js.trim (Js.toLowerCase s) = Js.toLowerCase (Js.trim s).
Proof.
  unfold Js.trim. now rewrite trimStart_toLowerCase, trimEnd_toLowerCase.
Qed.

Lemma replaceGitSuffix_git (r : string) : Js.replaceGitSuffix (r +:+ ".git") = r.
Proof.
  induction r as [|c r IH]; [reflexivity |].
  change (Js.replaceGitSuffix (String c r +:+ ".git"))
    with (if String.eqb (String c (r +:+ ".git")) ".git" then ""
          else String c (Js.replaceGitSuffix (r +:+ ".git"))).
  destruct (String.eqb_spec (String c (r +:+ ".git")) ".git") as [E|_].
  - apply (f_equal String.length) in E. simpl in E.
    rewrite length_append in E. simpl in E. lia.
  - now rewrite IH.
Qed.

Lemma replaceGitSuffix_other (s : string) :
  ¬ endsInGit s → Js.replaceGitSuffix s = s.
Proof.
  induction s as [|c s IH]; intros Hno; [reflexivity |].
  change (Js.replaceGitSuffix (String c s))
    with (if String.eqb (String c s) ".git" then ""
          else String c (Js.replaceGitSuffix s)).
  destruct (String.eqb_spec (String c s) ".git") as [E|_].
  - exfalso. apply Hno. exists "". now rewrite E.
  - rewrite IH; [reflexivity |].
    intros [r Hr]. apply Hno. exists (String c r). simpl. now rewrite Hr.
Qed.

Lemma startsWith_spec (s p : string) :
  Js.startsWith s p = true ↔ ∃ post, s = p +:+ post.
Proof.
  revert s. induction p as [|a p IH]; intros s; simpl.
  - split; [intros _; now exists s | reflexivity].
  - destruct s as [|b s].
    + split; [discriminate | intros [post H]; discriminate].
    + destruct (Ascii.eqb_spec a b) as [<-|Hne].
      * rewrite IH. split; intros [post H]; exists post; congruence.
      * split; [discriminate | intros [post H]; congruence].
Qed.

(** [includes] finds exactly the substrings. *)
Lemma includes_spec (s sub : string) :
  Js.includes s sub = true ↔ ∃ pre post, s = pre +:+ sub +:+ post.
Proof.
  induction s as [|c s IH].
  - simpl. rewrite orb_false_r, startsWith_spec. split.
    + intros [post H]. now exists "", post.
    + intros [pre [post H]]. destruct pre; [now exists post | discriminate].
  - change (Js.includes (String c s) sub)
      with (Js.startsWith (String c s) sub || Js.includes s sub).
    rewrite orb_true_iff, startsWith_spec, IH. split.
    + intros [[post H]|[pre [post H]]].
      * now exists "", post.
      * exists (String c pre), post. simpl. now rewrite H.
    + intros [pre [post H]]. destruct pre as [|a pre].
      * left. now exists post.
      * right. simpl in H. exists pre, post. congruence.
Qed.

Lemma runUntil_Some (c : ascii) (s run rest : string) :
  Pattern.runUntil c s = Some (run, rest) →
  s = run +:+ String c rest ∧ ¬ occurs c run.
Proof.
  revert run. induction s as [|a s IH]; intros run; simpl; [discriminate |].
  destruct (Ascii.eqb_spec a c) as [->|Hne].
  - intros [= <- <-]. simpl. tauto.
  - destruct (Pattern.runUntil c s) as [[run' rest']|]; [|discriminate].
    intros [= <- <-]. destruct (IH run' eq_refl) as [-> Hrun].
    simpl. split; [reflexivity | tauto].
Qed.

Lemma runUntil_append (c : ascii) (run rest : string) :
  ¬ occurs c run →
  Pattern.runUntil c (run +:+ String c rest) = Some (run, rest).
Proof.
  induction run as [|a run IH]; simpl; intros Hno.
  - now rewrite Ascii.eqb_refl.
  - destruct (Ascii.eqb_spec a c) as [->|Hne]; [tauto |].
    rewrite IH; [reflexivity | tauto].
Qed.

Lemma dropPrefix_Some (p s r : string) :
  Pattern.dropPrefix p s = Some r ↔ s = p +:+ r.
Proof.
  revert s. induction p as [|a p IH]; intros s; simpl.
  - split; congruence.
  - destruct s as [|b s]; [split; discriminate |].
    destruct (Ascii.eqb_spec a b) as [<-|Hne].
    + rewrite IH. split; congruence.
    + split; [discriminate | congruence].
Qed.

End StringFacts.

(** ** The scanner finds the leftmost link *)

Section PatternFacts.

Lemma Link_linkText (pre label owner repo post line : string) :
  Link pre label owner repo post line ↔
  line = pre +:+ linkText label owner repo post
  ∧ label ≠ "" ∧ ¬ occurs "]" label
  ∧ owner ≠ "" ∧ ¬ occurs "/" owner
  ∧ repo ≠ "" ∧ ¬ occurs ")" repo.
Proof. reflexivity. Qed.

Lemma matchAt_linkText (label owner repo post : string) :
  label ≠ "" → ¬ occurs "]" label →
  owner ≠ "" → ¬ occurs "/" owner →
  repo ≠ "" → ¬ occurs ")" repo →
  Pattern.matchAt (linkText label owner repo post) = Some (label, owner, repo).
Proof.
  intros Hl Hl' Ho Ho' Hr Hr'. unfold linkText, Pattern.matchAt.
  rewrite (runUntil_append _ _ _ Hl').
  apply isEmpty_false in Hl. rewrite Hl.
  assert (Pattern.dropPrefix Pattern.linkOpen
            (Pattern.linkOpen +:+ owner +:+ String "/" (repo +:+ String ")" post))
          = Some (owner +:+ String "/" (repo +:+ String ")" post))) as ->
    by now apply dropPrefix_Some.
  rewrite (runUntil_append _ _ _ Ho').
  apply isEmpty_false in Ho. rewrite Ho.
  rewrite (runUntil_append _ _ _ Hr').
  apply isEmpty_false in Hr. now rewrite Hr.
Qed.

Lemma matchAt_Some (s label owner repo : string) :
  Pattern.matchAt s = Some (label, owner, repo) →
  ∃ post, Link "" label owner repo post s.
Proof.
  unfold Pattern.matchAt. destruct s as [|a s1]; [discriminate |].
  destruct a as [[] [] [] [] [] [] [] []]; try discriminate.
  destruct (Pattern.runUntil "]" s1) as [[label' s2]|] eqn:E1; [|discriminate].
  destruct (Js.isEmpty label') eqn:El; [discriminate |].
  destruct (Pattern.dropPrefix Pattern.linkOpen s2) as [s3|] eqn:E2; [|discriminate].
  destruct (Pattern.runUntil "/" s3) as [[owner' s4]|] eqn:E3; [|discriminate].
  destruct (Js.isEmpty owner') eqn:Eo; [discriminate |].
  destruct (Pattern.runUntil ")" s4) as [[repo' post]|] eqn:E4; [|discriminate].
  destruct (Js.isEmpty repo') eqn:Er; [discriminate |].
  intros [= <- <- <-]. exists post.
  apply runUntil_Some in E1 as [-> Hl]. apply dropPrefix_Some in E2 as ->.
  apply runUntil_Some in E3 as [-> Ho]. apply runUntil_Some in E4 as [-> Hr].
  apply Link_linkText. rewrite isEmpty_false in El, Eo, Er.
  repeat split; assumption.
Qed.

Lemma matchAt_Link (s label owner repo post : string) :
  Link "" label owner repo post s →
  Pattern.matchAt s = Some (label, owner, repo).
Proof.
  rewrite Link_linkText. intros (-> & Hl & Hl' & Ho & Ho' & Hr & Hr').
  now apply matchAt_linkText.
Qed.

Lemma Link_cons (a : ascii) (pre label owner repo post line : string) :
  Link (String a pre) label owner repo post (String a line) ↔
  Link pre label owner repo post line.
Proof.
  rewrite !Link_linkText. simpl.
  split; intros (E & H); (split; [congruence | exact H]).
Qed.

Lemma Link_cons_inv (pre label owner repo post : string) (a : ascii) (line : string) :
  Link pre label owner repo post (String a line) →
  pre = "" ∨ ∃ pre', pre = String a pre' ∧ Link pre' label owner repo post line.
Proof.
  intros H. destruct pre as [|b pre']; [now left | right].
  assert (b = a) as ->.
  { apply Link_linkText in H as [E _]. simpl in E. congruence. }
  exists pre'. split; [reflexivity |]. exact (proj1 (Link_cons _ _ _ _ _ _ _) H).
Qed.

Lemma lineMatch_unfold (line : string) :
  Pattern.lineMatch line =
  match Pattern.matchAt line with
  | Some g => Some g
  | None => match line with
            | EmptyString => None
            | String _ rest => Pattern.lineMatch rest
            end
  end.
Proof. destruct line; reflexivity. Qed.

Lemma lineMatch_FirstLink (line label owner repo : string) :
  Pattern.lineMatch line = Some (label, owner, repo) →
  ∃ pre post, FirstLink pre label owner repo post line.
Proof.
  induction line as [|a line IH].
  - simpl. intros H. discriminate.
  - change (Pattern.lineMatch (String a line))
      with (match Pattern.matchAt (String a line) with
            | Some g => Some g
            | None => Pattern.lineMatch line
            end).
    destruct (Pattern.matchAt (String a line)) as [g|] eqn:E.
    + intros [= ->]. apply matchAt_Some in E as [post H].
      exists "", post. split; [exact H |]. intros. simpl. lia.
    + intros H. destruct (IH H) as (pre & post & HL & Hmin).
      exists (String a pre), post.
      split; [exact (proj2 (Link_cons _ _ _ _ _ _ _) HL) |].
      intros pre' l' o' r' post' H'.
      destruct (Link_cons_inv _ _ _ _ _ _ _ H') as [->|(pre'' & -> & H'')].
      * apply matchAt_Link in H'. congruence.
      * simpl. specialize (Hmin _ _ _ _ _ H''). lia.
Qed.

Lemma FirstLink_lineMatch (pre label owner repo post line : string) :
  FirstLink pre label owner repo post line →
  Pattern.lineMatch line = Some (label, owner, repo).
Proof.
  revert line. induction pre as [|a pre IH]; intros line [HL Hmin].
  - apply matchAt_Link in HL. now rewrite lineMatch_unfold, HL.
  - destruct line as [|b line].
    { apply Link_linkText in HL as [E _]. discriminate. }
    assert (a = b) as ->.
    { apply Link_linkText in HL as [E _]. simpl in E. congruence. }
    change (Pattern.lineMatch (String b line))
      with (match Pattern.matchAt (String b line) with
            | Some g => Some g
            | None => Pattern.lineMatch line
            end).
    destruct (Pattern.matchAt (String b line)) as [[[l' o'] r']|] eqn:E.
    + apply matchAt_Some in E as [post' H'].
      specialize (Hmin _ _ _ _ _ H'). simpl in Hmin. lia.
    + apply IH. split; [exact (proj1 (Link_cons _ _ _ _ _ _ _) HL) |].
      intros pre' l' o' r' post' H'.
      assert (Link (String b pre') l' o' r' post' (String b line)) as H''
        by exact (proj2 (Link_cons _ _ _ _ _ _ _) H').
      specialize (Hmin _ _ _ _ _ H''). simpl in Hmin. lia.
Qed.

(** The scanner agrees with the pattern: it answers with the groups of
    the leftmost link, and with nothing when the line has no link. *)
Lemma lineMatch_spec (line label owner repo : string) :
  Pattern.lineMatch line = Some (label, owner, repo) ↔
  ∃ pre post, FirstLink pre label owner repo post line.
Proof.
  split; [apply lineMatch_FirstLink |].
  intros (pre & post & H). now apply (FirstLink_lineMatch pre _ _ _ post).
Qed.

Lemma lineMatch_None (line : string) :
  Pattern.lineMatch line = None ↔ ¬ HasLink line.
Proof.
  split.
  - intros Hn (pre & l & o & r & post & H). revert line Hn H.
    induction pre as [|a pre IH]; intros line Hn H.
    + apply matchAt_Link in H. rewrite lineMatch_unfold, H in Hn. discriminate.
    + destruct line as [|b line].
      { apply Link_linkText in H as [E _]. discriminate. }
      assert (a = b) as ->.
      { apply Link_linkText in H as [E _]. simpl in E. congruence. }
      apply (IH line); [|exact (proj1 (Link_cons _ _ _ _ _ _ _) H)].
      rewrite lineMatch_unfold in Hn.
      destruct (Pattern.matchAt (String b line)); [discriminate | exact Hn].
  - intros Hno. destruct (Pattern.lineMatch line) as [[[l o] r]|] eqn:E; [|reflexivity].
    exfalso. apply Hno. apply lineMatch_FirstLink in E as (pre & post & H & _).
    now exists pre, l, o, r, post.
Qed.

End PatternFacts.

(** ** The extractor *)

Section Extractor.

Lemma replaceGitSuffix_cases (s : string) :
  s = Js.replaceGitSuffix s +:+ ".git"
  ∨ (¬ endsInGit s ∧ Js.replaceGitSuffix s = s).
Proof.
  induction s as [|c s IH].
  - right. split; [|reflexivity]. intros [r E].
    apply (f_equal String.length) in E. rewrite length_append in E.
    simpl in E. lia.
  - change (Js.replaceGitSuffix (String c s))
      with (if String.eqb (String c s) ".git" then ""
            else String c (Js.replaceGitSuffix s)).
    destruct (String.eqb_spec (String c s) ".git") as [E|Hne].
    + left. now rewrite E.
    + destruct IH as [IH|[Hno IH]].
      * left. simpl. now rewrite <- IH.
      * right. rewrite IH. split; [|reflexivity].
        intros [[|a r] E]; [now apply Hne |].
        apply Hno. exists r. simpl in E. congruence.
Qed.

Lemma split_nonempty (c : ascii) (s : string) : Js.split c s ≠ [].
Proof.
  destruct s as [|a s]; simpl; [discriminate |].
  destruct (Ascii.eqb a c); [discriminate |].
  destruct (Js.split c s); discriminate.
Qed.

(** The pieces of [split], joined again, are the string. *)
Lemma join_split (c : ascii) (s : string) : join c (Js.split c s) = s.
Proof.
  induction s as [|a s IH]; [reflexivity |]. simpl.
  pose proof (split_nonempty c s) as Hne.
  destruct (Ascii.eqb_spec a c) as [->|Hac].
  - destruct (Js.split c s) as [|p ps]; [congruence |].
    change (join c ("" :: p :: ps)) with (String c (join c (p :: ps))).
    now rewrite IH.
  - destruct (Js.split c s) as [|p ps]; [congruence |].
    destruct ps as [|q ps]; simpl in *; now rewrite <- IH.
Qed.

(** No piece of [split] holds the separator. *)
Lemma split_no_separator (c : ascii) (s piece : string) :
  piece ∈ Js.split c s → ¬ occurs c piece.
Proof.
  revert piece. induction s as [|a s IH]; intros piece; simpl.
  - intros ->%list_elem_of_singleton. simpl. tauto.
  - destruct (Ascii.eqb_spec a c) as [->|Hac].
    + intros [->|H]%elem_of_cons; [simpl; tauto | now apply IH].
    + destruct (Js.split c s) as [|p ps].
      * intros ->%list_elem_of_singleton. simpl. tauto.
      * intros [->|H]%elem_of_cons.
        -- simpl. intros [E|E]; [congruence |].
           apply (IH p); [apply elem_of_cons; now left | exact E].
        -- apply IH. apply elem_of_cons. now right.
Qed.

Lemma parse_loop (lines : list string) (skills : list Skill.t) :
  fold_left
    (λ skills line,
       match entryOfLine line with
       | Some skill => skills ++ [skill]
       | None => skills
       end)
    lines skills
  = skills ++ omap entryOfLine lines.
Proof.
  revert skills. induction lines as [|line lines IH]; intros skills; simpl.
  - now rewrite app_nil_r.
  - rewrite IH. destruct (entryOfLine line); [|reflexivity].
    now rewrite <- app_assoc.
Qed.

Lemma parseSkillsFromReadme_omap (content : string) :
  parseSkillsFromReadme content = omap entryOfLine (Js.split "010" content).
Proof. unfold parseSkillsFromReadme. now rewrite parse_loop. Qed.

Lemma entryOfLine_Some (line : string) (e : Skill.t) :
  entryOfLine line = Some e →
  ∃ pre label owner repo post,
    FirstLink pre label owner repo post line
    ∧ e = Skill.mk (Js.trim (Js.toLowerCase label)) owner
                   (Js.replaceGitSuffix repo)
                   ("https://github.com/" +:+ owner +:+ "/" +:+ repo)
                   (Js.trim line) None None.
Proof.
  unfold entryOfLine.
  destruct (Pattern.lineMatch line) as [[[label owner] repo]|] eqn:E; [|discriminate].
  intros [= <-]. apply lineMatch_FirstLink in E as (pre & post & H).
  now exists pre, label, owner, repo, post.
Qed.

End Extractor.

(** The assertions of the test suite on the sample document. *)
Example sample_document_entries :
  length (parseSkillsFromReadme sampleReadme) = 3%nat
  ∧ Skill.name <$> parseSkillsFromReadme sampleReadme !! 0%nat = Some "weather-forecast"
  ∧ Skill.owner <$> parseSkillsFromReadme sampleReadme !! 0%nat = Some "weather-dev"
  ∧ Skill.repo <$> parseSkillsFromReadme sampleReadme !! 0%nat = Some "openclaw-weather"
  ∧ Skill.repo <$> parseSkillsFromReadme sampleReadme !! 2%nat = Some "price-tracker".
Proof. repeat split; vm_compute; reflexivity. Qed.

(** C7, as the specification has it, fails on the third line of the
    sample document: the url keeps the [".git"] that the repo loses. *)
Lemma url_keeps_git_suffix :
  parseSkillsFromReadme gitLine = [gitEntry]
  ∧ Skill.repo gitEntry = "price-tracker"
  ∧ Skill.url gitEntry = "https://github.com/crypto-dev/price-tracker.git"
  ∧ canonicalUrl gitEntry = "https://github.com/crypto-dev/price-tracker"
  ∧ Skill.url gitEntry ≠ canonicalUrl gitEntry.
Proof. repeat split; vm_compute; congruence. Qed.

(** C7, amended. The url of an entry is [https://github.com/], the owner,
    ["/"] and the repo segment as the link has it: it is the canonical url
    when the segment does not end in [".git"], and the canonical url
    followed by [".git"] when it does. *)
Theorem url_is_link_target (content : string) (e : Skill.t) :
  e ∈ parseSkillsFromReadme content →
  ∃ line pre label owner repo post,
    line ∈ Js.split "010" content
    ∧ FirstLink pre label owner repo post line
    ∧ Skill.url e = "https://github.com/" +:+ owner +:+ "/" +:+ repo
    ∧ (¬ endsInGit repo → Skill.url e = canonicalUrl e)
    ∧ (endsInGit repo → Skill.url e = canonicalUrl e +:+ ".git").
Proof.
  rewrite parseSkillsFromReadme_omap. intros (line & Hin & He)%list_elem_of_omap.
  apply entryOfLine_Some in He as (pre & label & owner & repo & post & H & ->).
  exists line, pre, label, owner, repo, post.
  unfold canonicalUrl. cbn [Skill.url Skill.owner Skill.repo].
  split; [exact Hin |]. split; [exact H |]. split; [reflexivity |]. split.
  - intros Hno. now rewrite replaceGitSuffix_other.
  - intros [r ->]. rewrite replaceGitSuffix_git.
    now rewrite !append_assoc.
Qed.

Lemma url_is_link_target_witness :
  ∃ line pre label owner repo post,
    line ∈ Js.split "010" sampleReadme
    ∧ FirstLink pre label owner repo post line
    ∧ Skill.url gitEntry = "https://github.com/" +:+ owner +:+ "/" +:+ repo
    ∧ (¬ endsInGit repo → Skill.url gitEntry = canonicalUrl gitEntry)
    ∧ (endsInGit repo → Skill.url gitEntry = canonicalUrl gitEntry +:+ ".git").
Proof.
  apply (url_is_link_target sampleReadme gitEntry).
  vm_compute. do 2 right. left.
Defined.

(** ** The safety score *)

Section Scoring.

Lemma geNum_Some (n k : Z) : geNum (Some n) k = bool_decide (k ≤ n).
Proof.
  simpl. destruct (Z.leb_spec k n); symmetry;
    [apply bool_decide_eq_true | apply bool_decide_eq_false]; lia.
Qed.

Lemma stars_row (stars : option Z) :
  (if geNum stars 100 then 3
   else if geNum stars 20 then 2
   else if geNum stars 5 then 1 else 0) = starsBucket stars.
Proof.
  destruct stars as [n|]; [|reflexivity]. rewrite !geNum_Some. simpl.
  repeat case_bool_decide; repeat case_decide; lia.
Qed.

Lemma forks_row (forks : option Z) :
  (if geNum forks 10 then 2 else if geNum forks 2 then 1 else 0)
  = forksBucket forks.
Proof.
  destruct forks as [n|]; [|reflexivity]. rewrite !geNum_Some. simpl.
  repeat case_bool_decide; repeat case_decide; lia.
Qed.

Lemma recency_row (days : option Q) :
  (if leDays days 30 then 3
   else if leDays days 90 then 2
   else if leDays days 180 then 1 else 0) = recencyBucket days.
Proof. destruct days; reflexivity. Qed.

Lemma description_row (description : option string) :
  (if longDescription description then 1 else 0) = descriptionBucket description.
Proof.
  destruct description as [text|]; [|reflexivity]. simpl.
  destruct (Z.ltb_spec 10 (Z.of_nat (String.length text))); case_decide; lia.
Qed.

Lemma license_row (license : option string) :
  (if isPresent license then 1 else 0) = licenseBucket license.
Proof. destruct license; reflexivity. Qed.

(** Past its first line the function adds up the rows of the table. *)
Lemma score_additive (now : Z) (info : RepoInfo.t) :
  truthyNum (RepoInfo.stargazers_count info) = true →
  calculateSafetyScore now (Obj info) = additiveScore now info.
Proof.
  intros Hs. unfold calculateSafetyScore, additiveScore. rewrite Hs. simpl.
  rewrite <- stars_row, <- forks_row, <- recency_row, <- description_row,
    <- license_row.
  destruct (geNum (RepoInfo.stargazers_count info) 100),
    (geNum (RepoInfo.stargazers_count info) 20),
    (geNum (RepoInfo.stargazers_count info) 5),
    (geNum (RepoInfo.forks_count info) 10),
    (geNum (RepoInfo.forks_count info) 2),
    (leDays (daysSince now (RepoInfo.updated_at info)) 30),
    (leDays (daysSince now (RepoInfo.updated_at info)) 90),
    (leDays (daysSince now (RepoInfo.updated_at info)) 180),
    (longDescription (RepoInfo.description info)),
    (isPresent (RepoInfo.license info)); reflexivity.
Qed.

Lemma score_falsy_stars (now : Z) (info : RepoInfo.t) :
  truthyNum (RepoInfo.stargazers_count info) = false →
  calculateSafetyScore now (Obj info) = 0.
Proof. intros Hs. unfold calculateSafetyScore. now rewrite Hs. Qed.

Lemma starsBucket_range (stars : option Z) : 0 ≤ starsBucket stars ≤ 3.
Proof. destruct stars; simpl; repeat case_decide; lia. Qed.

Lemma forksBucket_range (forks : option Z) : 0 ≤ forksBucket forks ≤ 2.
Proof. destruct forks; simpl; repeat case_decide; lia. Qed.

Lemma recencyBucket_range (days : option Q) : 0 ≤ recencyBucket days ≤ 3.
Proof.
  destruct days as [d|]; simpl; [|lia].
  destruct (Qle_bool d 30), (Qle_bool d 90), (Qle_bool d 180); lia.
Qed.

Lemma descriptionBucket_range (d : option string) : 0 ≤ descriptionBucket d ≤ 1.
Proof. destruct d; simpl; repeat case_decide; lia. Qed.

Lemma licenseBucket_range (l : option string) : 0 ≤ licenseBucket l ≤ 1.
Proof. destruct l; simpl; lia. Qed.

Lemma score_range (now : Z) (repoInfo : Metadata) :
  0 ≤ calculateSafetyScore now repoInfo ≤ 10.
Proof.
  destruct repoInfo as [|info]; [simpl; lia |].
  destruct (truthyNum (RepoInfo.stargazers_count info)) eqn:Hs.
  - rewrite score_additive by exact Hs. unfold additiveScore.
    pose proof (starsBucket_range (RepoInfo.stargazers_count info)).
    pose proof (forksBucket_range (RepoInfo.forks_count info)).
    pose proof (recencyBucket_range (daysSince now (RepoInfo.updated_at info))).
    pose proof (descriptionBucket_range (RepoInfo.description info)).
    pose proof (licenseBucket_range (RepoInfo.license info)).
    lia.
  - rewrite score_falsy_stars by exact Hs. lia.
Qed.

Lemma starsBucket_mono (s1 s2 : Z) :
  s1 ≤ s2 → starsBucket (Some s1) ≤ starsBucket (Some s2).
Proof. intros H. simpl. repeat case_decide; lia. Qed.

Lemma forksBucket_mono (f1 f2 : Z) :
  f1 ≤ f2 → forksBucket (Some f1) ≤ forksBucket (Some f2).
Proof. intros H. simpl. repeat case_decide; lia. Qed.

Lemma Qle_bool_trans (d1 d2 k : Q) :
  (d2 <= d1)%Q → Qle_bool d1 k = true → Qle_bool d2 k = true.
Proof.
  intros H H1. apply Qle_bool_iff. apply Qle_bool_iff in H1.
  now apply Qle_trans with d1.
Qed.

Lemma recencyBucket_mono (d1 d2 : Q) :
  (d2 <= d1)%Q → recencyBucket (Some d1) ≤ recencyBucket (Some d2).
Proof.
  intros H. simpl.
  destruct (Qle_bool d1 30) eqn:E1.
  { rewrite (Qle_bool_trans _ _ _ H E1). lia. }
  destruct (Qle_bool d1 90) eqn:E2.
  { rewrite (Qle_bool_trans _ _ _ H E2). destruct (Qle_bool d2 30); lia. }
  destruct (Qle_bool d1 180) eqn:E3.
  { rewrite (Qle_bool_trans _ _ _ H E3).
    destruct (Qle_bool d2 30), (Qle_bool d2 90); lia. }
  destruct (Qle_bool d2 30), (Qle_bool d2 90), (Qle_bool d2 180); lia.
Qed.

(** A later update is fewer days ago. *)
Lemma daysSince_later (now t1 t2 : Z) (d1 d2 : Q) :
  daysSince now (Some t1) = Some d1 → daysSince now (Some t2) = Some d2 →
  ((d2 <= d1)%Q ↔ t1 ≤ t2).
Proof.
  intros [= <-] [= <-]. unfold Qle, Qdiv, Qmult, Qinv, inject_Z. simpl. lia.
Qed.

End Scoring.

(** The assertions of the test suite on the two sample repositories. *)
Example sample_scores :
  8 ≤ calculateSafetyScore exampleNow (Obj (highQualityRepo exampleNow))
  ∧ calculateSafetyScore exampleNow (Obj (lowQualityRepo exampleNow)) ≤ 3.
Proof. split; vm_compute; discriminate. Qed.

(** C3, as the specification has it, fails on a repository without stars:
    the rows of the table add up to 7, the function answers 0. *)
Lemma zero_stars_not_additive :
  calculateSafetyScore exampleNow (Obj (unstarredRepo exampleNow)) = 0
  ∧ additiveScore exampleNow (unstarredRepo exampleNow) = 7
  ∧ calculateSafetyScore exampleNow (Obj (unstarredRepo exampleNow))
    ≠ additiveScore exampleNow (unstarredRepo exampleNow).
Proof. repeat split; vm_compute; congruence. Qed.

(** C3, amended. The score is an integer between 0 and 10.  When the star
    count is present and not zero it is the sum of the rows of the table;
    when the star count is absent or zero it is 0.  A repository with 150
    stars, 25 forks, updated ten days ago, with a description longer than
    ten characters and a licence scores at least 8. *)
Theorem score_range_and_rows (now : Z) (info : RepoInfo.t) :
  (∀ repoInfo, 0 ≤ calculateSafetyScore now repoInfo ≤ 10)
  ∧ (truthyNum (RepoInfo.stargazers_count info) = true →
     calculateSafetyScore now (Obj info) = additiveScore now info)
  ∧ (truthyNum (RepoInfo.stargazers_count info) = false →
     calculateSafetyScore now (Obj info) = 0)
  ∧ (RepoInfo.stargazers_count info = Some 150 →
     RepoInfo.forks_count info = Some 25 →
     RepoInfo.updated_at info = Some (now - 10 * msPerDay) →
     (∃ text, RepoInfo.description info = Some text
              ∧ (10 < String.length text)%nat) →
     (∃ licence, RepoInfo.license info = Some licence) →
     8 ≤ calculateSafetyScore now (Obj info)).
Proof.
  split; [apply score_range |].
  split; [apply score_additive |].
  split; [apply score_falsy_stars |].
  intros Hs Hf Hu (text & Hd & Hlen) (licence & Hl).
  rewrite score_additive by now rewrite Hs.
  unfold additiveScore. rewrite Hs, Hf, Hu, Hd, Hl.
  assert (recencyBucket (daysSince now (Some (now - 10 * msPerDay))) = 3) as ->.
  { simpl. replace (now - (now - 10 * msPerDay)) with (10 * msPerDay) by lia.
    reflexivity. }
  simpl. case_decide; lia.
Qed.

Lemma score_range_and_rows_witness :
  0 ≤ calculateSafetyScore exampleNow (Obj (unstarredRepo exampleNow)) ≤ 10
  ∧ calculateSafetyScore exampleNow (Obj (highQualityRepo exampleNow))
    = additiveScore exampleNow (highQualityRepo exampleNow)
  ∧ 8 ≤ calculateSafetyScore exampleNow (Obj (highQualityRepo exampleNow)).
Proof.
  destruct (score_range_and_rows exampleNow (highQualityRepo exampleNow))
    as (Hrange & Hrows & _ & Hhigh).
  split; [apply Hrange |]. split; [apply Hrows; reflexivity |].
  apply Hhigh; try reflexivity.
  - eexists. split; [reflexivity | vm_compute; lia].
  - eexists. reflexivity.
Defined.

(** C9. Between two metadata objects that differ only in the star count,
    only in the fork count, or only in the time of the last update, the
    one with more stars, more forks, or fewer days since the update never
    scores lower. *)
Theorem score_monotone (now : Z) (weaker stronger : RepoInfo.t) :
  StrongerSignal now weaker stronger →
  calculateSafetyScore now (Obj weaker) ≤ calculateSafetyScore now (Obj stronger).
Proof.
  intros [s1 s2 f u d l H0 H | s f1 f2 u d l H | s f t1 t2 d1 d2 d l E1 E2 H].
  - destruct (decide (s1 = 0)) as [->|Hs1].
    + rewrite (score_falsy_stars now (RepoInfo.mk (Some 0) f u d l)) by reflexivity.
      apply score_range.
    + rewrite !score_additive
        by (simpl; apply negb_true_iff, Z.eqb_neq; lia).
      unfold additiveScore. cbn [RepoInfo.stargazers_count RepoInfo.forks_count
        RepoInfo.updated_at RepoInfo.description RepoInfo.license].
      pose proof (starsBucket_mono s1 s2 H). lia.
  - destruct (truthyNum s) eqn:Hs.
    + rewrite !score_additive by exact Hs.
      unfold additiveScore. cbn [RepoInfo.stargazers_count RepoInfo.forks_count
        RepoInfo.updated_at RepoInfo.description RepoInfo.license].
      pose proof (forksBucket_mono f1 f2 H). lia.
    + rewrite !score_falsy_stars by exact Hs. lia.
  - destruct (truthyNum s) eqn:Hs.
    + rewrite !score_additive by exact Hs.
      unfold additiveScore. cbn [RepoInfo.stargazers_count RepoInfo.forks_count
        RepoInfo.updated_at RepoInfo.description RepoInfo.license].
      rewrite E1, E2. pose proof (recencyBucket_mono d1 d2 H). lia.
    + rewrite !score_falsy_stars by exact Hs. lia.
Qed.

Lemma score_monotone_witness :
  calculateSafetyScore exampleNow
    (Obj (RepoInfo.mk (Some 5) (Some 1) (Some (exampleNow - 200 * msPerDay))
            (Some "Test") None))
  ≤ calculateSafetyScore exampleNow
      (Obj (RepoInfo.mk (Some 150) (Some 1) (Some (exampleNow - 200 * msPerDay))
              (Some "Test") None))
  ∧ calculateSafetyScore exampleNow
      (Obj (RepoInfo.mk (Some 5) (Some 1) (Some (exampleNow - 200 * msPerDay))
              (Some "Test") None))
    ≤ calculateSafetyScore exampleNow
        (Obj (RepoInfo.mk (Some 5) (Some 12) (Some (exampleNow - 200 * msPerDay))
                (Some "Test") None))
  ∧ calculateSafetyScore exampleNow
      (Obj (RepoInfo.mk (Some 5) (Some 1) (Some (exampleNow - 200 * msPerDay))
              (Some "Test") None))
    ≤ calculateSafetyScore exampleNow
        (Obj (RepoInfo.mk (Some 5) (Some 1) (Some (exampleNow - 10 * msPerDay))
                (Some "Test") None)).
Proof.
  split; [|split]; apply (score_monotone exampleNow).
  - apply more_stars; lia.
  - apply more_forks; lia.
  - eapply more_recent; [reflexivity | reflexivity |].
    vm_compute. discriminate.
Defined.

(** C10. A metadata object whose star count is present and equal to 0
    scores 0, whatever its forks, last update, description and licence. *)
Theorem zero_stars_score_zero (now : Z) (info : RepoInfo.t) :
  RepoInfo.stargazers_count info = Some 0 →
  calculateSafetyScore now (Obj info) = 0.
Proof. intros Hs. apply score_falsy_stars. now rewrite Hs. Qed.

Lemma zero_stars_score_zero_witness :
  calculateSafetyScore exampleNow (Obj (unstarredRepo exampleNow)) = 0.
Proof. apply zero_stars_score_zero. reflexivity. Defined.

(** ** The object store *)

Section Store.

Lemma objectsAt_Forall2 (h : list Skill.t) (ls : list loc) (os : list Skill.t) :
  objectsAt h ls = Some os ↔ Forall2 (λ l o, h !! l = Some o) ls os.
Proof. apply mapM_Some. Qed.

Lemma objectsAt_fresh (h os : list Skill.t) :
  objectsAt (h ++ os) (seq (length h) (length os)) = Some os.
Proof.
  apply objectsAt_Forall2. revert h.
  induction os as [|o os IH]; intros h; simpl; [constructor |].
  constructor.
  - rewrite lookup_app_r by lia. now rewrite Nat.sub_diag.
  - specialize (IH (h ++ [o])). rewrite <- app_assoc, length_app in IH.
    simpl in IH. now rewrite Nat.add_1_r in IH.
Qed.

Lemma objectsAt_lookup (h : list Skill.t) (ls : list loc) (os : list Skill.t)
    (i : nat) (o : Skill.t) :
  objectsAt h ls = Some os → os !! i = Some o →
  ∃ l, ls !! i = Some l ∧ h !! l = Some o.
Proof.
  rewrite objectsAt_Forall2. intros H Ho.
  destruct (Forall2_lookup_r _ _ _ _ _ H Ho) as (l & Hl & Hlo). eauto.
Qed.

(** [find] answers with the first reference whose object passes. *)
Lemma findSkill_first (p : Skill.t → bool) (h : list Skill.t) (ls : list loc)
    (os : list Skill.t) (i : nat) (o : Skill.t) :
  objectsAt h ls = Some os →
  os !! i = Some o → p o = true →
  (∀ j o', (j < i)%nat → os !! j = Some o' → p o' = false) →
  ∃ l, ls !! i = Some l ∧ h !! l = Some o ∧ findSkill p h ls = Some l.
Proof.
  rewrite objectsAt_Forall2. intros H. revert i.
  induction H as [|l o0 ls os Hl H IH]; intros i Ho Hp Hbefore.
  - discriminate.
  - simpl. rewrite Hl. destruct i as [|i]; simpl in Ho.
    + injection Ho as ->. rewrite Hp. now exists l.
    + rewrite (Hbefore 0%nat o0) by (simpl; (lia || reflexivity)).
      destruct (IH i Ho Hp) as (l' & Hl' & Hlo & Hfind).
      { intros j o' Hj Ho'. apply (Hbefore (S j) o'); [lia | exact Ho']. }
      now exists l'.
Qed.

Lemma findSkill_none (p : Skill.t → bool) (h : list Skill.t) (ls : list loc)
    (os : list Skill.t) :
  objectsAt h ls = Some os →
  (∀ o, o ∈ os → p o = false) →
  findSkill p h ls = None.
Proof.
  rewrite objectsAt_Forall2. intros H.
  induction H as [|l o ls os Hl H IH]; intros Hall; [reflexivity |].
  simpl. rewrite Hl, (Hall o) by (apply elem_of_cons; now left).
  apply IH. intros o' Ho'. apply Hall. apply elem_of_cons. now right.
Qed.

Lemma findSkill_Some (p : Skill.t → bool) (h : list Skill.t) (ls : list loc) (l : loc) :
  findSkill p h ls = Some l → ∃ o, h !! l = Some o ∧ p o = true.
Proof.
  induction ls as [|l0 ls IH]; simpl; [discriminate |].
  destruct (h !! l0) as [o|] eqn:E; [|exact IH].
  destruct (p o) eqn:Hp; [|exact IH].
  intros [= <-]. now exists o.
Qed.

Lemma matchesName_Matches (query : string) (s : Skill.t) :
  matchesName query s = true ↔ Matches query s.
Proof.
  unfold matchesName, Matches.
  rewrite !orb_true_iff, !String.eqb_eq, includes_spec. tauto.
Qed.

Lemma matchesName_not_Matches (query : string) (s : Skill.t) :
  matchesName query s = false ↔ ¬ Matches query s.
Proof.
  rewrite <- matchesName_Matches. destruct (matchesName query s); split; congruence.
Qed.

End Store.

(** ** The methods, step by step *)

Section MethodFacts.

Set Default Proof Using "Type".

Variable decodeReadme : string → Outcome string.
Variable this : Validator.t.

Local Abbreviation fetchList := (fetchApprovedSkills decodeReadme this).
Local Abbreviation listUrl := (Validator.awesomeSkillsUrl this).

Lemma loadCache_run (w : World) :
  loadCache w =
  (Return match cacheFile w with
          | Stored c =>
              Some (Cache.mk (Cache.timestamp c)
                      (seq (length (heap w)) (length (Cache.skills c))))
          | NoFile | Corrupt => None
          end,
   afterLoad w).
Proof. unfold loadCache, afterLoad. destruct (cacheFile w); reflexivity. Qed.

Lemma httpRequest_state (url : string) (w : World) :
  (httpRequest url w).2 = afterRequest url (latency (network w url)) w.
Proof.
  unfold httpRequest. destruct (outcome (network w url)); [reflexivity |].
  destruct ((200 <=? statusCode) && (statusCode <? 300)); reflexivity.
Qed.

Lemma httpRequest_ok (url : string) (w : World) (statusCode : Z) (data : string) :
  outcome (network w url) = Response statusCode data →
  200 ≤ statusCode < 300 →
  httpRequest url w = (Return data, afterRequest url (latency (network w url)) w).
Proof.
  intros Ho Hs. unfold httpRequest. rewrite Ho.
  destruct (Z.leb_spec 200 statusCode); [|lia].
  destruct (Z.ltb_spec statusCode 300); [reflexivity | lia].
Qed.

Lemma httpRequest_rejects (url : string) (w : World) :
  match outcome (network w url) with
  | ConnectionError _ => True
  | Response statusCode _ => ¬ (200 ≤ statusCode < 300)
  end →
  ∃ message,
    httpRequest url w
    = (Throw message, afterRequest url (latency (network w url)) w).
Proof.
  unfold httpRequest. destruct (outcome (network w url)) as [m|st data].
  - intros _. now exists m.
  - intros Hs. destruct (Z.leb_spec 200 st); destruct (Z.ltb_spec st 300);
      simpl; try lia; eexists; reflexivity.
Qed.

Lemma network_afterLoad (w : World) : network (afterLoad w) = network w.
Proof. unfold afterLoad. destruct (cacheFile w) eqn:E; simpl; congruence. Qed.

Lemma cacheFile_afterLoad (w : World) : cacheFile (afterLoad w) = cacheFile w.
Proof. unfold afterLoad. destruct (cacheFile w) eqn:E; simpl; congruence. Qed.

Lemma clock_afterLoad (w : World) : clock (afterLoad w) = clock w.
Proof. unfold afterLoad. destruct (cacheFile w) eqn:E; simpl; congruence. Qed.

Lemma requests_afterLoad (w : World) : requests (afterLoad w) = requests w.
Proof. unfold afterLoad. destruct (cacheFile w) eqn:E; simpl; congruence. Qed.

(** A fresh cache answers the call. *)
Lemma fetch_fresh (w : World) (c : Cache.t Skill.t) :
  cacheFile w = Stored c →
  isFresh this w = true →
  fetchList w
  = (Return (seq (length (heap w)) (length (Cache.skills c))),
     withHeap (heap w ++ Cache.skills c) w).
Proof.
  intros Hc Hf. unfold isFresh in Hf. rewrite Hc in Hf.
  unfold fetchApprovedSkills, tryCatch, bind. rewrite loadCache_run.
  unfold afterLoad. rewrite Hc. unfold Date_now. simpl.
  rewrite Hf. reflexivity.
Qed.

(** Without a fresh cache the [try] block goes on to the remote fetch. *)
Lemma fetch_stale (w : World) :
  isFresh this w = false →
  fetchList w
  = match fetchRemote decodeReadme this (afterLoad w) with
    | (Return ls, w') => (Return ls, w')
    | (Throw _, w') =>
        match cacheFile w' with
        | Stored c =>
            (Return (seq (length (heap w')) (length (Cache.skills c))),
             withHeap (heap w' ++ Cache.skills c) w')
        | NoFile | Corrupt =>
            (Throw "Cannot validate skills - no approved list available", w')
        end
    end.
Proof.
  intros Hf. unfold isFresh in Hf.
  unfold fetchApprovedSkills, tryCatch. unfold bind at 1.
  rewrite loadCache_run.
  assert (∀ w',
    (let (o, w1) := fetchRemote decodeReadme this w' in
     match o with
     | Return a => (Return a, w1)
     | Throw e =>
         (let* cache := loadCache in
          match cache with
          | Some c => ret (Cache.skills c)
          | None => throw "Cannot validate skills - no approved list available"
          end) w1
     end)
    = match fetchRemote decodeReadme this w' with
      | (Return ls, w1) => (Return ls, w1)
      | (Throw _, w1) =>
          match cacheFile w1 with
          | Stored c =>
              (Return (seq (length (heap w1)) (length (Cache.skills c))),
               withHeap (heap w1 ++ Cache.skills c) w1)
          | NoFile | Corrupt =>
              (Throw "Cannot validate skills - no approved list available", w1)
          end
      end) as Hhandler.
  { intros w'. destruct (fetchRemote decodeReadme this w') as [[ls|e] w1];
      [reflexivity |].
    unfold bind. rewrite loadCache_run. unfold afterLoad.
    destruct (cacheFile w1); reflexivity. }
  destruct (cacheFile w) as [| |c] eqn:Hc; try apply Hhandler.
  unfold bind, Date_now. rewrite clock_afterLoad. simpl. rewrite Hf.
  apply Hhandler.
Qed.

Lemma fetchRemote_fails (w : World) :
  listFetchFails decodeReadme this w →
  ∃ message,
    fetchRemote decodeReadme this w
    = (Throw message, afterRequest listUrl (latency (network w listUrl)) w).
Proof.
  unfold listFetchFails, fetchRemote. intros Hfail. unfold bind at 1.
  destruct (outcome (network w listUrl)) as [m|st data] eqn:Ho.
  - destruct (httpRequest_rejects listUrl w) as [msg ->];
      [now rewrite Ho | now exists msg].
  - destruct (decide (200 ≤ st < 300)) as [Hs|Hs].
    + rewrite (httpRequest_ok _ _ _ _ Ho Hs).
      destruct Hfail as [Hfail|[msg Hd]]; [tauto |].
      unfold bind, lift. rewrite Hd. now exists msg.
    + destruct (httpRequest_rejects listUrl w) as [msg ->];
        [now rewrite Ho | now exists msg].
Qed.

Lemma fetchRemote_ok (w : World) (statusCode : Z) (data content : string) :
  outcome (network w listUrl) = Response statusCode data →
  200 ≤ statusCode < 300 →
  decodeReadme data = Return content →
  let w1 := afterRequest listUrl (latency (network w listUrl)) w in
  let parsed := parseSkillsFromReadme content in
  let w2 := withHeap (heap w1 ++ parsed) w1 in
  fetchRemote decodeReadme this w
  = (Return (seq (length (heap w1)) (length parsed)),
     afterCacheWrite (Cache.mk (clock w1) parsed) w2).
Proof.
  intros Ho Hs Hd. simpl. unfold fetchRemote. unfold bind at 1.
  rewrite (httpRequest_ok _ _ _ _ Ho Hs).
  unfold bind, lift. rewrite Hd. unfold allocAll, saveCache, ret. simpl.
  rewrite objectsAt_fresh. reflexivity.
Qed.

(** When the remote fetch fails the cache, whatever its age, answers, and
    without a cache the call throws. *)
Lemma fetch_fallback (w : World) :
  listFetchFails decodeReadme this w →
  ∃ w',
    fetchList w
    = match cacheFile w with
      | Stored c =>
          (Return (seq (length (heap w') - length (Cache.skills c))
                       (length (Cache.skills c))), w')
      | NoFile | Corrupt =>
          (Throw "Cannot validate skills - no approved list available", w')
      end
    ∧ match cacheFile w with
      | Stored c => ∃ h, heap w' = h ++ Cache.skills c
      | NoFile | Corrupt => True
      end.
Proof.
  intros Hfail. destruct (isFresh this w) eqn:Hf.
  - unfold isFresh in Hf. destruct (cacheFile w) as [| |c] eqn:Hc; try discriminate.
    rewrite (fetch_fresh w c Hc) by (unfold isFresh; now rewrite Hc).
    exists (withHeap (heap w ++ Cache.skills c) w). split; [|simpl; eauto].
    simpl. rewrite length_app, Nat.add_sub. reflexivity.
  - rewrite (fetch_stale w Hf).
    destruct (fetchRemote_fails (afterLoad w)) as [msg ->].
    { unfold listFetchFails in *. now rewrite network_afterLoad. }
    simpl. rewrite cacheFile_afterLoad.
    destruct (cacheFile w) as [| |c] eqn:Hc; try (eexists; split; [reflexivity | exact I]).
    match goal with
    | |- ∃ w', (_, ?w1) = _ ∧ _ => exists w1
    end.
    split; [|simpl; eauto].
    simpl. rewrite length_app, Nat.add_sub. reflexivity.
Qed.

Lemma fetchRemote_requests (w : World) (r : Outcome (list loc)) (w' : World) :
  fetchRemote decodeReadme this w = (r, w') →
  requests w' = requests w ++ [listUrl].
Proof.
  unfold fetchRemote. unfold bind at 1.
  pose proof (httpRequest_state listUrl w) as Hs.
  destruct (httpRequest listUrl w) as [[data|e] w1]; simpl in Hs; subst w1;
    [|now intros [= <- <-]].
  unfold bind, lift. destruct (decodeReadme data) as [content|e];
    [|now intros [= <- <-]].
  unfold allocAll, saveCache, ret. simpl.
  destruct (objectsAt _ _); [|now intros [= <- <-]].
  unfold afterCacheWrite. simpl.
  destruct (cacheWrite w); now intros [= <- <-].
Qed.

Lemma fetch_requests_stale (w : World) :
  isFresh this w = false →
  requests (fetchList w).2 = requests w ++ [listUrl].
Proof.
  intros Hf. rewrite (fetch_stale w Hf).
  pose proof (fetchRemote_requests (afterLoad w)) as Hr.
  rewrite requests_afterLoad in Hr.
  destruct (fetchRemote decodeReadme this (afterLoad w)) as [[ls|e] w1];
    specialize (Hr _ _ eq_refl); [exact Hr |].
  destruct (cacheFile w1); exact Hr.
Qed.

Lemma saveCache_writes (w : World) (ls : list loc) (objects : list Skill.t) :
  cacheWritable w = true →
  objectsAt (heap w) ls = Some objects →
  saveCache ls w
  = (Return tt, withCacheFile (Stored (Cache.mk (clock w) objects)) w).
Proof.
  intros Hw Ho. unfold saveCache, afterCacheWrite. rewrite Ho.
  unfold cacheWritable in Hw. destruct (cacheWrite w); (reflexivity || discriminate).
Qed.

End MethodFacts.

(** C2. When the remote fetch of the list fails (no connection, a status
    outside 2xx, a body that does not decode), [fetchApprovedSkills]
    returns the entries of the cache file if there is one, fresh or
    expired, and throws the no-approved-list error if there is none. *)
Theorem stale_cache_fallback (decodeReadme : string → Outcome string)
    (this : Validator.t) (w : World) :
  listFetchFails decodeReadme this w →
  match cacheFile w with
  | Stored c =>
      ∃ ls w',
        fetchApprovedSkills decodeReadme this w = (Return ls, w')
        ∧ objectsAt (heap w') ls = Some (Cache.skills c)
  | NoFile | Corrupt =>
      ∃ w',
        fetchApprovedSkills decodeReadme this w
        = (Throw "Cannot validate skills - no approved list available", w')
  end.
Proof.
  intros Hfail.
  destruct (fetch_fallback decodeReadme this w Hfail) as (w' & Hrun & Hheap).
  destruct (cacheFile w) as [| |c]; try (now exists w').
  destruct Hheap as [h Hh]. eexists _, w'. split; [exact Hrun |].
  rewrite Hh, length_app, Nat.add_sub. apply objectsAt_fresh.
Qed.

Lemma stale_cache_fallback_witness :
  (∃ ls w',
     fetchApprovedSkills demoDecodeReadme constructor staleOfflineWorld
     = (Return ls, w')
     ∧ objectsAt (heap w') ls = Some [alphaEntry; weatherEntry])
  ∧ ∃ w',
      fetchApprovedSkills demoDecodeReadme constructor offlineWorld
      = (Throw "Cannot validate skills - no approved list available", w').
Proof.
  split.
  - apply (stale_cache_fallback demoDecodeReadme constructor staleOfflineWorld).
    exact I.
  - apply (stale_cache_fallback demoDecodeReadme constructor offlineWorld).
    exact I.
Defined.

(** C5. With a cache written at time [T], a call at a time less than one
    hour after [T] returns the cached entries and sends no request; a call
    one hour after [T] or later sends the request for the list. *)
Theorem cache_freshness (decodeReadme : string → Outcome string)
    (w : World) (T : Z) (skills : list Skill.t) :
  cacheFile w = Stored (Cache.mk T skills) →
  (clock w - T < 60 * 60 * 1000 →
   ∃ ls w',
     fetchApprovedSkills decodeReadme constructor w = (Return ls, w')
     ∧ objectsAt (heap w') ls = Some skills
     ∧ requests w' = requests w)
  ∧ (60 * 60 * 1000 ≤ clock w - T →
     ∃ r w',
       fetchApprovedSkills decodeReadme constructor w = (r, w')
       ∧ requests w' = requests w ++ [Validator.awesomeSkillsUrl constructor])
  ∧ (∀ w0 ls,
       clock w0 = T → cacheWritable w0 = true →
       objectsAt (heap w0) ls = Some skills →
       cacheFile (saveCache ls w0).2 = Stored (Cache.mk T skills)).
Proof.
  intros Hc. split; [|split].
  - intros Hlt.
    assert (isFresh constructor w = true) as Hf.
    { unfold isFresh. rewrite Hc. simpl. apply Z.ltb_lt. exact Hlt. }
    rewrite (fetch_fresh decodeReadme constructor w _ Hc Hf).
    eexists _, _. split; [reflexivity |]. simpl.
    split; [apply objectsAt_fresh | reflexivity].
  - intros Hge.
    assert (isFresh constructor w = false) as Hf.
    { unfold isFresh. rewrite Hc. simpl. apply Z.ltb_ge. exact Hge. }
    pose proof (fetch_requests_stale decodeReadme constructor w Hf) as Hr.
    destruct (fetchApprovedSkills decodeReadme constructor w) as [r w'].
    now exists r, w'.
  - intros w0 ls <- Hw Ho. now rewrite (saveCache_writes w0 ls skills Hw Ho).
Qed.

Lemma cache_freshness_witness :
  (∃ ls w',
     fetchApprovedSkills demoDecodeReadme constructor cachedWorld = (Return ls, w')
     ∧ objectsAt (heap w') ls = Some [alphaEntry; weatherEntry]
     ∧ requests w' = requests cachedWorld)
  ∧ ∃ r w',
      fetchApprovedSkills demoDecodeReadme constructor staleOfflineWorld = (r, w')
      ∧ requests w'
        = requests staleOfflineWorld ++ [Validator.awesomeSkillsUrl constructor].
Proof.
  split.
  - apply (cache_freshness demoDecodeReadme cachedWorld
             (exampleNow - 600000) [alphaEntry; weatherEntry] eq_refl).
    vm_compute. reflexivity.
  - apply (cache_freshness demoDecodeReadme staleOfflineWorld
             (exampleNow - 7200000) [alphaEntry; weatherEntry] eq_refl).
    vm_compute. discriminate.
Defined.

(** ** [validateSkill] after the list is there *)

Section ValidateFacts.

Set Default Proof Using "Type".

Variable decodeReadme : string → Outcome string.
Variable parseRepoInfo : string → Outcome Metadata.
Variable this : Validator.t.

Local Abbreviation fetchList := (fetchApprovedSkills decodeReadme this).
Local Abbreviation validate := (validateSkill decodeReadme parseRepoInfo this).
Local Abbreviation repoUrl owner repo :=
  ("https://api.github.com/repos/" +:+ owner +:+ "/" +:+ repo).

(** The metadata fetch always returns, and returns [{}] when it failed. *)
Lemma fetchRepoInfo_run (owner repo : string) (w : World) :
  ∃ m,
    fetchRepoInfo parseRepoInfo owner repo w
    = (Return m,
       afterRequest (repoUrl owner repo)
         (latency (network w (repoUrl owner repo))) w)
    ∧ (repoFetchFails parseRepoInfo owner repo w → m = Obj RepoInfo.empty).
Proof.
  unfold fetchRepoInfo, repoFetchFails, tryCatch, bind.
  pose proof (httpRequest_state (repoUrl owner repo) w) as Hs.
  destruct (outcome (network w (repoUrl owner repo))) as [msg|st data] eqn:Ho.
  - destruct (httpRequest_rejects (repoUrl owner repo) w) as [e ->];
      [now rewrite Ho |].
    now exists (Obj RepoInfo.empty).
  - destruct (decide (200 ≤ st < 300)) as [Hst|Hst].
    + rewrite (httpRequest_ok _ _ _ _ Ho Hst). unfold lift.
      destruct (parseRepoInfo data) as [m|e] eqn:Hp.
      * exists m. split; [reflexivity |].
        intros [Hno|[e He]]; [exact (False_ind _ (Hno Hst)) | discriminate He].
      * now exists (Obj RepoInfo.empty).
    + destruct (httpRequest_rejects (repoUrl owner repo) w) as [e ->];
        [now rewrite Ho |].
      now exists (Obj RepoInfo.empty).
Qed.

Lemma logAttempt_run (skillName result reason : string) (confirmed : bool) (w : World) :
  ∃ log,
    logAttempt skillName result reason confirmed w = (Return tt, withAuditLog log w).
Proof.
  unfold logAttempt. destruct (auditWritable w); [eexists; reflexivity |].
  exists (auditLog w). now destruct w.
Qed.

Lemma validate_rejected (skillName : string) (w : World) (ls : list loc) (w1 : World) :
  fetchList w = (Return ls, w1) →
  findSkill (matchesName (Js.trim (Js.toLowerCase skillName))) (heap w1) ls = None →
  ∃ log,
    validate skillName w
    = (Return (Rejected "Not found in awesome-openclaw-skills repository"),
       withAuditLog log w1).
Proof.
  intros Hfetch Hfind. unfold validateSkill, tryCatch. unfold bind at 1.
  rewrite Hfetch. unfold bind at 1, find. rewrite Hfind. unfold bind.
  destruct (logAttempt_run skillName "REJECTED"
              "Not found in awesome-openclaw-skills" false w1) as [log ->].
  now exists log.
Qed.

Lemma validate_approved (skillName : string) (w : World) (ls : list loc) (w1 : World)
    (l : loc) (s : Skill.t) :
  fetchList w = (Return ls, w1) →
  findSkill (matchesName (Js.trim (Js.toLowerCase skillName))) (heap w1) ls = Some l →
  heap w1 !! l = Some s →
  ∃ m w2,
    fetchRepoInfo parseRepoInfo (Skill.owner s) (Skill.repo s) w1 = (Return m, w2)
    ∧ heap w2 = heap w1 ∧ cacheFile w2 = cacheFile w1
    ∧ validate skillName w
      = (Return (Approved l (calculateSafetyScore (clock w2) m)),
         withHeap
           (<[l := setSafetyScore (calculateSafetyScore (clock w2) m)
                     (setRepoInfo m s)]> (heap w1)) w2).
Proof.
  intros Hfetch Hfind Hl. unfold validateSkill, tryCatch. unfold bind at 1.
  rewrite Hfetch. unfold bind at 1, find. rewrite Hfind.
  unfold bind at 1, readObj. rewrite Hl. unfold bind at 1.
  destruct (fetchRepoInfo_run (Skill.owner s) (Skill.repo s) w1) as (m & Hm & _).
  rewrite Hm. eexists m, _. split; [reflexivity |].
  split; [reflexivity |]. split; [reflexivity |].
  unfold bind, updateObj, Date_now, ret. simpl. rewrite Hl. simpl.
  rewrite list_lookup_insert_eq by (eapply lookup_lt_Some; exact Hl).
  rewrite list_insert_insert_eq. reflexivity.
Qed.

Lemma fetchRemote_store (w : World) (r : Outcome (list loc)) (w' : World) :
  fetchRemote decodeReadme this w = (r, w') →
  ∃ more,
    heap w' = heap w ++ more
    ∧ ∀ ls, r = Return ls → objectsAt (heap w') ls = Some more.
Proof.
  unfold fetchRemote. unfold bind at 1.
  pose proof (httpRequest_state (Validator.awesomeSkillsUrl this) w) as Hs.
  destruct (httpRequest (Validator.awesomeSkillsUrl this) w) as [[data|e] w1];
    simpl in Hs; subst w1.
  2: { intros [= <- <-]. exists []. simpl. now rewrite app_nil_r. }
  unfold bind, lift. destruct (decodeReadme data) as [content|e].
  2: { intros [= <- <-]. exists []. simpl. now rewrite app_nil_r. }
  unfold allocAll, saveCache, ret. simpl. rewrite objectsAt_fresh.
  unfold afterCacheWrite. simpl.
  destruct (cacheWrite w); intros [= <- <-];
    exists (parseSkillsFromReadme content); simpl;
    (split; [reflexivity |]); intros ls [= <-]; apply objectsAt_fresh.
Qed.

(** [fetchApprovedSkills] only adds objects to the store, and the
    references it returns point into the store. *)
Lemma fetch_store (w : World) (r : Outcome (list loc)) (w' : World) :
  fetchList w = (r, w') →
  (∃ more, heap w' = heap w ++ more)
  ∧ ∀ ls, r = Return ls → ∃ os, objectsAt (heap w') ls = Some os.
Proof.
  destruct (isFresh this w) eqn:Hf.
  - unfold isFresh in Hf. destruct (cacheFile w) as [| |c] eqn:Hc; try discriminate.
    rewrite (fetch_fresh decodeReadme this w c Hc) by (unfold isFresh; now rewrite Hc).
    intros [= <- <-]. simpl. split; [eauto |].
    intros ls [= <-]. eexists. apply objectsAt_fresh.
  - rewrite (fetch_stale decodeReadme this w Hf).
    pose proof (fetchRemote_store (afterLoad w)) as Hrem.
    assert (∃ loaded, heap (afterLoad w) = heap w ++ loaded) as [loaded Hload].
    { unfold afterLoad. destruct (cacheFile w); simpl; eauto.
      all: exists []; now rewrite app_nil_r. }
    destruct (fetchRemote decodeReadme this (afterLoad w)) as [[ls0|e] w1].
    + destruct (Hrem _ _ eq_refl) as (more & Hh & Hobj).
      intros [= <- <-]. split.
      * exists (loaded ++ more). now rewrite Hh, Hload, app_assoc.
      * intros ls [= <-]. eauto.
    + destruct (Hrem _ _ eq_refl) as (more & Hh & _).
      destruct (cacheFile w1) as [| |c]; intros [= <- <-]; simpl.
      * split; [|discriminate].
        exists (loaded ++ more). now rewrite Hh, Hload, app_assoc.
      * split; [|discriminate].
        exists (loaded ++ more). now rewrite Hh, Hload, app_assoc.
      * split.
        -- exists (loaded ++ more ++ Cache.skills c).
           now rewrite Hh, Hload, !app_assoc.
        -- intros ls [= <-]. eexists. apply objectsAt_fresh.
Qed.

(** What a call of [fetchApprovedSkills] leaves in the cache file: the
    file as it was, the entries of a fetched document as they were
    parsed, or what is left of a write that failed. *)
Lemma fetchRemote_cacheFile (w : World) (r : Outcome (list loc)) (w' : World) :
  fetchRemote decodeReadme this w = (r, w') →
  (∃ message, r = Throw message ∧ cacheFile w' = cacheFile w)
  ∨ ∃ ls t content,
      r = Return ls
      ∧ cacheFile w'
        = match cacheWrite w with
          | Written => Stored (Cache.mk t (parseSkillsFromReadme content))
          | RefusedAtOpen => cacheFile w
          | FailedAfterOpen => Corrupt
          end.
Proof.
  unfold fetchRemote. unfold bind at 1.
  pose proof (httpRequest_state (Validator.awesomeSkillsUrl this) w) as Hs.
  destruct (httpRequest (Validator.awesomeSkillsUrl this) w) as [[data|e] w1];
    simpl in Hs; subst w1.
  2: { intros [= <- <-]. left. now exists e. }
  unfold bind, lift. destruct (decodeReadme data) as [content|e].
  2: { intros [= <- <-]. left. now exists e. }
  unfold allocAll, saveCache, ret. simpl. rewrite objectsAt_fresh.
  unfold afterCacheWrite. simpl.
  intros [= <- <-]. right. eexists _, _, content. split; [reflexivity |].
  destruct (cacheWrite w); reflexivity.
Qed.

Lemma fetch_cacheFile (w : World) (r : Outcome (list loc)) (w' : World) :
  fetchList w = (r, w') →
  cacheFile w' = cacheFile w
  ∨ cacheFile w' = Corrupt
  ∨ ∃ t content, cacheFile w' = Stored (Cache.mk t (parseSkillsFromReadme content)).
Proof.
  destruct (isFresh this w) eqn:Hf.
  - unfold isFresh in Hf. destruct (cacheFile w) as [| |c] eqn:Hc; try discriminate.
    rewrite (fetch_fresh decodeReadme this w c Hc) by (unfold isFresh; now rewrite Hc).
    intros [= <- <-]. now left.
  - rewrite (fetch_stale decodeReadme this w Hf).
    pose proof (fetchRemote_cacheFile (afterLoad w)) as Hrem.
    destruct (fetchRemote decodeReadme this (afterLoad w)) as [[ls0|e] w1].
    + destruct (Hrem _ _ eq_refl) as [(msg & Hno & _)|(ls & t & content & _ & Hc)];
        [discriminate |].
      intros [= <- <-]. rewrite Hc, cacheFile_afterLoad.
      destruct (cacheWrite (afterLoad w)); eauto.
    + destruct (Hrem _ _ eq_refl) as [(msg & _ & Hc)|(ls & t & content & Hno & _)];
        [|discriminate].
      rewrite cacheFile_afterLoad in Hc.
      destruct (cacheFile w1) as [| |c] eqn:Hc1; intros [= <- <-]; simpl;
        left; congruence.
Qed.

Lemma validate_throws (skillName : string) (w : World) (e : string) (w1 : World) :
  fetchList w = (Throw e, w1) →
  ∃ log, validate skillName w = (Throw e, withAuditLog log w1).
Proof.
  intros Hfetch. unfold validateSkill, tryCatch. unfold bind at 1.
  rewrite Hfetch. unfold bind, throw.
  destruct (logAttempt_run skillName "ERROR" e false w1) as [log ->].
  now exists log.
Qed.

End ValidateFacts.

(** The entries of a parse carry neither [repoInfo] nor [safetyScore]. *)
Lemma parsed_entry_unassigned (content : string) (e : Skill.t) :
  e ∈ parseSkillsFromReadme content →
  Skill.repoInfo e = None ∧ Skill.safetyScore e = None.
Proof.
  rewrite parseSkillsFromReadme_omap. intros Hin.
  apply list_elem_of_omap in Hin as (line & _ & Hline).
  destruct (entryOfLine_Some line e Hline) as (pre & label & owner & repo & post & _ & ->).
  split; reflexivity.
Qed.

(** C4. A failure of the metadata fetch (no connection, a status outside
    2xx, a body that is not JSON) is absorbed: [fetchRepoInfo] returns the
    empty object and never throws.  A metadata object without a star
    count, the empty object among them, scores 0 whatever its other
    fields. *)
Theorem metadata_failure_absorbed (parseRepoInfo : string → Outcome Metadata) :
  (∀ owner repo w,
     ∃ m w',
       fetchRepoInfo parseRepoInfo owner repo w = (Return m, w')
       ∧ (repoFetchFails parseRepoInfo owner repo w → m = Obj RepoInfo.empty))
  ∧ (∀ now info,
       RepoInfo.stargazers_count info = None →
       calculateSafetyScore now (Obj info) = 0)
  ∧ (∀ now, calculateSafetyScore now (Obj RepoInfo.empty) = 0).
Proof.
  split; [|split].
  - intros owner repo w.
    destruct (fetchRepoInfo_run parseRepoInfo owner repo w) as (m & Hrun & Hfail).
    eauto.
  - intros now info Hs. apply score_falsy_stars. now rewrite Hs.
  - reflexivity.
Qed.

Lemma metadata_failure_absorbed_witness :
  (∃ w',
     fetchRepoInfo demoParseRepoInfo "weather-dev" "openclaw-weather" offlineWorld
     = (Return (Obj RepoInfo.empty), w'))
  ∧ calculateSafetyScore exampleNow (Obj (starlessRepo exampleNow)) = 0.
Proof.
  destruct (metadata_failure_absorbed demoParseRepoInfo) as (Hfetch & Hscore & _).
  split.
  - destruct (Hfetch "weather-dev" "openclaw-weather" offlineWorld)
      as (m & w' & Hrun & Hfail).
    exists w'. rewrite Hrun. f_equal. f_equal. apply Hfail. exact I.
  - apply Hscore. reflexivity.
Defined.

(** The assertion of the test suite on a name no list has. *)
Example unknown_skill_rejected :
  (validateSkill demoDecodeReadme demoParseRepoInfo constructor
     "nonexistent-test-skill-12345" firstRunWorld).1
  = Return (Rejected "Not found in awesome-openclaw-skills repository").
Proof. vm_compute. reflexivity. Qed.

(** C1, as the specification has it, fails on a list whose first entry
    holds the query in its repo and whose second entry has the query as
    its name: the tiers pick the second entry, [validateSkill] approves
    the first. *)
Lemma lookup_not_tiered :
  (fetchApprovedSkills demoDecodeReadme constructor cachedWorld).1
  = Return [0%nat; 1%nat]
  ∧ objectsAt (heap (fetchApprovedSkills demoDecodeReadme constructor cachedWorld).2)
      [0%nat; 1%nat]
    = Some [alphaEntry; weatherEntry]
  ∧ tieredLookup "weather" [alphaEntry; weatherEntry] = Some weatherEntry
  ∧ (validateSkill demoDecodeReadme demoParseRepoInfo constructor "weather"
       cachedWorld).1
    = Return (Approved 0%nat 0)
  ∧ Skill.name <$>
      heap (validateSkill demoDecodeReadme demoParseRepoInfo constructor "weather"
              cachedWorld).2 !! 0%nat
    = Some "alpha".
Proof. repeat split; vm_compute; reflexivity. Qed.

(** C1, amended. [validateSkill] lowercases and trims the query and takes
    the first entry of the approved list, in the order of the document,
    that passes any of the three tests: its name is the query, its
    lowercased repo is the query, or its lowercased repo holds the query.
    With such an entry the result is approved and carries that entry;
    without one the result is not approved and its reason holds
    ["Not found"]. *)
Theorem validateSkill_first_match
    (decodeReadme : string → Outcome string)
    (parseRepoInfo : string → Outcome Metadata)
    (this : Validator.t) (skillName : string)
    (w : World) (approvedSkills : list loc) (w1 : World) :
  fetchApprovedSkills decodeReadme this w = (Return approvedSkills, w1) →
  ∃ entries,
    objectsAt (heap w1) approvedSkills = Some entries
    ∧ (∀ i e,
         entries !! i = Some e →
         Matches (Js.trim (Js.toLowerCase skillName)) e →
         (∀ j e', (j < i)%nat → entries !! j = Some e' →
                  ¬ Matches (Js.trim (Js.toLowerCase skillName)) e') →
         ∃ l safetyScore w2 e2,
           approvedSkills !! i = Some l
           ∧ validateSkill decodeReadme parseRepoInfo this skillName w
             = (Return (Approved l safetyScore), w2)
           ∧ heap w2 !! l = Some e2
           ∧ sameEntry e e2)
    ∧ ((∀ e, e ∈ entries → ¬ Matches (Js.trim (Js.toLowerCase skillName)) e) →
       ∃ reason w2,
         validateSkill decodeReadme parseRepoInfo this skillName w
         = (Return (Rejected reason), w2)
         ∧ Js.includes reason "Not found" = true).
Proof.
  intros Hfetch.
  destruct (fetch_store decodeReadme this w _ _ Hfetch) as [_ Hobj].
  destruct (Hobj approvedSkills eq_refl) as [entries Hentries].
  exists entries. split; [exact Hentries |]. split.
  - intros i e Hi He Hbefore.
    destruct (findSkill_first
                (matchesName (Js.trim (Js.toLowerCase skillName)))
                (heap w1) approvedSkills entries i e Hentries Hi)
      as (l & Hl & Hle & Hfind).
    { now apply matchesName_Matches. }
    { intros j e' Hj He'. apply matchesName_not_Matches. eauto. }
    destruct (validate_approved decodeReadme parseRepoInfo this skillName
                w approvedSkills w1 l e Hfetch Hfind Hle)
      as (m & w2 & _ & _ & _ & Hrun).
    eexists l, _, _, _. split; [exact Hl |]. split; [exact Hrun |]. split.
    + simpl. apply list_lookup_insert_eq. eapply lookup_lt_Some. exact Hle.
    + repeat split.
  - intros Hnone.
    destruct (validate_rejected decodeReadme parseRepoInfo this skillName
                w approvedSkills w1 Hfetch) as [log Hrun].
    { apply (findSkill_none _ _ _ entries Hentries).
      intros o Ho. apply matchesName_not_Matches. now apply Hnone. }
    eexists _, _. split; [exact Hrun | reflexivity].
Qed.

Lemma validateSkill_first_match_witness :
  ∃ l safetyScore w2 e2,
    [0%nat; 1%nat] !! 0%nat = Some l
    ∧ validateSkill demoDecodeReadme demoParseRepoInfo constructor " Weather "
        cachedWorld
      = (Return (Approved l safetyScore), w2)
    ∧ heap w2 !! l = Some e2
    ∧ sameEntry alphaEntry e2.
Proof.
  destruct (validateSkill_first_match demoDecodeReadme demoParseRepoInfo
              constructor " Weather " cachedWorld [0%nat; 1%nat]
              (fetchApprovedSkills demoDecodeReadme constructor cachedWorld).2
              eq_refl)
    as (entries & Hentries & Hfirst & _).
  injection Hentries as <-.
  apply (Hfirst 0%nat alphaEntry eq_refl).
  - right. right. exists "", "-tools". reflexivity.
  - intros j e' Hj. lia.
Defined.

(** C8, as the specification has it, fails on the first run for an
    approved skill: the entry the parse produced is the object that
    [validateSkill] then assigns [repoInfo] and [safetyScore] to. *)
Lemma entry_updated_in_place :
  (fetchApprovedSkills demoDecodeReadme constructor firstRunWorld).1
  = Return [0%nat; 1%nat; 2%nat]
  ∧ heap (fetchApprovedSkills demoDecodeReadme constructor firstRunWorld).2 !! 0%nat
    = Some forecastEntry
  ∧ (validateSkill demoDecodeReadme demoParseRepoInfo constructor
       "weather-forecast" firstRunWorld).1
    = Return (Approved 0%nat 5)
  ∧ heap (validateSkill demoDecodeReadme demoParseRepoInfo constructor
            "weather-forecast" firstRunWorld).2 !! 0%nat
    = Some (setSafetyScore 5 (setRepoInfo forecastInfo forecastEntry))
  ∧ setSafetyScore 5 (setRepoInfo forecastInfo forecastEntry) ≠ forecastEntry.
Proof. repeat split; vm_compute; congruence. Qed.

(** C8, amended. No operation changes the name, owner, repo, url or
    source line of an entry.  Writing the cache and
    [fetchApprovedSkills] leave every entry as it is.  [validateSkill],
    when it approves, assigns [repoInfo] and [safetyScore] to the
    approved entry in place; every other entry stays as it is, and when
    it rejects or throws every entry stays as it is.  [validateSkill]
    changes the cache file only through its own call of
    [fetchApprovedSkills]: the file it leaves is the file that call
    leaves, so that the two assigned properties are never written to
    it. *)
Theorem entries_change_only_on_approval
    (decodeReadme : string → Outcome string)
    (parseRepoInfo : string → Outcome Metadata)
    (this : Validator.t) :
  (∀ ls w, heap (saveCache ls w).2 = heap w)
  ∧ (∀ w r w1 l o,
       fetchApprovedSkills decodeReadme this w = (r, w1) →
       heap w !! l = Some o → heap w1 !! l = Some o)
  ∧ (∀ skillName w r1 w1 r w2,
       fetchApprovedSkills decodeReadme this w = (r1, w1) →
       validateSkill decodeReadme parseRepoInfo this skillName w = (r, w2) →
       cacheFile w2 = cacheFile w1
       ∧ (cacheFile w2 = cacheFile w
          ∨ cacheFile w2 = Corrupt
          ∨ ∃ c, cacheFile w2 = Stored c
                 ∧ ∀ e, e ∈ Cache.skills c →
                        Skill.repoInfo e = None ∧ Skill.safetyScore e = None)
       ∧ ∀ l o,
           heap w1 !! l = Some o →
           ∃ o',
             heap w2 !! l = Some o'
             ∧ sameEntry o o'
             ∧ ((∀ score, r ≠ Return (Approved l score)) → o' = o)
             ∧ (∀ score, r = Return (Approved l score) →
                  ∃ m, o' = setSafetyScore score (setRepoInfo m o))).
Proof.
  split; [|split].
  - intros ls w. unfold saveCache.
    destruct (objectsAt (heap w) ls); [|reflexivity].
    unfold afterCacheWrite. simpl. destruct (cacheWrite w); reflexivity.
  - intros w r w1 l o Hfetch Hl.
    destruct (fetch_store decodeReadme this w r w1 Hfetch) as [[more ->] _].
    now apply lookup_app_l_Some.
  - intros skillName w r1 w1 r w2 Hfetch Hrun.
    assert (cacheFile w2 = cacheFile w1
            ∧ ∀ l o,
                heap w1 !! l = Some o →
                ∃ o',
                  heap w2 !! l = Some o'
                  ∧ sameEntry o o'
                  ∧ ((∀ score, r ≠ Return (Approved l score)) → o' = o)
                  ∧ (∀ score, r = Return (Approved l score) →
                       ∃ m, o' = setSafetyScore score (setRepoInfo m o)))
      as [Hfile Hentries].
    { destruct r1 as [ls|e].
      - destruct (findSkill (matchesName (Js.trim (Js.toLowerCase skillName)))
                    (heap w1) ls) as [l0|] eqn:Hfind.
        + destruct (findSkill_Some _ _ _ _ Hfind) as (s & Hs & _).
          destruct (validate_approved decodeReadme parseRepoInfo this skillName
                      w ls w1 l0 s Hfetch Hfind Hs)
            as (m & w2' & _ & _ & Hcache & Hrun').
          rewrite Hrun' in Hrun. injection Hrun as <- <-.
          split; [exact Hcache |]. intros l o Hl. simpl.
          destruct (decide (l = l0)) as [->|Hne].
          * assert (s = o) as -> by congruence.
            eexists. split.
            { apply list_lookup_insert_eq. eapply lookup_lt_Some. exact Hl. }
            split; [repeat split |]. split.
            -- intros Hno. now destruct (Hno (calculateSafetyScore (clock w2') m)).
            -- intros score [= <-]. now exists m.
          * exists o. split; [now rewrite list_lookup_insert_ne |].
            split; [repeat split |]. split; [reflexivity |].
            intros score [= E]. congruence.
        + destruct (validate_rejected decodeReadme parseRepoInfo this skillName
                      w ls w1 Hfetch Hfind) as [log Hrun'].
          rewrite Hrun' in Hrun. injection Hrun as <- <-.
          split; [reflexivity |]. intros l o Hl. exists o. simpl.
          split; [exact Hl |]. split; [repeat split |].
          split; [reflexivity | discriminate].
      - destruct (validate_throws decodeReadme parseRepoInfo this skillName
                    w e w1 Hfetch) as [log Hrun'].
        rewrite Hrun' in Hrun. injection Hrun as <- <-.
        split; [reflexivity |]. intros l o Hl. exists o. simpl.
        split; [exact Hl |]. split; [repeat split |].
        split; [reflexivity | discriminate]. }
    split; [exact Hfile |]. split; [|exact Hentries].
    rewrite Hfile.
    destruct (fetch_cacheFile decodeReadme this w r1 w1 Hfetch)
      as [Hsame|[Hbroken|(t & content & Hnew)]]; [now left | now right; left |].
    right. right. eexists. split; [exact Hnew |]. simpl.
    intros e He. exact (parsed_entry_unassigned content e He).
Qed.

Lemma entries_change_only_on_approval_witness :
  (cacheFile (validateSkill demoDecodeReadme demoParseRepoInfo constructor
                "weather-forecast" firstRunWorld).2
   = cacheFile (fetchApprovedSkills demoDecodeReadme constructor firstRunWorld).2
   ∧ cacheFile (validateSkill demoDecodeReadme demoParseRepoInfo constructor
                  "weather-forecast" firstRunWorld).2
     ≠ cacheFile firstRunWorld)
  ∧ ∃ o',
      heap (validateSkill demoDecodeReadme demoParseRepoInfo constructor
              "weather-forecast" firstRunWorld).2 !! 0%nat = Some o'
      ∧ sameEntry forecastEntry o'
      ∧ ((∀ score, Return (Approved 0%nat 5) ≠ Return (Approved 0%nat score)) →
         o' = forecastEntry)
      ∧ (∀ score, Return (Approved 0%nat 5) = Return (Approved 0%nat score) →
           ∃ m, o' = setSafetyScore score (setRepoInfo m forecastEntry)).
Proof.
  destruct (entries_change_only_on_approval demoDecodeReadme demoParseRepoInfo
              constructor) as (_ & _ & Hvalidate).
  destruct (Hvalidate "weather-forecast" firstRunWorld
              (Return [0%nat; 1%nat; 2%nat])
              (fetchApprovedSkills demoDecodeReadme constructor firstRunWorld).2
              (Return (Approved 0%nat 5))
              (validateSkill demoDecodeReadme demoParseRepoInfo constructor
                 "weather-forecast" firstRunWorld).2
              eq_refl eq_refl) as (Hfile & _ & Hentries).
  split; [split; [exact Hfile | vm_compute; discriminate] |].
  apply (Hentries 0%nat forecastEntry). reflexivity.
Defined.

(** ** The runs of [fetchApprovedSkills] *)

Section RunFacts.

Set Default Proof Using "Type".

Variable decodeReadme : string → Outcome string.
Variable this : Validator.t.

Local Abbreviation fetchList := (fetchApprovedSkills decodeReadme this).
Local Abbreviation listUrl := (Validator.awesomeSkillsUrl this).

Lemma list_fetch_cases (w : World) :
  listFetchFails decodeReadme this w
  ∨ ∃ content, listFetchYields decodeReadme this w content.
Proof.
  unfold listFetchFails, listFetchYields.
  destruct (outcome (network w listUrl)) as [msg|st data]; [now left |].
  destruct (decide (200 ≤ st < 300)) as [Hst|Hst]; [|left; now left].
  destruct (decodeReadme data) as [content|msg] eqn:Hd.
  - right. exists content, st, data. auto.
  - left. right. now exists msg.
Qed.

Lemma list_fetch_exclusive (w : World) (content : string) :
  listFetchFails decodeReadme this w →
  listFetchYields decodeReadme this w content → False.
Proof.
  unfold listFetchFails. intros Hfail (st & data & Ho & Hst & Hd).
  rewrite Ho in Hfail. destruct Hfail as [Hno|[msg Hmsg]]; [tauto |].
  rewrite Hd in Hmsg. discriminate.
Qed.

Lemma cacheWrite_afterLoad (w : World) : cacheWrite (afterLoad w) = cacheWrite w.
Proof. unfold afterLoad. destruct (cacheFile w); reflexivity. Qed.

Lemma cacheWritable_afterLoad (w : World) :
  cacheWritable (afterLoad w) = cacheWritable w.
Proof. unfold cacheWritable. now rewrite cacheWrite_afterLoad. Qed.

Lemma cacheWritable_afterListRequest (h : list Skill.t) (w : World) :
  cacheWritable (withHeap h (afterListRequest this w)) = cacheWritable w.
Proof. unfold cacheWritable. simpl. now rewrite cacheWrite_afterLoad. Qed.

Lemma afterCacheWrite_written (c : Cache.t Skill.t) (w : World) :
  cacheWritable w = true → afterCacheWrite c w = withCacheFile (Stored c) w.
Proof.
  unfold cacheWritable, afterCacheWrite.
  destruct (cacheWrite w); (reflexivity || discriminate).
Qed.

(** A write to the cache file touches the cache file only. *)
Lemma afterCacheWrite_frame (c : Cache.t Skill.t) (w : World) :
  heap (afterCacheWrite c w) = heap w
  ∧ clock (afterCacheWrite c w) = clock w
  ∧ requests (afterCacheWrite c w) = requests w
  ∧ auditLog (afterCacheWrite c w) = auditLog w
  ∧ auditWritable (afterCacheWrite c w) = auditWritable w
  ∧ cacheWrite (afterCacheWrite c w) = cacheWrite w
  ∧ network (afterCacheWrite c w) = network w.
Proof.
  unfold afterCacheWrite. destruct (cacheWrite w) eqn:E; simpl; rewrite ?E; auto 10.
Qed.

Lemma cacheFile_afterCacheWrite (c : Cache.t Skill.t) (w : World) :
  cacheFile (afterCacheWrite c w)
  = match cacheWrite w with
    | Written => Stored c
    | RefusedAtOpen => cacheFile w
    | FailedAfterOpen => Corrupt
    end.
Proof. unfold afterCacheWrite. destruct (cacheWrite w); reflexivity. Qed.

Lemma isFresh_Stored (w : World) :
  isFresh this w = true →
  ∃ c, cacheFile w = Stored c
       ∧ clock w - Cache.timestamp c < Validator.cacheTimeout this.
Proof.
  unfold isFresh. destruct (cacheFile w) as [| |c]; try discriminate.
  intros H. exists c. split; [reflexivity | now apply Z.ltb_lt].
Qed.

Lemma fetch_remote_success (w : World) (content : string) :
  isFresh this w = false →
  listFetchYields decodeReadme this w content →
  fetchList w
  = (Return (seq (length (heap (afterLoad w)))
                 (length (parseSkillsFromReadme content))),
     afterCacheWrite
       (Cache.mk (clock (afterListRequest this w))
          (parseSkillsFromReadme content))
       (withHeap (heap (afterLoad w) ++ parseSkillsFromReadme content)
          (afterListRequest this w))).
Proof.
  intros Hf (st & data & Ho & Hst & Hd).
  rewrite (fetch_stale decodeReadme this w Hf).
  rewrite <- (network_afterLoad w) in Ho.
  rewrite (fetchRemote_ok decodeReadme this (afterLoad w) st data content Ho Hst Hd).
  rewrite network_afterLoad. reflexivity.
Qed.

Lemma fetch_stale_fallback (w : World) :
  isFresh this w = false →
  listFetchFails decodeReadme this w →
  fetchList w
  = match cacheFile w with
    | Stored c =>
        (Return (seq (length (heap (afterLoad w))) (length (Cache.skills c))),
         withHeap (heap (afterLoad w) ++ Cache.skills c) (afterListRequest this w))
    | NoFile | Corrupt =>
        (Throw "Cannot validate skills - no approved list available",
         afterListRequest this w)
    end.
Proof.
  intros Hf Hfail. rewrite (fetch_stale decodeReadme this w Hf).
  destruct (fetchRemote_fails decodeReadme this (afterLoad w)) as [msg ->].
  { unfold listFetchFails in *. now rewrite network_afterLoad. }
  rewrite network_afterLoad. fold (afterListRequest this w).
  assert (cacheFile (afterListRequest this w) = cacheFile w) as ->
    by apply cacheFile_afterLoad.
  destruct (cacheFile w); reflexivity.
Qed.

(** Every call is one of the four runs. *)
Lemma fetch_run (w : World) : FetchRun decodeReadme this w (fetchList w).1 (fetchList w).2.
Proof.
  destruct (isFresh this w) eqn:Hf.
  - destruct (isFresh_Stored w Hf) as (c & Hc & Hlt).
    rewrite (fetch_fresh decodeReadme this w c Hc Hf). now apply cache_hit.
  - destruct (list_fetch_cases w) as [Hfail|[content Hok]].
    + rewrite (fetch_stale_fallback w Hf Hfail).
      destruct (cacheFile w) as [| |c] eqn:Hc.
      * apply total_failure; [exact Hfail | congruence].
      * apply total_failure; [exact Hfail | congruence].
      * now apply stale_fallback.
    + rewrite (fetch_remote_success w content Hf Hok). now apply remote_success.
Qed.

(** Each of the four runs is what the call does. *)
Lemma run_fetch (w : World) (r : Outcome (list loc)) (w' : World) :
  FetchRun decodeReadme this w r w' → fetchList w = (r, w').
Proof.
  intros [c Hc Hlt | content Hf Hok | c Hf Hfail Hc | Hfail Hno].
  - apply fetch_fresh; [exact Hc |]. unfold isFresh. rewrite Hc. now apply Z.ltb_lt.
  - now apply fetch_remote_success.
  - rewrite (fetch_stale_fallback w Hf Hfail), Hc. reflexivity.
  - assert (isFresh this w = false) as Hf.
    { unfold isFresh. destruct (cacheFile w) as [| |c] eqn:Hc; try reflexivity.
      now destruct (Hno c). }
    rewrite (fetch_stale_fallback w Hf Hfail).
    destruct (cacheFile w) as [| |c] eqn:Hc; try reflexivity. now destruct (Hno c).
Qed.

End RunFacts.

(** ** What a call leaves untouched *)

Section Frames.

Set Default Proof Using "Type".

Variable decodeReadme : string → Outcome string.
Variable this : Validator.t.

Local Abbreviation fetchList := (fetchApprovedSkills decodeReadme this).
Local Abbreviation listUrl := (Validator.awesomeSkillsUrl this).

Lemma auditLog_afterLoad (w : World) : auditLog (afterLoad w) = auditLog w.
Proof. unfold afterLoad. destruct (cacheFile w) eqn:E; simpl; congruence. Qed.

Lemma auditWritable_afterLoad (w : World) :
  auditWritable (afterLoad w) = auditWritable w.
Proof. unfold afterLoad. destruct (cacheFile w) eqn:E; simpl; congruence. Qed.

Lemma heap_afterLoad (w : World) :
  heap (afterLoad w)
  = heap w ++ match cacheFile w with
              | Stored c => Cache.skills c
              | NoFile | Corrupt => []
              end.
Proof.
  unfold afterLoad. destruct (cacheFile w) eqn:E; simpl;
    try reflexivity; now rewrite app_nil_r.
Qed.

Lemma clock_afterListRequest (w : World) :
  clock (afterListRequest this w) = clock w + latency (network w listUrl).
Proof. unfold afterListRequest. simpl. now rewrite clock_afterLoad. Qed.

Lemma requests_afterListRequest (w : World) :
  requests (afterListRequest this w) = requests w ++ [listUrl].
Proof. unfold afterListRequest. simpl. now rewrite requests_afterLoad. Qed.

Lemma requests_afterLoad_app (w : World) :
  requests (afterLoad w) ++ [listUrl] = requests w ++ [listUrl].
Proof. now rewrite requests_afterLoad. Qed.

Lemma cacheFile_afterListRequest (w : World) :
  cacheFile (afterListRequest this w) = cacheFile w.
Proof. unfold afterListRequest. simpl. apply cacheFile_afterLoad. Qed.

(** The audit log, what can be written, and the remote end are the same
    after a call of [fetchApprovedSkills]. *)
Lemma run_frame (w : World) (r : Outcome (list loc)) (w' : World) :
  FetchRun decodeReadme this w r w' →
  auditLog w' = auditLog w
  ∧ auditWritable w' = auditWritable w
  ∧ cacheWrite w' = cacheWrite w
  ∧ network w' = network w.
Proof.
  intros [c Hc Hlt | content Hf Hok | c Hf Hfail Hc | Hfail Hno].
  - repeat split.
  - match goal with
    | |- context [afterCacheWrite ?c ?w0] =>
        destruct (afterCacheWrite_frame c w0) as (_ & _ & _ & -> & -> & -> & ->)
    end.
    simpl. rewrite auditLog_afterLoad, auditWritable_afterLoad,
      cacheWrite_afterLoad, network_afterLoad. auto.
  - simpl. rewrite auditLog_afterLoad, auditWritable_afterLoad,
      cacheWrite_afterLoad, network_afterLoad. auto.
  - simpl. rewrite auditLog_afterLoad, auditWritable_afterLoad,
      cacheWrite_afterLoad, network_afterLoad. auto.
Qed.

Lemma run_requests (w : World) (r : Outcome (list loc)) (w' : World) :
  FetchRun decodeReadme this w r w' →
  requests w' = requests w ∨ requests w' = requests w ++ [listUrl].
Proof.
  intros [c Hc Hlt | content Hf Hok | c Hf Hfail Hc | Hfail Hno].
  - now left.
  - right.
    match goal with
    | |- context [afterCacheWrite ?c ?w0] =>
        destruct (afterCacheWrite_frame c w0) as (_ & _ & -> & _)
    end.
    simpl. apply requests_afterLoad_app.
  - right. simpl. apply requests_afterLoad_app.
  - right. apply requests_afterListRequest.
Qed.

End Frames.

(** ** More about [fetchApprovedSkills] and the cache *)

(** X1. A call of [fetchApprovedSkills] is exactly one of four runs: a
    cache hit, a successful remote fetch, the fallback to a cache that is
    not fresh, or the failure without any cache; each run determines the
    answer and the world it leaves. *)
Theorem fetch_runs (decodeReadme : string → Outcome string) (this : Validator.t)
    (w : World) (r : Outcome (list loc)) (w' : World) :
  fetchApprovedSkills decodeReadme this w = (r, w')
  ↔ FetchRun decodeReadme this w r w'.
Proof.
  split.
  - intros H. pose proof (fetch_run decodeReadme this w) as Hrun.
    now rewrite H in Hrun.
  - apply run_fetch.
Qed.

Lemma fetch_runs_witness :
  FetchRun demoDecodeReadme constructor staleOfflineWorld
    (fetchApprovedSkills demoDecodeReadme constructor staleOfflineWorld).1
    (fetchApprovedSkills demoDecodeReadme constructor staleOfflineWorld).2.
Proof.
  apply (proj1 (fetch_runs demoDecodeReadme constructor staleOfflineWorld _ _)).
  reflexivity.
Defined.

(** X2. Writing the cache and reading it back: after [saveCache] on a
    writable disk, [loadCache] answers with the timestamp of the write and
    with new objects, none of them one of the saved objects, that have
    the contents the saved ones had. *)
Theorem cache_round_trip (w : World) (ls : list loc) (objects : list Skill.t) :
  cacheWritable w = true →
  objectsAt (heap w) ls = Some objects →
  ∃ ls' w',
    loadCache (saveCache ls w).2 = (Return (Some (Cache.mk (clock w) ls')), w')
    ∧ objectsAt (heap w') ls' = Some objects
    ∧ (∀ l, l ∈ ls' → l ∉ ls)
    ∧ cacheFile w' = Stored (Cache.mk (clock w) objects).
Proof.
  intros Hw Ho. rewrite (saveCache_writes w ls objects Hw Ho). simpl.
  rewrite loadCache_run. simpl.
  eexists _, _. split; [reflexivity |]. unfold afterLoad. simpl.
  split; [apply objectsAt_fresh |]. split; [|reflexivity].
  intros l Hl Hin. apply elem_of_seq in Hl as [Hge _].
  apply objectsAt_Forall2 in Ho.
  apply list_elem_of_lookup in Hin as [i Hi].
  destruct (Forall2_lookup_l _ _ _ _ _ Ho Hi) as (o & _ & Hlo).
  apply lookup_lt_Some in Hlo. lia.
Qed.

Lemma cache_round_trip_witness :
  ∃ ls' w',
    loadCache
      (saveCache [0%nat; 1%nat]
         (fetchApprovedSkills demoDecodeReadme constructor cachedWorld).2).2
    = (Return (Some (Cache.mk exampleNow ls')), w')
    ∧ objectsAt (heap w') ls' = Some [alphaEntry; weatherEntry]
    ∧ (∀ l, l ∈ ls' → l ∉ [0%nat; 1%nat])
    ∧ cacheFile w' = Stored (Cache.mk exampleNow [alphaEntry; weatherEntry]).
Proof.
  apply (cache_round_trip
           (fetchApprovedSkills demoDecodeReadme constructor cachedWorld).2
           [0%nat; 1%nat] [alphaEntry; weatherEntry]); reflexivity.
Defined.

(** X3. A failed write of the cache does not fail the call: after a
    successful remote fetch [fetchApprovedSkills] returns the entries of
    the fetched document whatever the write does.  A write refused when
    the file is opened leaves the cache file as it was; a write that
    fails once the file is open leaves it unreadable, so that an older
    cache is lost. *)
Theorem failed_cache_write_not_fatal (decodeReadme : string → Outcome string)
    (this : Validator.t) (w : World) (content : string) :
  isFresh this w = false →
  listFetchYields decodeReadme this w content →
  cacheWritable w = false →
  ∃ ls w',
    fetchApprovedSkills decodeReadme this w = (Return ls, w')
    ∧ objectsAt (heap w') ls = Some (parseSkillsFromReadme content)
    ∧ (cacheWrite w = RefusedAtOpen → cacheFile w' = cacheFile w)
    ∧ (cacheWrite w = FailedAfterOpen →
       cacheFile w' = Corrupt ∧ ∃ w'', loadCache w' = (Return None, w'')).
Proof.
  intros Hf Hok Hw.
  rewrite (fetch_remote_success decodeReadme this w content Hf Hok).
  eexists _, _. split; [reflexivity |].
  match goal with
  | |- context [afterCacheWrite ?c ?w0] =>
      destruct (afterCacheWrite_frame c w0) as (Hheap & _)
  end.
  rewrite Hheap. split; [apply objectsAt_fresh |].
  split.
  - intros Hr. rewrite cacheFile_afterCacheWrite. simpl.
    now rewrite cacheWrite_afterLoad, Hr, cacheFile_afterLoad.
  - intros Hr. rewrite loadCache_run, cacheFile_afterCacheWrite. simpl.
    rewrite cacheWrite_afterLoad, Hr. split; [reflexivity |].
    eexists. reflexivity.
Qed.

Lemma failed_cache_write_not_fatal_witness :
  (∃ ls w',
     fetchApprovedSkills demoDecodeReadme constructor readOnlyWorld = (Return ls, w')
     ∧ objectsAt (heap w') ls = Some (parseSkillsFromReadme sampleReadme)
     ∧ cacheFile w' = NoFile)
  ∧ ∃ ls w',
      fetchApprovedSkills demoDecodeReadme constructor diskFullWorld = (Return ls, w')
      ∧ objectsAt (heap w') ls = Some (parseSkillsFromReadme sampleReadme)
      ∧ cacheFile w' = Corrupt.
Proof.
  split.
  - destruct (failed_cache_write_not_fatal demoDecodeReadme constructor
                readOnlyWorld sampleReadme eq_refl)
      as (ls & w' & Hrun & Hobj & Hrefused & _); [|reflexivity |].
    { exists 200, sampleReadme. repeat split; reflexivity || lia. }
    exists ls, w'. split; [exact Hrun |]. split; [exact Hobj |].
    now apply Hrefused.
  - destruct (failed_cache_write_not_fatal demoDecodeReadme constructor
                diskFullWorld sampleReadme eq_refl)
      as (ls & w' & Hrun & Hobj & _ & Hfailed); [|reflexivity |].
    { exists 200, sampleReadme. repeat split; reflexivity || lia. }
    exists ls, w'. split; [exact Hrun |]. split; [exact Hobj |].
    now apply Hfailed.
Defined.

(** X4. Without a fresh cache, a successful remote fetch returns the
    entries of the fetched document, sends exactly one request, and on a
    writable disk stores those entries with the time at which the answer
    came in. *)
Theorem remote_fetch_returns_and_caches (decodeReadme : string → Outcome string)
    (this : Validator.t) (w : World) (content : string) :
  isFresh this w = false →
  listFetchYields decodeReadme this w content →
  cacheWritable w = true →
  ∃ ls w',
    fetchApprovedSkills decodeReadme this w = (Return ls, w')
    ∧ objectsAt (heap w') ls = Some (parseSkillsFromReadme content)
    ∧ requests w' = requests w ++ [Validator.awesomeSkillsUrl this]
    ∧ cacheFile w'
      = Stored (Cache.mk
                  (clock w + latency (network w (Validator.awesomeSkillsUrl this)))
                  (parseSkillsFromReadme content)).
Proof.
  intros Hf Hok Hw.
  rewrite (fetch_remote_success decodeReadme this w content Hf Hok).
  rewrite afterCacheWrite_written by (simpl; now rewrite cacheWritable_afterListRequest).
  eexists _, _. split; [reflexivity |]. simpl.
  split; [apply objectsAt_fresh |].
  split; [now rewrite requests_afterLoad |].
  now rewrite clock_afterLoad.
Qed.

Lemma remote_fetch_returns_and_caches_witness :
  ∃ ls w',
    fetchApprovedSkills demoDecodeReadme constructor firstRunWorld = (Return ls, w')
    ∧ objectsAt (heap w') ls = Some (parseSkillsFromReadme sampleReadme)
    ∧ requests w' = [Validator.awesomeSkillsUrl constructor]
    ∧ cacheFile w'
      = Stored (Cache.mk (exampleNow + 120) (parseSkillsFromReadme sampleReadme)).
Proof.
  apply (remote_fetch_returns_and_caches demoDecodeReadme constructor
           firstRunWorld sampleReadme eq_refl); [|reflexivity].
  exists 200, sampleReadme. repeat split; reflexivity || lia.
Defined.

(** X5. After a remote fetch that wrote the cache, a call at any later
    time within the timeout of that write returns the same entries from
    the cache and sends no request. *)
Theorem next_call_served_from_cache (decodeReadme : string → Outcome string)
    (this : Validator.t) (w : World) (content : string) (t : Z) :
  isFresh this w = false →
  listFetchYields decodeReadme this w content →
  cacheWritable w = true →
  t - (clock w + latency (network w (Validator.awesomeSkillsUrl this)))
    < Validator.cacheTimeout this →
  ∃ ls w',
    fetchApprovedSkills decodeReadme this
      (withClock t (fetchApprovedSkills decodeReadme this w).2)
    = (Return ls, w')
    ∧ objectsAt (heap w') ls = Some (parseSkillsFromReadme content)
    ∧ requests w' = requests (fetchApprovedSkills decodeReadme this w).2
    ∧ cacheFile w' = cacheFile (fetchApprovedSkills decodeReadme this w).2.
Proof.
  intros Hf Hok Hw Ht.
  rewrite (fetch_remote_success decodeReadme this w content Hf Hok).
  rewrite afterCacheWrite_written by (simpl; now rewrite cacheWritable_afterListRequest).
  cbn [snd].
  set (w1 := withClock t _).
  assert (cacheFile w1
          = Stored (Cache.mk
                      (clock w + latency (network w (Validator.awesomeSkillsUrl this)))
                      (parseSkillsFromReadme content))) as Hc.
  { subst w1. simpl. now rewrite clock_afterLoad. }
  rewrite (fetch_fresh decodeReadme this w1 _ Hc).
  - eexists _, _. split; [reflexivity |]. simpl.
    split; [apply objectsAt_fresh |]. split; [reflexivity |].
    now rewrite clock_afterLoad.
  - unfold isFresh. rewrite Hc. simpl. now apply Z.ltb_lt.
Qed.

Lemma next_call_served_from_cache_witness :
  ∃ ls w',
    fetchApprovedSkills demoDecodeReadme constructor
      (withClock (exampleNow + 1800000)
         (fetchApprovedSkills demoDecodeReadme constructor firstRunWorld).2)
    = (Return ls, w')
    ∧ objectsAt (heap w') ls = Some (parseSkillsFromReadme sampleReadme)
    ∧ requests w'
      = requests (fetchApprovedSkills demoDecodeReadme constructor firstRunWorld).2
    ∧ cacheFile w'
      = cacheFile (fetchApprovedSkills demoDecodeReadme constructor firstRunWorld).2.
Proof.
  apply (next_call_served_from_cache demoDecodeReadme constructor
           firstRunWorld sampleReadme (exampleNow + 1800000) eq_refl);
    [|reflexivity | vm_compute; reflexivity].
  exists 200, sampleReadme. repeat split; reflexivity || lia.
Defined.

(** X6. Two calls on a cache that is fresh at the time of each of them
    return the same entries: the second call, at its own time, returns
    other objects with the same contents, the objects of the first call
    are still as they were, and neither call writes the cache file or
    sends a request. *)
Theorem repeated_call_same_entries (decodeReadme : string → Outcome string)
    (this : Validator.t) (w : World) (c : Cache.t Skill.t) (t : Z) :
  cacheFile w = Stored c →
  clock w - Cache.timestamp c < Validator.cacheTimeout this →
  t - Cache.timestamp c < Validator.cacheTimeout this →
  ∃ ls1 w1 ls2 w2,
    fetchApprovedSkills decodeReadme this w = (Return ls1, w1)
    ∧ fetchApprovedSkills decodeReadme this (withClock t w1) = (Return ls2, w2)
    ∧ objectsAt (heap w1) ls1 = Some (Cache.skills c)
    ∧ objectsAt (heap w2) ls2 = Some (Cache.skills c)
    ∧ objectsAt (heap w2) ls1 = Some (Cache.skills c)
    ∧ (∀ l, l ∈ ls2 → l ∉ ls1)
    ∧ cacheFile w2 = cacheFile w
    ∧ requests w2 = requests w.
Proof.
  intros Hc Hlt Ht.
  assert (isFresh this w = true) as Hf.
  { unfold isFresh. rewrite Hc. now apply Z.ltb_lt. }
  rewrite (fetch_fresh decodeReadme this w c Hc Hf).
  set (w1 := withHeap (heap w ++ Cache.skills c) w).
  assert (cacheFile (withClock t w1) = Stored c) as Hc1 by exact Hc.
  assert (isFresh this (withClock t w1) = true) as Hf1.
  { unfold isFresh. rewrite Hc1. simpl. now apply Z.ltb_lt. }
  exists (seq (length (heap w)) (length (Cache.skills c))), w1.
  rewrite (fetch_fresh decodeReadme this (withClock t w1) c Hc1 Hf1).
  eexists _, _.
  split; [reflexivity |]. split; [reflexivity |]. simpl.
  split; [apply objectsAt_fresh |].
  split; [apply objectsAt_fresh |].
  split.
  { apply objectsAt_Forall2.
    pose proof (objectsAt_fresh (heap w) (Cache.skills c)) as H.
    apply objectsAt_Forall2 in H.
    eapply Forall2_impl; [exact H |]. simpl. intros l o Hl.
    now apply lookup_app_l_Some. }
  split; [|auto].
  intros l [Hge _]%elem_of_seq [_ Hlt1]%elem_of_seq.
  rewrite length_app in Hge. lia.
Qed.

Lemma repeated_call_same_entries_witness :
  ∃ ls1 w1 ls2 w2,
    fetchApprovedSkills demoDecodeReadme constructor cachedWorld = (Return ls1, w1)
    ∧ fetchApprovedSkills demoDecodeReadme constructor
        (withClock (exampleNow + 2400000) w1) = (Return ls2, w2)
    ∧ objectsAt (heap w1) ls1 = Some [alphaEntry; weatherEntry]
    ∧ objectsAt (heap w2) ls2 = Some [alphaEntry; weatherEntry]
    ∧ objectsAt (heap w2) ls1 = Some [alphaEntry; weatherEntry]
    ∧ (∀ l, l ∈ ls2 → l ∉ ls1)
    ∧ cacheFile w2 = cacheFile cachedWorld
    ∧ requests w2 = requests cachedWorld.
Proof.
  apply (repeated_call_same_entries demoDecodeReadme constructor cachedWorld
           (Cache.mk (exampleNow - 600000) [alphaEntry; weatherEntry])
           (exampleNow + 2400000) eq_refl); vm_compute; reflexivity.
Defined.

(** X7. The cache file changes only through the write that follows a
    successful remote fetch: a cache hit and a failed fetch leave the
    file exactly as it was, so that a cache that is not fresh is kept; a
    write that goes through replaces it by the fetched entries; and a
    stored cache is lost only when that write fails after the file was
    opened. *)
Theorem cache_file_after_call (decodeReadme : string → Outcome string)
    (this : Validator.t) (w : World) (r : Outcome (list loc)) (w' : World) :
  fetchApprovedSkills decodeReadme this w = (r, w') →
  (isFresh this w = true ∨ listFetchFails decodeReadme this w →
   cacheFile w' = cacheFile w)
  ∧ (∀ content,
       isFresh this w = false →
       listFetchYields decodeReadme this w content →
       cacheFile w'
       = match cacheWrite w with
         | Written =>
             Stored (Cache.mk
                       (clock w + latency (network w (Validator.awesomeSkillsUrl this)))
                       (parseSkillsFromReadme content))
         | RefusedAtOpen => cacheFile w
         | FailedAfterOpen => Corrupt
         end)
  ∧ (∀ c,
       cacheFile w = Stored c → cacheWrite w ≠ FailedAfterOpen →
       ∃ c', cacheFile w' = Stored c').
Proof.
  intros Hrun.
  assert (isFresh this w = true ∨ listFetchFails decodeReadme this w →
          cacheFile w' = cacheFile w) as Hkept.
  { intros [Hf|Hfail].
    - destruct (isFresh_Stored this w Hf) as (c & Hc & _).
      rewrite (fetch_fresh decodeReadme this w c Hc Hf) in Hrun.
      now injection Hrun as <- <-.
    - destruct (isFresh this w) eqn:Hf.
      + destruct (isFresh_Stored this w Hf) as (c & Hc & _).
        rewrite (fetch_fresh decodeReadme this w c Hc Hf) in Hrun.
        now injection Hrun as <- <-.
      + rewrite (fetch_stale_fallback decodeReadme this w Hf Hfail) in Hrun.
        destruct (cacheFile w) eqn:Hc; injection Hrun as <- <-; simpl;
          rewrite ?cacheFile_afterListRequest, ?cacheFile_afterLoad; auto. }
  assert (∀ content,
            isFresh this w = false →
            listFetchYields decodeReadme this w content →
            cacheFile w'
            = match cacheWrite w with
              | Written =>
                  Stored (Cache.mk
                            (clock w
                             + latency (network w (Validator.awesomeSkillsUrl this)))
                            (parseSkillsFromReadme content))
              | RefusedAtOpen => cacheFile w
              | FailedAfterOpen => Corrupt
              end) as Hwritten.
  { intros content Hf Hok.
    rewrite (fetch_remote_success decodeReadme this w content Hf Hok) in Hrun.
    injection Hrun as <- <-. rewrite cacheFile_afterCacheWrite. simpl.
    now rewrite cacheWrite_afterLoad, cacheFile_afterLoad, clock_afterLoad. }
  split; [exact Hkept |]. split; [exact Hwritten |].
  intros c Hc Hnot.
  destruct (isFresh this w) eqn:Hf.
  { exists c. rewrite <- Hc. apply Hkept. now left. }
  destruct (list_fetch_cases decodeReadme this w) as [Hfail|[content Hok]].
  - exists c. rewrite <- Hc. apply Hkept. now right.
  - rewrite (Hwritten content eq_refl Hok).
    destruct (cacheWrite w); [eauto | eauto | now destruct Hnot].
Qed.

Lemma cache_file_after_call_witness :
  cacheFile (fetchApprovedSkills demoDecodeReadme constructor staleOfflineWorld).2
  = cacheFile staleOfflineWorld
  ∧ cacheFile (fetchApprovedSkills demoDecodeReadme constructor diskFullWorld).2
    = Corrupt.
Proof.
  destruct (cache_file_after_call demoDecodeReadme constructor staleOfflineWorld
              _ _ eq_refl) as (Hkept & _ & _).
  destruct (cache_file_after_call demoDecodeReadme constructor diskFullWorld
              _ _ eq_refl) as (_ & Hwritten & _).
  split.
  - apply Hkept. right. exact I.
  - apply (Hwritten sampleReadme eq_refl).
    exists 200, sampleReadme. repeat split; reflexivity || lia.
Defined.

(** X8. [fetchApprovedSkills] throws exactly when the remote fetch fails
    and no cache is stored, and the only error it throws is the one about
    the missing approved list. *)
Theorem fetch_throws_iff (decodeReadme : string → Outcome string)
    (this : Validator.t) (w : World) :
  ((∃ e w', fetchApprovedSkills decodeReadme this w = (Throw e, w'))
   ↔ listFetchFails decodeReadme this w ∧ ∀ c, cacheFile w ≠ Stored c)
  ∧ ∀ e w',
      fetchApprovedSkills decodeReadme this w = (Throw e, w') →
      e = "Cannot validate skills - no approved list available".
Proof.
  split; [split |].
  - intros (e & w' & Hrun).
    pose proof (fetch_run decodeReadme this w) as H. rewrite Hrun in H.
    inversion H. auto.
  - intros [Hfail Hno]. eexists _, _.
    apply run_fetch. now apply total_failure.
  - intros e w' Hrun.
    pose proof (fetch_run decodeReadme this w) as H. rewrite Hrun in H.
    now inversion H.
Qed.

Lemma fetch_throws_iff_witness :
  ∃ e w', fetchApprovedSkills demoDecodeReadme constructor offlineWorld = (Throw e, w').
Proof.
  destruct (fetch_throws_iff demoDecodeReadme constructor offlineWorld) as [Hiff _].
  apply Hiff. split; [exact I | discriminate].
Defined.

(** ** More about [validateSkill] *)

Section ValidateMore.

Set Default Proof Using "Type".

Variable decodeReadme : string → Outcome string.
Variable parseRepoInfo : string → Outcome Metadata.
Variable this : Validator.t.

Local Abbreviation fetchList := (fetchApprovedSkills decodeReadme this).
Local Abbreviation validate := (validateSkill decodeReadme parseRepoInfo this).
Local Abbreviation repoUrl owner repo :=
  ("https://api.github.com/repos/" +:+ owner +:+ "/" +:+ repo).
Local Abbreviation normalized skillName := (Js.trim (Js.toLowerCase skillName)).

Lemma logAttempt_state (skillName result reason : string) (confirmed : bool) (w : World) :
  logAttempt skillName result reason confirmed w
  = (Return tt, (logAttempt skillName result reason confirmed w).2)
  ∧ auditLog (logAttempt skillName result reason confirmed w).2
    = (if auditWritable w
       then auditLog w ++ [auditAt w skillName result reason confirmed]
       else auditLog w)
  ∧ heap (logAttempt skillName result reason confirmed w).2 = heap w
  ∧ cacheFile (logAttempt skillName result reason confirmed w).2 = cacheFile w
  ∧ requests (logAttempt skillName result reason confirmed w).2 = requests w
  ∧ clock (logAttempt skillName result reason confirmed w).2 = clock w.
Proof. unfold logAttempt. destruct (auditWritable w); repeat split. Qed.

Lemma validate_rejected_state (skillName : string) (w : World) (ls : list loc) (w1 : World) :
  fetchList w = (Return ls, w1) →
  findSkill (matchesName (normalized skillName)) (heap w1) ls = None →
  validate skillName w
  = (Return (Rejected "Not found in awesome-openclaw-skills repository"),
     (logAttempt skillName "REJECTED" "Not found in awesome-openclaw-skills"
        false w1).2).
Proof.
  intros Hfetch Hfind. unfold validateSkill, tryCatch. unfold bind at 1.
  rewrite Hfetch. unfold bind at 1, find. rewrite Hfind. unfold bind.
  destruct (logAttempt_state skillName "REJECTED"
              "Not found in awesome-openclaw-skills" false w1) as [-> _].
  reflexivity.
Qed.

Lemma validate_throws_state (skillName : string) (w : World) (e : string) (w1 : World) :
  fetchList w = (Throw e, w1) →
  validate skillName w
  = (Throw e, (logAttempt skillName "ERROR" e false w1).2).
Proof.
  intros Hfetch. unfold validateSkill, tryCatch. unfold bind at 1.
  rewrite Hfetch. unfold bind, throw.
  destruct (logAttempt_state skillName "ERROR" e false w1) as [-> _].
  reflexivity.
Qed.

Lemma validate_approved_state (skillName : string) (w : World) (ls : list loc)
    (w1 : World) (l : loc) (s : Skill.t) :
  fetchList w = (Return ls, w1) →
  findSkill (matchesName (normalized skillName)) (heap w1) ls = Some l →
  heap w1 !! l = Some s →
  ∃ m,
    let w2 := afterRequest (repoUrl (Skill.owner s) (Skill.repo s))
                (latency (network w1 (repoUrl (Skill.owner s) (Skill.repo s)))) w1 in
    (repoFetchFails parseRepoInfo (Skill.owner s) (Skill.repo s) w1 →
     m = Obj RepoInfo.empty)
    ∧ validate skillName w
      = (Return (Approved l (calculateSafetyScore (clock w2) m)),
         withHeap
           (<[l := setSafetyScore (calculateSafetyScore (clock w2) m)
                     (setRepoInfo m s)]> (heap w1)) w2).
Proof.
  intros Hfetch Hfind Hl.
  destruct (validate_approved decodeReadme parseRepoInfo this skillName
              w ls w1 l s Hfetch Hfind Hl) as (m & w2 & Hm & _ & _ & Hrun).
  destruct (fetchRepoInfo_run parseRepoInfo (Skill.owner s) (Skill.repo s) w1)
    as (m' & Hm' & Hfail).
  rewrite Hm' in Hm. injection Hm as -> <-.
  exists m. split; [exact Hfail | exact Hrun].
Qed.

Lemma findSkill_in (p : Skill.t → bool) (h : list Skill.t) (ls : list loc)
    (os : list Skill.t) (l : loc) :
  objectsAt h ls = Some os →
  findSkill p h ls = Some l →
  ∃ o, o ∈ os ∧ h !! l = Some o ∧ p o = true.
Proof.
  rewrite objectsAt_Forall2. intros H.
  induction H as [|l0 o ls os Hl H IH]; simpl; [discriminate |].
  rewrite Hl. destruct (p o) eqn:Hp.
  - intros [= <-]. exists o. split; [apply elem_of_cons; now left | auto].
  - intros Hfind. destruct (IH Hfind) as (o' & Hin & Hlo & Hpo).
    exists o'. split; [apply elem_of_cons; now right | auto].
Qed.

Lemma findSkill_exists (p : Skill.t → bool) (h : list Skill.t) (ls : list loc)
    (os : list Skill.t) (o : Skill.t) :
  objectsAt h ls = Some os →
  o ∈ os → p o = true →
  ∃ l, findSkill p h ls = Some l.
Proof.
  intros Hobj Hin Hp.
  destruct (findSkill p h ls) as [l|] eqn:Hfind; [now exists l |].
  exfalso. revert Hfind Hin. apply objectsAt_Forall2 in Hobj.
  induction Hobj as [|l0 o0 ls os Hl H IH]; simpl.
  - intros _ Hin. inversion Hin.
  - rewrite Hl. destruct (p o0) eqn:Hp0; [discriminate |].
    intros Hfind [->|Hin]%elem_of_cons; [congruence | now apply IH].
Qed.

(** The three ways a call of [validateSkill] ends, by what the lookup
    finds in the list that [fetchApprovedSkills] returned. *)
Lemma validate_cases (skillName : string) (w : World) :
  match fetchList w with
  | (Throw e, w1) =>
      validate skillName w
      = (Throw e, (logAttempt skillName "ERROR" e false w1).2)
  | (Return ls, w1) =>
      match findSkill (matchesName (normalized skillName)) (heap w1) ls with
      | None =>
          validate skillName w
          = (Return (Rejected "Not found in awesome-openclaw-skills repository"),
             (logAttempt skillName "REJECTED"
                "Not found in awesome-openclaw-skills" false w1).2)
      | Some l =>
          ∃ s m,
            heap w1 !! l = Some s
            ∧ matchesName (normalized skillName) s = true
            ∧ (repoFetchFails parseRepoInfo (Skill.owner s) (Skill.repo s) w1 →
               m = Obj RepoInfo.empty)
            ∧ validate skillName w
              = (Return
                   (Approved l
                      (calculateSafetyScore
                         (clock w1
                          + latency (network w1
                                       (repoUrl (Skill.owner s) (Skill.repo s))))
                         m)),
                 withHeap
                   (<[l := setSafetyScore
                             (calculateSafetyScore
                                (clock w1
                                 + latency (network w1
                                              (repoUrl (Skill.owner s) (Skill.repo s))))
                                m)
                             (setRepoInfo m s)]> (heap w1))
                   (afterRequest (repoUrl (Skill.owner s) (Skill.repo s))
                      (latency (network w1 (repoUrl (Skill.owner s) (Skill.repo s))))
                      w1))
      end
  end.
Proof.
  destruct (fetchList w) as [[ls|e] w1] eqn:Hfetch.
  - destruct (findSkill (matchesName (normalized skillName)) (heap w1) ls)
      as [l|] eqn:Hfind.
    + destruct (findSkill_Some _ _ _ _ Hfind) as (s & Hs & Hp).
      destruct (validate_approved_state skillName w ls w1 l s Hfetch Hfind Hs)
        as (m & Hfail & Hrun).
      exists s, m. auto.
    + exact (validate_rejected_state skillName w ls w1 Hfetch Hfind).
  - exact (validate_throws_state skillName w e w1 Hfetch).
Qed.

End ValidateMore.

(** What [validateSkill] writes to the audit log, by its result. *)
Lemma validate_audit_log
    (decodeReadme : string → Outcome string)
    (parseRepoInfo : string → Outcome Metadata)
    (this : Validator.t) (skillName : string)
    (w : World) (r : Outcome ValidationResult) (w2 : World) :
  validateSkill decodeReadme parseRepoInfo this skillName w = (r, w2) →
  auditLog w2
  = match r with
    | Return (Approved _ _) => auditLog w
    | Return (Rejected _) =>
        if auditWritable w
        then auditLog w
             ++ [mkAudit (clock (fetchApprovedSkills decodeReadme this w).2)
                   skillName "REJECTED" "Not found in awesome-openclaw-skills" false]
        else auditLog w
    | Throw e =>
        if auditWritable w
        then auditLog w
             ++ [mkAudit (clock (fetchApprovedSkills decodeReadme this w).2)
                   skillName "ERROR" e false]
        else auditLog w
    end.
Proof.
  intros Hrun.
  pose proof (validate_cases decodeReadme parseRepoInfo this skillName w) as Hcases.
  destruct (run_frame decodeReadme this w _ _ (fetch_run decodeReadme this w))
    as (Hlog & Hwr & _ & _).
  destruct (fetchApprovedSkills decodeReadme this w) as [[ls|e] w1]; simpl in *.
  - destruct (findSkill _ (heap w1) ls) as [l|].
    + destruct Hcases as (s & m & _ & _ & _ & Hv).
      rewrite Hv in Hrun. injection Hrun as <- <-. exact Hlog.
    + rewrite Hcases in Hrun. injection Hrun as <- <-.
      destruct (logAttempt_state skillName "REJECTED"
                  "Not found in awesome-openclaw-skills" false w1)
        as (_ & -> & _).
      now rewrite Hwr, Hlog.
  - rewrite Hcases in Hrun. injection Hrun as <- <-.
    destruct (logAttempt_state skillName "ERROR" e false w1) as (_ & -> & _).
    now rewrite Hwr, Hlog.
Qed.

(** X9. The audit trail of [validateSkill]: an approval writes nothing to
    the audit log; a rejection appends one REJECTED record and a thrown
    error one ERROR record with the message of the error, each with the
    name as it was given and the time at which the list was there; when
    the log cannot be written the log stays as it is. *)
Theorem validate_audit_trail
    (decodeReadme : string → Outcome string)
    (parseRepoInfo : string → Outcome Metadata)
    (this : Validator.t) (skillName : string)
    (w : World) (r : Outcome ValidationResult) (w2 : World) :
  validateSkill decodeReadme parseRepoInfo this skillName w = (r, w2) →
  auditLog w2
  = match r with
    | Return (Approved _ _) => auditLog w
    | Return (Rejected _) =>
        if auditWritable w
        then auditLog w
             ++ [mkAudit (clock (fetchApprovedSkills decodeReadme this w).2)
                   skillName "REJECTED" "Not found in awesome-openclaw-skills" false]
        else auditLog w
    | Throw e =>
        if auditWritable w
        then auditLog w
             ++ [mkAudit (clock (fetchApprovedSkills decodeReadme this w).2)
                   skillName "ERROR" e false]
        else auditLog w
    end.
Proof. apply validate_audit_log. Qed.

Lemma validate_audit_trail_witness :
  auditLog (validateSkill demoDecodeReadme demoParseRepoInfo constructor
              " Nonexistent-XYZ " staleOfflineWorld).2
  = [mkAudit (exampleNow + 30) " Nonexistent-XYZ " "REJECTED"
       "Not found in awesome-openclaw-skills" false].
Proof.
  apply (validate_audit_trail demoDecodeReadme demoParseRepoInfo constructor
           " Nonexistent-XYZ " staleOfflineWorld
           (Return (Rejected "Not found in awesome-openclaw-skills repository"))).
  reflexivity.
Defined.

(** X10. [validateSkill] throws exactly when [fetchApprovedSkills] does,
    and then the same error: neither a failed metadata fetch nor an audit
    log that cannot be written makes it throw. *)
Theorem validate_throws_iff
    (decodeReadme : string → Outcome string)
    (parseRepoInfo : string → Outcome Metadata)
    (this : Validator.t) (skillName : string) (w : World) (e : string) :
  (∃ w2, validateSkill decodeReadme parseRepoInfo this skillName w = (Throw e, w2))
  ↔ ∃ w1, fetchApprovedSkills decodeReadme this w = (Throw e, w1).
Proof.
  pose proof (validate_cases decodeReadme parseRepoInfo this skillName w) as Hcases.
  destruct (fetchApprovedSkills decodeReadme this w) as [[ls|e1] w1].
  - split; [|intros [w1' H]; discriminate].
    intros [w2 Hrun]. destruct (findSkill _ (heap w1) ls) as [l|].
    + destruct Hcases as (s & m & _ & _ & _ & Hv). rewrite Hv in Hrun. discriminate.
    + rewrite Hcases in Hrun. discriminate.
  - rewrite Hcases. split.
    + intros [w2 [= -> _]]. now exists w1.
    + intros [w1' [= -> _]]. eexists. reflexivity.
Qed.

Lemma validate_throws_iff_witness :
  ∃ w2,
    validateSkill demoDecodeReadme demoParseRepoInfo constructor "weather"
      offlineWorld
    = (Throw "Cannot validate skills - no approved list available", w2).
Proof.
  apply (validate_throws_iff demoDecodeReadme demoParseRepoInfo constructor
           "weather" offlineWorld).
  eexists. reflexivity.
Defined.

(** X11. The decision of [validateSkill]: with the list at hand, the
    skill is approved exactly when some entry of the list passes one of
    the three tests for the normalized name, and rejected exactly when
    none does. *)
Theorem approved_iff_some_match
    (decodeReadme : string → Outcome string)
    (parseRepoInfo : string → Outcome Metadata)
    (this : Validator.t) (skillName : string)
    (w : World) (ls : list loc) (w1 : World) (entries : list Skill.t) :
  fetchApprovedSkills decodeReadme this w = (Return ls, w1) →
  objectsAt (heap w1) ls = Some entries →
  ((∃ l safetyScore w2,
      validateSkill decodeReadme parseRepoInfo this skillName w
      = (Return (Approved l safetyScore), w2))
   ↔ ∃ e, e ∈ entries ∧ Matches (Js.trim (Js.toLowerCase skillName)) e)
  ∧ ((∃ reason w2,
        validateSkill decodeReadme parseRepoInfo this skillName w
        = (Return (Rejected reason), w2))
     ↔ ∀ e, e ∈ entries → ¬ Matches (Js.trim (Js.toLowerCase skillName)) e).
Proof.
  intros Hfetch Hobj.
  pose proof (validate_cases decodeReadme parseRepoInfo this skillName w) as Hcases.
  rewrite Hfetch in Hcases.
  destruct (findSkill (matchesName (Js.trim (Js.toLowerCase skillName)))
              (heap w1) ls) as [l|] eqn:Hfind.
  - destruct Hcases as (s & m & _ & _ & _ & Hv).
    destruct (findSkill_in _ _ _ _ _ Hobj Hfind) as (o & Hin & _ & Hp).
    apply matchesName_Matches in Hp. split; split.
    + intros _. eauto.
    + intros _. eexists _, _, _. exact Hv.
    + intros (reason & w2 & Hr). rewrite Hv in Hr. discriminate.
    + intros Hnone. now destruct (Hnone o Hin).
  - split; split.
    + intros (l & score & w2 & Hr). rewrite Hcases in Hr. discriminate.
    + intros (e & Hin & He). apply matchesName_Matches in He.
      destruct (findSkill_exists _ _ _ _ _ Hobj Hin He) as [l Hl]. congruence.
    + intros _ e Hin He. apply matchesName_Matches in He.
      destruct (findSkill_exists _ _ _ _ _ Hobj Hin He) as [l Hl]. congruence.
    + intros _. eexists _, _. exact Hcases.
Qed.

Lemma approved_iff_some_match_witness :
  ∃ l safetyScore w2,
    validateSkill demoDecodeReadme demoParseRepoInfo constructor "FORECAST"
      cachedWorld
    = (Return (Approved l safetyScore), w2).
Proof.
  destruct (approved_iff_some_match demoDecodeReadme demoParseRepoInfo
              constructor "FORECAST" cachedWorld [0%nat; 1%nat]
              (fetchApprovedSkills demoDecodeReadme constructor cachedWorld).2
              [alphaEntry; weatherEntry] eq_refl eq_refl) as [Hiff _].
  apply Hiff. exists weatherEntry. split.
  - apply elem_of_cons. right. apply elem_of_cons. now left.
  - right. left. reflexivity.
Defined.

(** X12. A name that is blank once lowercased and trimmed passes the
    substring test on every entry: with a list that is not empty,
    [validateSkill] approves the first entry of the list. *)
Theorem blank_name_approves_first
    (decodeReadme : string → Outcome string)
    (parseRepoInfo : string → Outcome Metadata)
    (this : Validator.t) (skillName : string)
    (w : World) (l : loc) (ls : list loc) (w1 : World) :
  fetchApprovedSkills decodeReadme this w = (Return (l :: ls), w1) →
  Js.trim (Js.toLowerCase skillName) = "" →
  ∃ safetyScore w2,
    validateSkill decodeReadme parseRepoInfo this skillName w
    = (Return (Approved l safetyScore), w2).
Proof.
  intros Hfetch Hblank.
  destruct (fetch_store decodeReadme this w _ _ Hfetch) as [_ Hobj].
  destruct (Hobj _ eq_refl) as [os Hos].
  apply objectsAt_Forall2 in Hos. inversion Hos as [|? o ? os' Hl _]; subst.
  pose proof (validate_cases decodeReadme parseRepoInfo this skillName w) as Hcases.
  rewrite Hfetch, Hblank in Hcases. simpl in Hcases. rewrite Hl in Hcases.
  assert (matchesName "" o = true) as Hp.
  { apply matchesName_Matches. right. right.
    exists "", (Js.toLowerCase (Skill.repo o)). reflexivity. }
  rewrite Hp in Hcases. destruct Hcases as (s & m & _ & _ & _ & Hv).
  eexists _, _. exact Hv.
Qed.

Lemma blank_name_approves_first_witness :
  ∃ safetyScore w2,
    validateSkill demoDecodeReadme demoParseRepoInfo constructor "   " cachedWorld
    = (Return (Approved 0%nat safetyScore), w2).
Proof.
  apply (blank_name_approves_first demoDecodeReadme demoParseRepoInfo constructor
           "   " cachedWorld 0%nat [1%nat]
           (fetchApprovedSkills demoDecodeReadme constructor cachedWorld).2);
    reflexivity.
Defined.

(** X13. A failed metadata fetch does not change the decision: the first
    matching entry is approved all the same, with the empty object as its
    [repoInfo] and 0 as its score. *)
Theorem metadata_failure_keeps_approval
    (decodeReadme : string → Outcome string)
    (parseRepoInfo : string → Outcome Metadata)
    (this : Validator.t) (skillName : string)
    (w : World) (ls : list loc) (w1 : World) (entries : list Skill.t)
    (i : nat) (e : Skill.t) :
  fetchApprovedSkills decodeReadme this w = (Return ls, w1) →
  objectsAt (heap w1) ls = Some entries →
  entries !! i = Some e →
  Matches (Js.trim (Js.toLowerCase skillName)) e →
  (∀ j e', (j < i)%nat → entries !! j = Some e' →
           ¬ Matches (Js.trim (Js.toLowerCase skillName)) e') →
  repoFetchFails parseRepoInfo (Skill.owner e) (Skill.repo e) w1 →
  ∃ l w2,
    ls !! i = Some l
    ∧ validateSkill decodeReadme parseRepoInfo this skillName w
      = (Return (Approved l 0), w2)
    ∧ heap w2 !! l
      = Some (setSafetyScore 0 (setRepoInfo (Obj RepoInfo.empty) e)).
Proof.
  intros Hfetch Hobj Hi He Hbefore Hfail.
  destruct (findSkill_first
              (matchesName (Js.trim (Js.toLowerCase skillName)))
              (heap w1) ls entries i e Hobj Hi)
    as (l & Hl & Hle & Hfind).
  { now apply matchesName_Matches. }
  { intros j e' Hj He'. apply matchesName_not_Matches. eauto. }
  destruct (validate_approved_state decodeReadme parseRepoInfo this skillName
              w ls w1 l e Hfetch Hfind Hle) as (m & Hm & Hrun).
  rewrite (Hm Hfail) in Hrun.
  exists l. eexists. split; [exact Hl |]. split; [exact Hrun |].
  simpl. apply list_lookup_insert_eq. eapply lookup_lt_Some. exact Hle.
Qed.

Lemma metadata_failure_keeps_approval_witness :
  ∃ l w2,
    [2%nat; 3%nat] !! 0%nat = Some l
    ∧ validateSkill demoDecodeReadme demoParseRepoInfo constructor "alpha"
        staleOfflineWorld
      = (Return (Approved l 0), w2)
    ∧ heap w2 !! l
      = Some (setSafetyScore 0 (setRepoInfo (Obj RepoInfo.empty) alphaEntry)).
Proof.
  apply (metadata_failure_keeps_approval demoDecodeReadme demoParseRepoInfo
           constructor "alpha" staleOfflineWorld [2%nat; 3%nat]
           (fetchApprovedSkills demoDecodeReadme constructor staleOfflineWorld).2
           [alphaEntry; weatherEntry] 0%nat alphaEntry).
  - reflexivity.
  - reflexivity.
  - reflexivity.
  - left. reflexivity.
  - intros j e' Hj. lia.
  - exact I.
Defined.

(** X14. The score of an approval is the score on the skill: the approved
    entry then carries a [repoInfo] and a [safetyScore], the
    [safetyScore] is the one of the result, it is the score of that
    [repoInfo] at the time of the answer, and it lies between 0 and 10. *)
Theorem approved_score_is_stored
    (decodeReadme : string → Outcome string)
    (parseRepoInfo : string → Outcome Metadata)
    (this : Validator.t) (skillName : string)
    (w : World) (l : loc) (safetyScore : Z) (w2 : World) :
  validateSkill decodeReadme parseRepoInfo this skillName w
  = (Return (Approved l safetyScore), w2) →
  0 ≤ safetyScore ≤ 10
  ∧ ∃ s m,
      heap w2 !! l = Some s
      ∧ Skill.repoInfo s = Some m
      ∧ Skill.safetyScore s = Some safetyScore
      ∧ safetyScore = calculateSafetyScore (clock w2) m.
Proof.
  intros Hrun.
  pose proof (validate_cases decodeReadme parseRepoInfo this skillName w) as Hcases.
  destruct (fetchApprovedSkills decodeReadme this w) as [[ls|e] w1].
  - destruct (findSkill _ (heap w1) ls) as [l0|].
    + destruct Hcases as (s & m & Hs & _ & _ & Hv).
      rewrite Hv in Hrun. injection Hrun as <- <- <-.
      split; [apply score_range |].
      eexists _, m. split.
      { simpl. apply list_lookup_insert_eq. eapply lookup_lt_Some. exact Hs. }
      repeat split.
    + rewrite Hcases in Hrun. discriminate.
  - rewrite Hcases in Hrun. discriminate.
Qed.

Lemma approved_score_is_stored_witness :
  0 ≤ 5 ≤ 10
  ∧ ∃ s m,
      heap (validateSkill demoDecodeReadme demoParseRepoInfo constructor
              "weather-forecast" firstRunWorld).2 !! 0%nat = Some s
      ∧ Skill.repoInfo s = Some m
      ∧ Skill.safetyScore s = Some 5
      ∧ 5 = calculateSafetyScore
              (clock (validateSkill demoDecodeReadme demoParseRepoInfo constructor
                        "weather-forecast" firstRunWorld).2) m.
Proof.
  apply (approved_score_is_stored demoDecodeReadme demoParseRepoInfo constructor
           "weather-forecast" firstRunWorld 0%nat 5).
  reflexivity.
Defined.

(** X15. The requests of one call: [fetchApprovedSkills] sends at most
    one request, for the list; [validateSkill] sends after it one request
    for the metadata of the approved entry, and none when it rejects or
    throws.  No request is sent twice. *)
Theorem validate_requests
    (decodeReadme : string → Outcome string)
    (parseRepoInfo : string → Outcome Metadata)
    (this : Validator.t) (skillName : string)
    (w : World) (r : Outcome ValidationResult) (w2 : World) :
  validateSkill decodeReadme parseRepoInfo this skillName w = (r, w2) →
  ∃ listRequests,
    (listRequests = [] ∨ listRequests = [Validator.awesomeSkillsUrl this])
    ∧ requests (fetchApprovedSkills decodeReadme this w).2
      = requests w ++ listRequests
    ∧ match r with
      | Return (Approved l _) =>
          ∃ s,
            heap w2 !! l = Some s
            ∧ requests w2
              = requests w ++ listRequests
                ++ ["https://api.github.com/repos/" +:+ Skill.owner s
                    +:+ "/" +:+ Skill.repo s]
      | Return (Rejected _) | Throw _ => requests w2 = requests w ++ listRequests
      end.
Proof.
  intros Hrun.
  pose proof (validate_cases decodeReadme parseRepoInfo this skillName w) as Hcases.
  pose proof (run_requests decodeReadme this w _ _ (fetch_run decodeReadme this w))
    as Hreq.
  assert (∃ listRequests,
            (listRequests = [] ∨ listRequests = [Validator.awesomeSkillsUrl this])
            ∧ requests (fetchApprovedSkills decodeReadme this w).2
              = requests w ++ listRequests) as (rs & Hrs & Hreq').
  { destruct Hreq as [Hreq|Hreq].
    - exists []. split; [now left | now rewrite app_nil_r].
    - eexists. split; [now right | exact Hreq]. }
  exists rs. split; [exact Hrs |]. split; [exact Hreq' |].
  destruct (fetchApprovedSkills decodeReadme this w) as [[ls|e] w1];
    simpl in Hreq'.
  - destruct (findSkill _ (heap w1) ls) as [l0|].
    + destruct Hcases as (s & m & Hs & _ & _ & Hv).
      rewrite Hv in Hrun. injection Hrun as <- <-.
      eexists. split.
      { simpl. apply list_lookup_insert_eq. eapply lookup_lt_Some. exact Hs. }
      simpl. now rewrite Hreq', <- app_assoc.
    + rewrite Hcases in Hrun. injection Hrun as <- <-.
      destruct (logAttempt_state skillName "REJECTED"
                  "Not found in awesome-openclaw-skills" false w1)
        as (_ & _ & _ & _ & -> & _).
      exact Hreq'.
  - rewrite Hcases in Hrun. injection Hrun as <- <-.
    destruct (logAttempt_state skillName "ERROR" e false w1)
      as (_ & _ & _ & _ & -> & _).
    exact Hreq'.
Qed.

Lemma validate_requests_witness :
  ∃ listRequests,
    (listRequests = [] ∨ listRequests = [Validator.awesomeSkillsUrl constructor])
    ∧ requests (fetchApprovedSkills demoDecodeReadme constructor firstRunWorld).2
      = requests firstRunWorld ++ listRequests
    ∧ requests (validateSkill demoDecodeReadme demoParseRepoInfo constructor
                  "no-such-skill" firstRunWorld).2
      = requests firstRunWorld ++ listRequests.
Proof.
  apply (validate_requests demoDecodeReadme demoParseRepoInfo constructor
           "no-such-skill" firstRunWorld
           (Return (Rejected "Not found in awesome-openclaw-skills repository"))).
  reflexivity.
Defined.

(** ** The prompt *)

Section PromptFacts.

Lemma lowerChar_idempotent (c : ascii) :
  Js.lowerChar (Js.lowerChar c) = Js.lowerChar c.
Proof.
  destruct c as [b0 b1 b2 b3 b4 b5 b6 b7].
  destruct b0, b1, b2, b3, b4, b5, b6, b7; vm_compute; reflexivity.
Qed.

Lemma toLowerCase_idempotent (s : string) :
  Js.toLowerCase (Js.toLowerCase s) = Js.toLowerCase s.
Proof.
  induction s as [|c s IH]; simpl; [reflexivity |].
  now rewrite lowerChar_idempotent, IH.
Qed.

Lemma toLowerCase_append (a b : string) :
  Js.toLowerCase (a +:+ b) = Js.toLowerCase a +:+ Js.toLowerCase b.
Proof. induction a as [|c a IH]; simpl; [reflexivity | now rewrite IH]. Qed.

Lemma blank_append (a b : string) : blank a → blank b → blank (a +:+ b).
Proof. induction a as [|c a IH]; simpl; [auto | intros [Hc Ha] Hb; auto]. Qed.

Lemma trimStart_blank (a x : string) :
  blank a → Js.trimStart (a +:+ x) = Js.trimStart x.
Proof.
  induction a as [|c a IH]; simpl; [reflexivity |].
  intros [Hc Ha]. rewrite Hc. now apply IH.
Qed.

Lemma trimEnd_blank_nil (b : string) : blank b → Js.trimEnd b = "".
Proof.
  induction b as [|c b IH]; simpl; [reflexivity |].
  intros [Hc Hb]. now rewrite (IH Hb), Hc.
Qed.

Lemma trimEnd_blank (x b : string) :
  blank b → Js.trimEnd (x +:+ b) = Js.trimEnd x.
Proof.
  intros Hb. induction x as [|c x IH]; simpl.
  - now apply trimEnd_blank_nil.
  - now rewrite IH.
Qed.

Lemma trim_core_blank (x b : string) :
  blank b → Js.trim (x +:+ b) = Js.trim x.
Proof.
  intros Hb. unfold Js.trim. induction x as [|c x IH].
  - simpl. replace (Js.trimStart b) with (Js.trimStart (b +:+ ""))
      by now rewrite append_nil_r.
    now rewrite (trimStart_blank b "" Hb).
  - simpl. destruct (Js.isWhiteSpace c); [exact IH |].
    change (String c (x +:+ b)) with (String c x +:+ b).
    now apply trimEnd_blank.
Qed.

(** White space around the text does not count for [trim]. *)
Lemma trim_padding (a x b : string) :
  blank a → blank b → Js.trim (a +:+ x +:+ b) = Js.trim x.
Proof.
  intros Ha Hb. unfold Js.trim. rewrite (trimStart_blank a _ Ha).
  now apply trim_core_blank.
Qed.

Lemma trimStart_split (s : string) :
  ∃ a, s = a +:+ Js.trimStart s ∧ blank a.
Proof.
  induction s as [|c s (a & Hs & Ha)]; simpl.
  - now exists "".
  - destruct (Js.isWhiteSpace c) eqn:Hc.
    + exists (String c a). simpl. split; [now rewrite <- Hs | auto].
    + now exists "".
Qed.

Lemma trimEnd_split (s : string) :
  ∃ b, s = Js.trimEnd s +:+ b ∧ blank b.
Proof.
  induction s as [|c s (b & Hs & Hb)]; simpl.
  - now exists "".
  - destruct (Js.isWhiteSpace c && Js.isEmpty (Js.trimEnd s)) eqn:Hc.
    + apply andb_true_iff in Hc as [Hc He]. apply isEmpty_true in He.
      exists (String c s). split; [reflexivity |]. simpl. split; [exact Hc |].
      rewrite Hs, He. exact Hb.
    + exists b. simpl. split; [now rewrite <- Hs | exact Hb].
Qed.

(** A string is its trimmed text between two runs of white space. *)
Lemma trim_split (s : string) :
  ∃ a b, s = a +:+ Js.trim s +:+ b ∧ blank a ∧ blank b.
Proof.
  destruct (trimStart_split s) as (a & Hs & Ha).
  destruct (trimEnd_split (Js.trimStart s)) as (b & Ht & Hb).
  exists a, b. unfold Js.trim. split; [|auto]. now rewrite <- Ht.
Qed.

End PromptFacts.

(** X16. The level and the icon the prompt shows for a score always go
    together (Excellent with the shield, Good with the lock, Fair with
    the warning sign, Low with the siren), and metadata without a star
    count that counts (a failed fetch, no stars, zero stars) is shown as
    Low with the siren. *)
Theorem level_and_icon_agree (safetyScore now : Z) (repoInfo : Metadata) :
  (safetyLevel safetyScore = "Excellent" ↔ safetyIcon safetyScore = ShieldIcon)
  ∧ (safetyLevel safetyScore = "Good" ↔ safetyIcon safetyScore = LockIcon)
  ∧ (safetyLevel safetyScore = "Fair" ↔ safetyIcon safetyScore = WarningIcon)
  ∧ (safetyLevel safetyScore = "Low" ↔ safetyIcon safetyScore = SirenIcon)
  ∧ (match repoInfo with
     | Falsy => True
     | Obj info => truthyNum (RepoInfo.stargazers_count info) = false
     end →
     safetyLevel (calculateSafetyScore now repoInfo) = "Low"
     ∧ safetyIcon (calculateSafetyScore now repoInfo) = SirenIcon).
Proof.
  unfold safetyLevel, safetyIcon.
  repeat split;
    try (destruct (7 <=? safetyScore), (5 <=? safetyScore), (3 <=? safetyScore);
         intros H; (reflexivity || discriminate H)).
  - destruct repoInfo as [|info]; [reflexivity |].
    now rewrite (score_falsy_stars now info H).
  - destruct repoInfo as [|info]; [reflexivity |].
    now rewrite (score_falsy_stars now info H).
Qed.

Lemma level_and_icon_agree_witness :
  safetyLevel (calculateSafetyScore exampleNow (Obj (unstarredRepo exampleNow)))
  = "Low"
  ∧ safetyIcon (calculateSafetyScore exampleNow (Obj (unstarredRepo exampleNow)))
    = SirenIcon.
Proof.
  destruct (level_and_icon_agree 0 exampleNow (Obj (unstarredRepo exampleNow)))
    as (_ & _ & _ & _ & Hlow).
  apply Hlow. reflexivity.
Defined.

(** X17. The answer at the prompt confirms exactly when it is [y] or
    [yes] in any mix of upper and lower case, with any white space before
    and after it; everything else, the empty line among it, declines. *)
Theorem confirmed_iff (answer : string) :
  confirmed answer = true
  ↔ ∃ before core after,
      answer = before +:+ core +:+ after
      ∧ blank before ∧ blank after
      ∧ (Js.toLowerCase core = "y" ∨ Js.toLowerCase core = "yes").
Proof.
  unfold confirmed. rewrite orb_true_iff, !String.eqb_eq. split.
  - intros H. destruct (trim_split answer) as (a & b & Hs & Ha & Hb).
    exists a, (Js.trim answer), b. rewrite <- trim_toLowerCase. auto.
  - intros (a & core & b & -> & Ha & Hb & Hcore).
    rewrite trim_toLowerCase, (trim_padding a core b Ha Hb), <- trim_toLowerCase.
    destruct Hcore as [-> | ->]; [now left | now right].
Qed.

Lemma confirmed_iff_witness : confirmed "  YeS " = true ∧ confirmed "" = false.
Proof.
  split.
  - apply (proj2 (confirmed_iff "  YeS ")).
    exists "  ", "YeS", " ". repeat split; try reflexivity. now right.
  - reflexivity.
Defined.

(** ** The command line *)

Section MainFacts.

Set Default Proof Using "Type".

Variable decodeReadme : string → Outcome string.
Variable parseRepoInfo : string → Outcome Metadata.

Local Abbreviation validate :=
  (validateSkill decodeReadme parseRepoInfo constructor).
Local Abbreviation run := (main decodeReadme parseRepoInfo).

Lemma main_no_name (argv2 : option string) (updatedAt : UpdatedAt)
    (keyboard : Keyboard) (w : World) :
  argv2 = None ∨ argv2 = Some "" → run argv2 updatedAt keyboard w = (Exit 1, w).
Proof. intros [-> | ->]; reflexivity. Qed.

Lemma main_named (skillName : string) (updatedAt : UpdatedAt)
    (keyboard : Keyboard) (w : World) :
  skillName ≠ "" →
  run (Some skillName) updatedAt keyboard w
  = match validate skillName w with
    | (Return (Rejected _), w1) => (Exit 1, w1)
    | (Return (Approved l _), w1) =>
        match heap w1 !! l with
        | None => (Exit 1, w1)
        | Some s =>
            if splitThrows updatedAt (Skill.repoInfo s) then (Exit 1, w1)
            else match keyboard with
                 | Typed answer =>
                     if confirmed answer
                     then (Exit 0, (logAttempt skillName "APPROVED"
                                      "User confirmed installation" true w1).2)
                     else (Exit 1, (logAttempt skillName "DECLINED"
                                      "User declined installation" false w1).2)
                 | EndOfInput => (Drained, w1)
                 | Silent => (Waiting, w1)
                 end
        end
    | (Throw _, w1) => (Exit 1, w1)
    end.
Proof.
  intros Hne. unfold main. apply isEmpty_false in Hne. rewrite Hne.
  destruct (validate skillName w) as [[[reason|l score]|e] w1]; try reflexivity.
  unfold promptInstallation, bind, readObj.
  destruct (heap w1 !! l) as [s|]; [|reflexivity].
  destruct (splitThrows updatedAt (Skill.repoInfo s)); [reflexivity |].
  destruct keyboard as [answer| |]; reflexivity.
Qed.


(** What can be written is the same after [validateSkill]. *)
Lemma validate_auditWritable (skillName : string) (w : World) :
  auditWritable (validate skillName w).2 = auditWritable w.
Proof.
  pose proof (validate_cases decodeReadme parseRepoInfo constructor skillName w)
    as Hcases.
  destruct (run_frame decodeReadme constructor w _ _
              (fetch_run decodeReadme constructor w)) as (_ & Hwr & _ & _).
  destruct (fetchApprovedSkills decodeReadme constructor w) as [[ls|e] w1];
    simpl in Hwr.
  - destruct (findSkill _ (heap w1) ls) as [l|].
    + destruct Hcases as (s & m & _ & _ & _ & ->). exact Hwr.
    + rewrite Hcases. simpl. unfold logAttempt.
      destruct (auditWritable w1) eqn:E; simpl; congruence.
  - rewrite Hcases. simpl. unfold logAttempt.
    destruct (auditWritable w1) eqn:E; simpl; congruence.
Qed.

End MainFacts.



(** X19. Every run of [main] with a name in which the user answers the
    prompt and the metadata is of the documented types, on a writable
    audit log, appends exactly one record to the log, with the name as it
    was given: REJECTED, ERROR, APPROVED or DECLINED.  The record says
    APPROVED, and that the user confirmed, exactly when the exit code is
    0. *)
Theorem main_audit_record
    (decodeReadme : string → Outcome string)
    (parseRepoInfo : string → Outcome Metadata)
    (skillName answer : string) (updatedAt : UpdatedAt) (w : World) :
  skillName ≠ "" →
  auditWritable w = true →
  updatedAt ≠ NoSplit →
  ∃ record,
    auditLog (main decodeReadme parseRepoInfo (Some skillName) updatedAt
                (Typed answer) w).2
    = auditLog w ++ [record]
    ∧ audit_skillName record = skillName
    ∧ (audit_result record = "REJECTED" ∨ audit_result record = "ERROR"
       ∨ audit_result record = "APPROVED" ∨ audit_result record = "DECLINED")
    ∧ (audit_result record = "APPROVED"
       ↔ (main decodeReadme parseRepoInfo (Some skillName) updatedAt
            (Typed answer) w).1 = Exit 0)
    ∧ (audit_userConfirmed record = true
       ↔ (main decodeReadme parseRepoInfo (Some skillName) updatedAt
            (Typed answer) w).1 = Exit 0).
Proof.
  intros Hne Hwr Htext.
  assert (∀ m, splitThrows updatedAt m = false) as Hsplit.
  { intros [[|info]|]; destruct updatedAt; try reflexivity. now destruct Htext. }
  rewrite (main_named decodeReadme parseRepoInfo skillName updatedAt
             (Typed answer) w Hne).
  pose proof (validate_auditWritable decodeReadme parseRepoInfo skillName w) as Hwr2.
  pose proof (validate_cases decodeReadme parseRepoInfo constructor skillName w)
    as Hcases.
  destruct (validateSkill decodeReadme parseRepoInfo constructor skillName w)
    as [r w1] eqn:Hrun.
  pose proof (validate_audit_log decodeReadme parseRepoInfo constructor
                skillName w r w1 Hrun) as Hlog.
  simpl in Hwr2. rewrite Hwr in Hlog, Hwr2.
  destruct r as [[reason|l score]|e].
  - eexists. split; [exact Hlog |]. simpl.
    split; [reflexivity |]. split; [now left |]. split; split; discriminate.
  - assert (∃ s, heap w1 !! l = Some s) as [s Hs].
    { destruct (fetchApprovedSkills decodeReadme constructor w) as [[ls|err] w0];
        [|discriminate].
      destruct (findSkill _ (heap w0) ls) as [l0|]; [|discriminate].
      destruct Hcases as (s0 & m & Hl0 & _ & _ & [= -> _ ->]).
      eexists. cbn [heap withHeap].
      apply list_lookup_insert_eq. eapply lookup_lt_Some. exact Hl0. }
    rewrite Hs, Hsplit.
    destruct (confirmed answer).
    + destruct (logAttempt_state skillName "APPROVED"
                  "User confirmed installation" true w1) as (_ & Ha & _).
      rewrite Hwr2, Hlog in Ha. eexists. split; [exact Ha |]. simpl.
      split; [reflexivity |]. split; [auto |]. split; split; reflexivity.
    + destruct (logAttempt_state skillName "DECLINED"
                  "User declined installation" false w1) as (_ & Ha & _).
      rewrite Hwr2, Hlog in Ha. eexists. split; [exact Ha |]. simpl.
      split; [reflexivity |]. split; [auto |]. split; split; discriminate.
  - eexists. split; [exact Hlog |]. simpl.
    split; [reflexivity |]. split; [auto |]. split; split; discriminate.
Qed.

Lemma main_audit_record_witness :
  ∃ record,
    auditLog (main demoDecodeReadme demoParseRepoInfo (Some "weather-forecast")
                Text (Typed "n") firstRunWorld).2
    = auditLog firstRunWorld ++ [record]
    ∧ audit_skillName record = "weather-forecast"
    ∧ (audit_result record = "REJECTED" ∨ audit_result record = "ERROR"
       ∨ audit_result record = "APPROVED" ∨ audit_result record = "DECLINED")
    ∧ (audit_result record = "APPROVED"
       ↔ (main demoDecodeReadme demoParseRepoInfo (Some "weather-forecast")
            Text (Typed "n") firstRunWorld).1 = Exit 0)
    ∧ (audit_userConfirmed record = true
       ↔ (main demoDecodeReadme demoParseRepoInfo (Some "weather-forecast")
            Text (Typed "n") firstRunWorld).1 = Exit 0).
Proof.
  apply (main_audit_record demoDecodeReadme demoParseRepoInfo
           "weather-forecast" "n" Text firstRunWorld);
    [discriminate | reflexivity | discriminate].
Defined.

(** ** More about the extractor *)

Section ExtractorMore.

Lemma split_append (c : ascii) (a b : string) :
  Js.split c (a +:+ String c b) = Js.split c a ++ Js.split c b.
Proof.
  induction a as [|x a IH]; simpl.
  - now rewrite Ascii.eqb_refl.
  - destruct (Ascii.eqb x c); [now rewrite IH |].
    rewrite IH. pose proof (split_nonempty c a) as Hne.
    destruct (Js.split c a) as [|p ps]; [congruence | reflexivity].
Qed.

Lemma trimStart_trimEnd_trimStart (s : string) :
  Js.trimStart (Js.trimEnd (Js.trimStart s)) = Js.trimEnd (Js.trimStart s).
Proof.
  induction s as [|c s IH]; simpl; [reflexivity |].
  destruct (Js.isWhiteSpace c) eqn:Hc; [exact IH |].
  simpl. rewrite Hc. simpl. now rewrite Hc.
Qed.

Lemma trimEnd_idempotent (s : string) : Js.trimEnd (Js.trimEnd s) = Js.trimEnd s.
Proof.
  induction s as [|c s IH]; simpl; [reflexivity |].
  destruct (Js.isWhiteSpace c && Js.isEmpty (Js.trimEnd s)) eqn:Hc;
    [reflexivity |].
  simpl. now rewrite IH, Hc.
Qed.

(** Trimming a trimmed string changes nothing. *)
Lemma trim_idempotent (s : string) : Js.trim (Js.trim s) = Js.trim s.
Proof.
  unfold Js.trim. now rewrite trimStart_trimEnd_trimStart, trimEnd_idempotent.
Qed.

Lemma occurs_replaceGitSuffix (c : ascii) (s : string) :
  occurs c (Js.replaceGitSuffix s) → occurs c s.
Proof.
  induction s as [|a s IH]; [simpl; tauto |].
  change (Js.replaceGitSuffix (String a s))
    with (if String.eqb (String a s) ".git" then ""
          else String a (Js.replaceGitSuffix s)).
  destruct (String.eqb (String a s) ".git"); simpl; tauto.
Qed.

Lemma Link_parts (pre label owner repo post line : string) :
  Link pre label owner repo post line →
  owner ≠ "" ∧ ¬ occurs "/" owner ∧ ¬ occurs ")" repo.
Proof. intros (_ & _ & _ & Ho & Ho' & _ & Hr). auto. Qed.

(** The entry of a line that holds a link is one of the entries of the
    document. *)
Lemma entry_in_document (content line : string) (e : Skill.t) :
  line ∈ Js.split "010" content →
  entryOfLine line = Some e →
  e ∈ parseSkillsFromReadme content.
Proof.
  intros Hin He. rewrite parseSkillsFromReadme_omap.
  apply list_elem_of_omap. eauto.
Qed.

(** The trimmed text is part of the text. *)
Lemma trim_is_substring (s : string) : Js.includes s (Js.trim s) = true.
Proof.
  apply includes_spec. destruct (trim_split s) as (a & b & Hs & _).
  now exists a, b.
Qed.

End ExtractorMore.

(** X20. The extractor works line by line: the entries of two documents
    put together with a line break between them are the entries of the
    first followed by the entries of the second, and the empty document
    has no entry. *)
Theorem parse_concatenation (first second : string) :
  parseSkillsFromReadme (first +:+ String "010" second)
  = parseSkillsFromReadme first ++ parseSkillsFromReadme second
  ∧ parseSkillsFromReadme "" = [].
Proof.
  split; [|reflexivity].
  now rewrite !parseSkillsFromReadme_omap, split_append, omap_app.
Qed.

(** X21. Every entry the extractor produces is well formed: its name is
    already lowercased and trimmed, so that it passes the first test of
    the lookup for its own name; its owner is not empty and has no slash;
    its repo has no closing parenthesis; its url starts with
    [https://github.com/]; its source line is trimmed; and it has neither
    [repoInfo] nor [safetyScore]. *)
Theorem parsed_entries_well_formed (content : string) (e : Skill.t) :
  e ∈ parseSkillsFromReadme content →
  Js.toLowerCase (Skill.name e) = Skill.name e
  ∧ Js.trim (Skill.name e) = Skill.name e
  ∧ matchesName (Js.trim (Js.toLowerCase (Skill.name e))) e = true
  ∧ Skill.owner e ≠ ""
  ∧ ¬ occurs "/" (Skill.owner e)
  ∧ ¬ occurs ")" (Skill.repo e)
  ∧ Js.startsWith (Skill.url e) "https://github.com/" = true
  ∧ Js.trim (Skill.parsedFrom e) = Skill.parsedFrom e
  ∧ Skill.repoInfo e = None
  ∧ Skill.safetyScore e = None.
Proof.
  rewrite parseSkillsFromReadme_omap. intros (line & Hin & He)%list_elem_of_omap.
  apply entryOfLine_Some in He as (pre & label & owner & repo & post & [H _] & ->).
  destruct (Link_parts _ _ _ _ _ _ H) as (Ho & Ho' & Hr).
  cbn [Skill.name Skill.owner Skill.repo Skill.url Skill.parsedFrom
       Skill.repoInfo Skill.safetyScore].
  assert (Js.toLowerCase (Js.trim (Js.toLowerCase label))
          = Js.trim (Js.toLowerCase label)) as Hlow
    by now rewrite <- trim_toLowerCase, toLowerCase_idempotent.
  split; [exact Hlow |].
  split; [apply trim_idempotent |].
  split.
  { unfold matchesName. cbn [Skill.name].
    rewrite Hlow, trim_idempotent, String.eqb_refl. reflexivity. }
  split; [exact Ho |]. split; [exact Ho' |].
  split; [intros Hocc; apply Hr; now apply occurs_replaceGitSuffix in Hocc |].
  split; [apply startsWith_spec; now eexists |].
  split; [apply trim_idempotent |]. split; reflexivity.
Qed.

Lemma parsed_entries_well_formed_witness :
  Js.toLowerCase (Skill.name gitEntry) = Skill.name gitEntry
  ∧ Js.trim (Skill.name gitEntry) = Skill.name gitEntry
  ∧ matchesName (Js.trim (Js.toLowerCase (Skill.name gitEntry))) gitEntry = true
  ∧ Skill.owner gitEntry ≠ ""
  ∧ ¬ occurs "/" (Skill.owner gitEntry)
  ∧ ¬ occurs ")" (Skill.repo gitEntry)
  ∧ Js.startsWith (Skill.url gitEntry) "https://github.com/" = true
  ∧ Js.trim (Skill.parsedFrom gitEntry) = Skill.parsedFrom gitEntry
  ∧ Skill.repoInfo gitEntry = None
  ∧ Skill.safetyScore gitEntry = None.
Proof.
  apply (parsed_entries_well_formed sampleReadme gitEntry).
  vm_compute. do 2 right. left.
Defined.

(** X22. What the document lists can be asked for: after a successful
    remote fetch of the list, a skill asked for by the label of the first
    link of a line of the document, as it is written there, or by the
    repo of the entry of that line, is approved.  (Only the first link of
    a line gives an entry; a later link of the same line is not
    covered.) *)
Theorem listed_skill_is_approved
    (decodeReadme : string → Outcome string)
    (parseRepoInfo : string → Outcome Metadata)
    (this : Validator.t) (w : World) (content line : string)
    (pre label owner repo post : string) :
  isFresh this w = false →
  listFetchYields decodeReadme this w content →
  line ∈ Js.split "010" content →
  FirstLink pre label owner repo post line →
  (∃ l safetyScore w2,
     validateSkill decodeReadme parseRepoInfo this label w
     = (Return (Approved l safetyScore), w2))
  ∧ (∃ l safetyScore w2,
       validateSkill decodeReadme parseRepoInfo this (Js.replaceGitSuffix repo) w
       = (Return (Approved l safetyScore), w2)).
Proof.
  intros Hf Hok Hin Hlink.
  pose proof (fetch_remote_success decodeReadme this w content Hf Hok) as Hfetch.
  set (e := Skill.mk (Js.trim (Js.toLowerCase label)) owner
              (Js.replaceGitSuffix repo)
              ("https://github.com/" +:+ owner +:+ "/" +:+ repo)
              (Js.trim line) None None).
  assert (e ∈ parseSkillsFromReadme content) as He.
  { apply (entry_in_document content line); [exact Hin |].
    unfold entryOfLine.
    now rewrite (FirstLink_lineMatch pre label owner repo post line Hlink). }
  assert (∀ query,
            matchesName (Js.trim (Js.toLowerCase query)) e = true →
            ∃ l safetyScore w2,
              validateSkill decodeReadme parseRepoInfo this query w
              = (Return (Approved l safetyScore), w2)) as Happroved.
  { intros query Hq.
    pose proof (validate_cases decodeReadme parseRepoInfo this query w) as Hcases.
    rewrite Hfetch in Hcases.
    match type of Hcases with
    | context [findSkill ?p (heap ?w1) ?ls] =>
        destruct (findSkill_exists p (heap w1) ls
                    (parseSkillsFromReadme content) e) as [l Hl];
          [|exact He | exact Hq | rewrite Hl in Hcases]
    end.
    - match goal with
      | |- context [afterCacheWrite ?c ?w0] =>
          destruct (afterCacheWrite_frame c w0) as (-> & _)
      end.
      apply objectsAt_fresh.
    - destruct Hcases as (s & m & _ & _ & _ & Hv). eexists _, _, _. exact Hv. }
  split; apply Happroved; unfold matchesName; subst e;
    cbn [Skill.name Skill.repo].
  - now rewrite String.eqb_refl.
  - apply orb_true_iff. right. apply trim_is_substring.
Qed.

Lemma listed_skill_is_approved_witness :
  (∃ l safetyScore w2,
     validateSkill demoDecodeReadme demoParseRepoInfo constructor
       "crypto-prices" firstRunWorld
     = (Return (Approved l safetyScore), w2))
  ∧ (∃ l safetyScore w2,
       validateSkill demoDecodeReadme demoParseRepoInfo constructor
         (Js.replaceGitSuffix "price-tracker.git") firstRunWorld
       = (Return (Approved l safetyScore), w2)).
Proof.
  destruct (lineMatch_FirstLink gitLine "crypto-prices" "crypto-dev"
              "price-tracker.git" eq_refl) as (pre & post & Hlink).
  apply (listed_skill_is_approved demoDecodeReadme demoParseRepoInfo constructor
           firstRunWorld sampleReadme gitLine
           pre "crypto-prices" "crypto-dev" "price-tracker.git" post).
  - reflexivity.
  - exists 200, sampleReadme. repeat split; reflexivity || lia.
  - vm_compute. do 7 right. left.
  - exact Hlink.
Defined.

(** ** The extractor against the words of the specification *)

Section SpecFacts.

Lemma code_bounded (c : ascii) : 0 ≤ code c < 256.
Proof.
  unfold code. pose proof (N_ascii_bounded c). lia.
Qed.

Lemma isWhiteSpace_spec (c : ascii) :
  Js.isWhiteSpace c = true ↔ WhiteSpaceChar c.
Proof.
  unfold Js.isWhiteSpace, WhiteSpaceChar. fold (code c).
  rewrite !orb_true_iff, andb_true_iff, Z.leb_le, Z.leb_le, !Z.eqb_eq. lia.
Qed.

Lemma isWhiteSpace_false (c : ascii) :
  Js.isWhiteSpace c = false ↔ ¬ WhiteSpaceChar c.
Proof.
  rewrite <- isWhiteSpace_spec. destruct (Js.isWhiteSpace c); split; congruence.
Qed.

Lemma lowerChar_spec (c : ascii) : LowerOf c (Js.lowerChar c).
Proof.
  unfold LowerOf, Js.lowerChar, Capital. fold (code c).
  pose proof (code_bounded c) as Hc.
  destruct (((65 <=? code c) && (code c <=? 90))
            || ((192 <=? code c) && (code c <=? 222) && negb (code c =? 215)))
    eqn:E.
  - left.
    rewrite orb_true_iff, !andb_true_iff, negb_true_iff, !Z.leb_le, Z.eqb_neq in E.
    split; [lia |].
    unfold code at 1. rewrite N_ascii_embedding by lia. lia.
  - right.
    rewrite orb_false_iff, !andb_false_iff, negb_false_iff, !Z.leb_gt, Z.eqb_eq in E.
    split; [lia | reflexivity].
Qed.

Lemma toLowerCase_spec (s : string) : Lowercased s (Js.toLowerCase s).
Proof.
  induction s as [|c s IH]; simpl; constructor; [apply lowerChar_spec | exact IH].
Qed.

(** Lower case is definite: the description has one answer. *)
Lemma LowerOf_lowerChar (c c' : ascii) : LowerOf c c' → c' = Js.lowerChar c.
Proof.
  intros H. destruct (lowerChar_spec c) as [[Hcap Hcode]|[Hnot ->]];
    destruct H as [[Hcap' Hcode']|[Hnot' ->]]; try tauto.
  rewrite <- (ascii_N_embedding c'), <- (ascii_N_embedding (Js.lowerChar c)).
  f_equal. unfold code in Hcode, Hcode'. lia.
Qed.

Lemma Lowercased_toLowerCase (s t : string) :
  Lowercased s t → t = Js.toLowerCase s.
Proof.
  induction 1 as [|c c' s s' Hc _ IH]; simpl; [reflexivity |].
  now rewrite (LowerOf_lowerChar c c' Hc), IH.
Qed.

Lemma blank_AllWhiteSpace (s : string) : blank s ↔ AllWhiteSpace s.
Proof.
  induction s as [|c s IH]; simpl; [tauto |].
  now rewrite isWhiteSpace_spec, IH.
Qed.

Lemma trimStart_head (s : string) (c : ascii) (rest : string) :
  Js.trimStart s = String c rest → Js.isWhiteSpace c = false.
Proof.
  induction s as [|a s IH]; simpl; [discriminate |].
  destruct (Js.isWhiteSpace a) eqn:E; [exact IH |].
  now intros [= <- _].
Qed.

Lemma trimEnd_head (s : string) (c : ascii) (rest : string) :
  Js.trimEnd s = String c rest → ∃ rest', s = String c rest'.
Proof.
  destruct s as [|a s]; simpl; [discriminate |].
  destruct (Js.isWhiteSpace a && Js.isEmpty (Js.trimEnd s)); [discriminate |].
  intros [= <- _]. eauto.
Qed.

Lemma trimEnd_last (s rest : string) (c : ascii) :
  Js.trimEnd s = rest +:+ String c "" → Js.isWhiteSpace c = false.
Proof.
  revert rest. induction s as [|a s IH]; intros rest; simpl.
  - destruct rest; discriminate.
  - destruct (Js.isWhiteSpace a) eqn:Ea, (Js.isEmpty (Js.trimEnd s)) eqn:Ee; simpl.
    + destruct rest; discriminate.
    + destruct rest as [|r rest]; simpl; intros [= <- H].
      * rewrite H in Ee. discriminate.
      * exact (IH rest H).
    + destruct rest as [|r rest]; simpl; intros [= <- H]; [exact Ea |].
      exact (IH rest H).
    + destruct rest as [|r rest]; simpl; intros [= <- H]; [exact Ea |].
      exact (IH rest H).
Qed.

(** [trim] does what the description of trimming says. *)
Lemma trim_spec (s : string) : Trimmed s (Js.trim s).
Proof.
  destruct (trim_split s) as (a & b & Hs & Ha & Hb).
  exists a, b. split; [exact Hs |].
  split; [now apply blank_AllWhiteSpace |].
  split; [now apply blank_AllWhiteSpace |].
  split.
  - intros c rest Ht. apply isWhiteSpace_false.
    unfold Js.trim in Ht. destruct (trimEnd_head _ _ _ Ht) as [rest' Hstart].
    exact (trimStart_head s c rest' Hstart).
  - intros rest c Ht. apply isWhiteSpace_false.
    unfold Js.trim in Ht. exact (trimEnd_last _ _ _ Ht).
Qed.

Lemma trimEnd_fixed (t : string) :
  (∀ rest c, t = rest +:+ String c "" → ¬ WhiteSpaceChar c) →
  Js.trimEnd t = t.
Proof.
  induction t as [|a t IH]; intros Hlast; simpl; [reflexivity |].
  rewrite IH.
  - destruct t as [|b t]; simpl; [|now rewrite andb_false_r].
    assert (Js.isWhiteSpace a = false) as ->; [|reflexivity].
    apply isWhiteSpace_false. now apply (Hlast "" a).
  - intros rest c ->. apply (Hlast (String a rest) c). reflexivity.
Qed.

(** Trimming is definite: the description has one answer. *)
Lemma Trimmed_trim (s t : string) : Trimmed s t → t = Js.trim s.
Proof.
  intros (before & after & -> & Hb & Ha & Hhead & Hlast).
  rewrite trim_padding by now apply blank_AllWhiteSpace.
  unfold Js.trim.
  assert (Js.trimStart t = t) as ->.
  { destruct t as [|c rest]; simpl; [reflexivity |].
    assert (Js.isWhiteSpace c = false) as ->; [|reflexivity].
    apply isWhiteSpace_false. now apply (Hhead c rest). }
  symmetry. now apply trimEnd_fixed.
Qed.

Lemma replaceGitSuffix_spec (segment : string) :
  RepoOf segment (Js.replaceGitSuffix segment).
Proof.
  destruct (replaceGitSuffix_cases segment) as [H|[Hno H]]; [now left | now right].
Qed.

Lemma split_whole (c : ascii) (s : string) :
  ¬ occurs c s → Js.split c s = [s].
Proof.
  induction s as [|a s IH]; simpl; [reflexivity |].
  intros Hno. destruct (Ascii.eqb_spec a c) as [->|Hne]; [now destruct Hno; left |].
  rewrite IH; [reflexivity |]. intros H. apply Hno. now right.
Qed.

(** Splitting undoes joining: the lines of a document are definite. *)
Lemma split_join (c : ascii) (lines : list string) :
  lines ≠ [] →
  (∀ line, line ∈ lines → ¬ occurs c line) →
  Js.split c (join c lines) = lines.
Proof.
  induction lines as [|line lines IH]; intros Hne Hno; [now destruct Hne |].
  destruct lines as [|line2 lines].
  - simpl. apply split_whole. apply Hno. now left.
  - change (join c (line :: line2 :: lines))
      with (line +:+ String c (join c (line2 :: lines))).
    rewrite split_append, split_whole by (apply Hno; now left).
    rewrite IH; [reflexivity | discriminate |].
    intros l Hl. apply Hno. now right.
Qed.

Lemma LinesOf_split (content : string) (lines : list string) :
  LinesOf content lines ↔ lines = Js.split "010" content.
Proof.
  split.
  - intros (Hne & <- & Hno). symmetry. now apply split_join.
  - intros ->. split; [apply split_nonempty |].
    split; [apply join_split |].
    intros line. apply split_no_separator.
Qed.

Lemma entryOfLine_spec (line : string) (e : Skill.t) :
  entryOfLine line = Some e → EntryOf line e.
Proof.
  intros He. destruct (entryOfLine_Some line e He)
    as (pre & label & owner & repo & post & Hlink & ->).
  exists pre, label, owner, repo, post. simpl.
  split; [exact Hlink |]. split; [|split; [reflexivity | apply replaceGitSuffix_spec]].
  exists (Js.trim label). split; [apply trim_spec |].
  rewrite trim_toLowerCase. apply toLowerCase_spec.
Qed.

Lemma entryOfLine_None (line : string) :
  entryOfLine line = None → ¬ HasLink line.
Proof.
  unfold entryOfLine.
  destruct (Pattern.lineMatch line) as [[[label owner] repo]|] eqn:E; [discriminate |].
  intros _. now apply lineMatch_None.
Qed.

Lemma Extracted_omap (lines : list string) :
  Extracted lines (omap entryOfLine lines).
Proof.
  induction lines as [|line lines IH]; simpl; [constructor |].
  destruct (entryOfLine line) as [e|] eqn:He.
  - apply extracted_take; [now apply entryOfLine_spec | exact IH].
  - apply extracted_skip; [now apply entryOfLine_None | exact IH].
Qed.

(** The description of an entry leaves no choice. *)
Lemma NameOf_def (label name : string) :
  NameOf label name ↔ name = Js.trim (Js.toLowerCase label).
Proof.
  split.
  - intros (t & Ht & Hname).
    rewrite (Lowercased_toLowerCase t name Hname), (Trimmed_trim label t Ht).
    symmetry. apply trim_toLowerCase.
  - intros ->. exists (Js.trim label). split; [apply trim_spec |].
    rewrite trim_toLowerCase. apply toLowerCase_spec.
Qed.

Lemma RepoOf_def (segment repo : string) :
  RepoOf segment repo ↔ repo = Js.replaceGitSuffix segment.
Proof.
  split.
  - intros [->|[Hno ->]].
    + symmetry. apply replaceGitSuffix_git.
    + symmetry. now apply replaceGitSuffix_other.
  - intros ->. apply replaceGitSuffix_spec.
Qed.

Lemma EntryOf_entryOfLine (line : string) (e : Skill.t) :
  EntryOf line e → ∃ e0, entryOfLine line = Some e0 ∧ sameFields e e0.
Proof.
  intros (pre & label & owner & repo & post & Hlink & Hname & Howner & Hrepo).
  unfold entryOfLine.
  rewrite (FirstLink_lineMatch pre label owner repo post line Hlink).
  eexists. split; [reflexivity |]. unfold sameFields. simpl.
  split; [now apply NameOf_def |]. split; [exact Howner | now apply RepoOf_def].
Qed.

Lemma Extracted_definite (lines : list string) (entries : list Skill.t) :
  Extracted lines entries →
  Forall2 sameFields entries (omap entryOfLine lines).
Proof.
  induction 1 as [|line lines entries Hno _ IH|line lines e entries He _ IH]; simpl.
  - constructor.
  - unfold entryOfLine.
    rewrite (proj2 (lineMatch_None line) Hno). exact IH.
  - destruct (EntryOf_entryOfLine line e He) as (e0 & -> & Hsame).
    now constructor.
Qed.

End SpecFacts.

(** C6, as the specification has it, fails on a link to another host: the
    line matches the pattern [[label](https://host/owner/repo)] and the
    extractor yields no entry for it. *)
Lemma other_host_yields_no_entry :
  SpecLink "- " "deploy-helper" "gitlab.com" "ops-team" "deploy-helper"
           " - Deploy from chat" gitlabLine
  ∧ parseSkillsFromReadme gitlabLine = [].
Proof.
  split; [|vm_compute; reflexivity].
  unfold SpecLink. split; [reflexivity |].
  repeat split; simpl; try discriminate; intros H;
    repeat (destruct H as [H|H]; [discriminate |]); exact H.
Qed.

(** C6, amended. For every document, [parseSkillsFromReadme] yields one
    entry per line that holds a link
    [[label](https://github.com/owner/repo)], the host being github.com,
    in the order of the lines and without removing duplicates; a line
    without such a link yields nothing.  The entry of a line has the
    lowercased, trimmed label as its name, the first path segment after
    the host as its owner, and the rest of the path, without a trailing
    [".git"], as its repo.  Lines, trimming, lower case and the suffix
    are taken as the specification describes them, by the characters of
    the text; the description leaves no choice: any list of entries that
    fits it has the names, owners and repos of the list the function
    returns. *)
Theorem parse_entries_of_matching_lines (content : string) :
  (∃ lines, LinesOf content lines)
  ∧ (∀ lines,
       LinesOf content lines →
       Extracted lines (parseSkillsFromReadme content))
  ∧ (∀ lines entries,
       LinesOf content lines →
       Extracted lines entries →
       Forall2 sameFields entries (parseSkillsFromReadme content)).
Proof.
  split; [|split].
  - exists (Js.split "010" content). now apply LinesOf_split.
  - intros lines ->%LinesOf_split.
    rewrite parseSkillsFromReadme_omap. apply Extracted_omap.
  - intros lines entries ->%LinesOf_split Hfit.
    rewrite parseSkillsFromReadme_omap. now apply Extracted_definite.
Qed.

Lemma parse_entries_of_matching_lines_witness :
  LinesOf mixedCaseReadme mixedCaseLines
  ∧ parseSkillsFromReadme mixedCaseReadme = [mixedCaseEntry; mixedCaseEntry]
  ∧ Extracted mixedCaseLines [mixedCaseEntry; mixedCaseEntry].
Proof.
  assert (LinesOf mixedCaseReadme mixedCaseLines) as Hlines.
  { split; [discriminate |]. split; [reflexivity |].
    intros line Hin.
    repeat (apply elem_of_cons in Hin as [->|Hin];
            [simpl; intros H;
             repeat (destruct H as [H|H]; [discriminate |]); exact H |]).
    now apply elem_of_nil in Hin. }
  assert (parseSkillsFromReadme mixedCaseReadme = [mixedCaseEntry; mixedCaseEntry])
    as Hparse by (vm_compute; reflexivity).
  split; [exact Hlines |]. split; [exact Hparse |].
  rewrite <- Hparse.
  destruct (parse_entries_of_matching_lines mixedCaseReadme) as (_ & Hextracted & _).
  apply Hextracted. exact Hlines.
Defined.
